(** * msabon: the discovery-to-REST mapping engine (generator.js)

    A shallow embedding of the route generator: the type mapper, the
    SQL synthesizer of the list/get/create/update/delete handlers, the
    route registrar, the schema emitter and the advanced template
    executor, followed by the properties of the specification that can
    be settled on them.

    Conventions of the embedding.

    - Text is a Rocq [string].  The embedding covers ASCII text: a
      character above 127 has no case and is not white space here.
      A property that depends on the case of letters or on white
      space is stated for ASCII text ([ascii_text]).
    - [String(v)] is [js_string]: it throws for an object that has a
      property [toString] of its own, which a JSON payload can give
      only as a value that is no function.
    - A JavaScript value is a [value]; [undefined] is the [None] of an
      [option value].  A number is carried by the text [String(n)]
      gives for it, which is the only observation the generator makes
      of a number taken from a request.
    - An exception is the [Throw] of [Exn], with [err.message] as its
      payload; [try { .. } catch (err) { .. }] is [try_catch].
    - The database is outside of the generator.  A statement sent at
      request time goes to an oracle [pool] and is appended to the log
      of the handler; the catalog queries of discovery are the typed
      fields of a [Catalog].  [request.input] of the mssql driver
      refuses a name that holds a space, a quote or a comment marker,
      and a name already declared on the request; otherwise it
      records the binding.  The calls of [logger] and the digest that
      is only logged have no effect on a response and are left out.
    - A request carries JSON objects: [req.query], [req.params] and
      [req.body] are maps from property names to values, read with
      the property lookup of JavaScript, which also finds what an
      object inherits. *)

From Stdlib Require Import ZArith Ascii String List Bool Lia DecimalString DecimalNat.
From stdpp Require Import base option list strings gmap sorting.

Local Open Scope Z_scope.
Local Open Scope string_scope.
Local Open Scope list_scope.

(** ** Characters and strings, as JavaScript sees them *)

Module Js.

Definition code (c : ascii) : N := N_of_ascii c.

Definition is_digit (c : ascii) : bool :=
  ((48 <=? code c) && (code c <=? 57))%N.
Definition is_upper (c : ascii) : bool :=
  ((65 <=? code c) && (code c <=? 90))%N.
Definition is_lower (c : ascii) : bool :=
  ((97 <=? code c) && (code c <=? 122))%N.

(** [[a-zA-Z0-9_]] *)
Definition is_word_char (c : ascii) : bool :=
  is_lower c || is_upper c || is_digit c || (code c =? 95)%N.

(** [\s], and the white space [parseInt] skips *)
Definition is_space (c : ascii) : bool :=
  ((9 <=? code c) && (code c <=? 13) || (code c =? 32))%N.

Definition upper_char (c : ascii) : ascii :=
  if is_lower c then ascii_of_N (code c - 32) else c.
Definition lower_char (c : ascii) : ascii :=
  if is_upper c then ascii_of_N (code c + 32) else c.

Fixpoint map_chars (f : ascii -> ascii) (s : string) : string :=
  match s with
  | EmptyString => EmptyString
  | String c r => String (f c) (map_chars f r)
  end.

Definition toUpperCase : string -> string := map_chars upper_char.
Definition toLowerCase : string -> string := map_chars lower_char.

Fixpoint startsWith (s tok : string) {struct tok} : bool :=
  match tok, s with
  | EmptyString, _ => true
  | String _ _, EmptyString => false
  | String a tok', String b s' => Ascii.eqb a b && startsWith s' tok'
  end.

(** [s.includes(tok)] *)
Fixpoint includes (s tok : string) : bool :=
  startsWith s tok ||
  match s with
  | EmptyString => false
  | String _ r => includes r tok
  end.

(** the longest prefix of [s] made of characters in [p], and the rest *)
Fixpoint span (p : ascii -> bool) (s : string) : string * string :=
  match s with
  | EmptyString => (EmptyString, EmptyString)
  | String c r =>
      if p c then let '(a, b) := span p r in (String c a, b)
      else (EmptyString, s)
  end.

(** [s.split(sep)] for a separator of one character *)
Fixpoint split (sep : ascii) (s : string) : list string :=
  match s with
  | EmptyString => [EmptyString]
  | String c r =>
      if Ascii.eqb c sep then EmptyString :: split sep r
      else match split sep r with
           | [] => [String c EmptyString]
           | p :: ps => String c p :: ps
           end
  end.

(** [xs.join(sep)] *)
Fixpoint join (sep : string) (xs : list string) : string :=
  match xs with
  | [] => EmptyString
  | [x] => x
  | x :: r => x +:+ sep +:+ join sep r
  end.

(** [s.replace(/'/g, "''")] *)
Fixpoint double_quotes (s : string) : string :=
  match s with
  | EmptyString => EmptyString
  | String c r =>
      if Ascii.eqb c "'" then String "'" (String "'" (double_quotes r))
      else String c (double_quotes r)
  end.

(** [/^\d+(\.\d+)?$/.test(s)] *)
Definition is_decimal_text (s : string) : bool :=
  let '(int_part, r) := span is_digit s in
  match int_part, r with
  | EmptyString, _ => false
  | _, EmptyString => true
  | _, String c r' =>
      Ascii.eqb c "." &&
      (let '(frac, r'') := span is_digit r' in
       match frac, r'' with
       | String _ _, EmptyString => true
       | _, _ => false
       end)
  end.

Fixpoint digits_value (acc : Z) (s : string) : Z :=
  match s with
  | EmptyString => acc
  | String c r => digits_value (10 * acc + Z.of_N (code c - 48)) r
  end.

(** The largest magnitude that is still a finite double once rounded. *)
Definition finite_bound : Z := 2 ^ 1024 - 2 ^ 970.

(** [parseInt(s, 10)] followed by [Number.isFinite]: [None] stands for
    [NaN] and for an infinity.  The integer is kept exact; JavaScript
    holds the double nearest to it, which has the same sign and is
    zero exactly when the integer is. *)
Definition parseInt_finite (s : string) : option Z :=
  let '(_, r) := span is_space s in
  let '(neg, r1) :=
    match r with
    | String "-" r' => (true, r')
    | String "+" r' => (false, r')
    | _ => (false, r)
    end in
  let '(ds, _) := span is_digit r1 in
  match ds with
  | EmptyString => None
  | _ =>
      let n := digits_value 0 ds in
      if (finite_bound <=? n)%Z then None
      else Some (if neg then - n else n)
  end.

End Js.

(** ** JavaScript values *)

#[warnings="-register-all"]
Inductive value : Type :=
  | VNull
  | VBool (b : bool)
  | VNum (text : string)
  | VStr (s : string)
  | VArr (items : list value)
  | VObj (fields : list (string * value))
  | VBuiltin (text : string).

(** ** Exceptions *)

Inductive Exn (A : Type) : Type :=
  | Ok (a : A)
  | Throw (message : string).
Arguments Ok {A} a.
Arguments Throw {A} message.

Definition exn_bind {A B} (m : Exn A) (k : A -> Exn B) : Exn B :=
  match m with
  | Ok a => k a
  | Throw e => Throw e
  end.

(** The message of the [TypeError] raised by [undefined.toLowerCase()]. *)
Definition undefined_toLowerCase : string :=
  "Cannot read properties of undefined (reading 'toLowerCase')".

(** The message of the [TypeError] raised when an object has no method
    that turns it into a primitive value. *)
Definition cannot_convert : string :=
  "Cannot convert object to primitive value".

(** [String(v)].  A value that comes from a request has the methods
    it inherits and no method of its own.  An object is converted by
    the inherited [toString], unless it has an own property of that
    name: that property is no function, the inherited [valueOf]
    returns the object itself, and the conversion raises a
    [TypeError].  The text of an array is joined from the texts of
    its elements, converted in order, [null] counting as the empty
    text. *)
Fixpoint js_string (v : value) : Exn string :=
  match v with
  | VNull => Ok "null"
  | VBool true => Ok "true"
  | VBool false => Ok "false"
  | VNum t => Ok t
  | VStr s => Ok s
  | VArr items =>
      match
        (fix elements (l : list value) : Exn (list string) :=
           match l with
           | [] => Ok []
           | x :: r =>
               match (match x with VNull => Ok "" | _ => js_string x end) with
               | Ok s =>
                   match elements r with
                   | Ok ss => Ok (s :: ss)
                   | Throw e => Throw e
                   end
               | Throw e => Throw e
               end
           end) items
      with
      | Ok texts => Ok (Js.join "," texts)
      | Throw e => Throw e
      end
  | VObj fields =>
      if existsb (fun f => String.eqb f.1 "toString") fields
      then Throw cannot_convert
      else Ok "[object Object]"
  | VBuiltin t => Ok t
  end.

(** [String(x)] of a value that may be [undefined] *)
Definition js_string_opt (x : option value) : Exn string :=
  match x with
  | None => Ok "undefined"
  | Some v => js_string v
  end.

(** truthiness *)
Definition truthy_str (s : string) : bool := negb (String.eqb s "").

Definition truthy (x : option value) : bool :=
  match x with
  | None | Some VNull => false
  | Some (VBool b) => b
  | Some (VNum t) => negb (String.eqb t "0")
  | Some (VStr s) => truthy_str s
  | Some _ => true
  end.

(** The properties every object built by [JSON.parse] or by the query
    parser inherits from [Object.prototype]. *)
Definition object_prototype (k : string) : option value :=
  let native n := Some (VBuiltin ("function " +:+ n +:+ "() { [native code] }")) in
  if String.eqb k "constructor" then native "Object"
  else if String.eqb k "__proto__" then Some (VBuiltin "[object Object]")
  else if existsb (String.eqb k)
       ["toString"; "toLocaleString"; "valueOf"; "hasOwnProperty";
        "isPrototypeOf"; "propertyIsEnumerable"; "__defineGetter__";
        "__defineSetter__"; "__lookupGetter__"; "__lookupSetter__"]
  then native k
  else None.

(** [o[k]]: an own property, else an inherited one, else [undefined] *)
Definition js_get (o : gmap string value) (k : string) : option value :=
  match o !! k with
  | Some v => Some v
  | None => object_prototype k
  end.

(** [k in o] *)
Definition js_in (o : gmap string value) (k : string) : bool :=
  bool_decide (is_Some (js_get o k)).

(** ** Type mapper *)

(** [sql.NVarChar(n)], [sql.NVarChar(sql.MAX)], and [sql.NVarChar] used
    without a length *)
Inductive SqlLength : Type := Len (n : Z) | MAX | Unsized.

Inductive SqlType : Type :=
  | NVarChar (len : SqlLength)
  | Int
  | BigInt
  | Bit
  | Decimal (precision scale : Z)
  | Float
  | DateTime.

Record Column : Type := {
  COLUMN_NAME : string;
  DATA_TYPE : string;
  IS_NULLABLE : string;
  CHARACTER_MAXIMUM_LENGTH : option Z
}.

Record OpenApiType : Type := {
  oa_type : string;
  oa_format : option string
}.

Definition mapSqlTypeToMssqlType (col : Column) : SqlType :=
  let t := Js.toLowerCase (DATA_TYPE col) in
  if Js.includes t "char" || String.eqb t "text" || String.eqb t "ntext" then
    match CHARACTER_MAXIMUM_LENGTH col with
    | Some n => if negb (n =? 0)%Z && (0 <? n)%Z then NVarChar (Len n)
                else NVarChar MAX
    | None => NVarChar MAX
    end
  else if Js.includes t "int" then Int
  else if String.eqb t "bigint" then BigInt
  else if String.eqb t "bit" then Bit
  else if Js.includes t "decimal" || String.eqb t "numeric" then Decimal 18 4
  else if Js.includes t "float" || String.eqb t "real" then Float
  else if Js.includes t "date" || Js.includes t "time" then DateTime
  else if String.eqb t "uniqueidentifier" then NVarChar (Len 50)
  else NVarChar MAX.

Definition toOpenApiType (col : Column) : OpenApiType :=
  let t := Js.toLowerCase (DATA_TYPE col) in
  if Js.includes t "int" then {| oa_type := "integer"; oa_format := None |}
  else if String.eqb t "bigint" then
    {| oa_type := "integer"; oa_format := Some "int64" |}
  else if String.eqb t "bit" then {| oa_type := "boolean"; oa_format := None |}
  else if Js.includes t "float" || String.eqb t "real"
          || Js.includes t "decimal" || String.eqb t "numeric" then
    {| oa_type := "number"; oa_format := None |}
  else if Js.includes t "date" || Js.includes t "time" then
    {| oa_type := "string"; oa_format := Some "date-time" |}
  else {| oa_type := "string"; oa_format := None |}.

(** [x || d] on a number that may be [null]: zero is falsy. *)
Definition or_default (x : option Z) (d : Z) : Z :=
  match x with
  | Some n => if (n =? 0)%Z then d else n
  | None => d
  end.

(** [typeName] may be [null]: [String(typeName || '')]. *)
Definition mapTypeNameToMssql (typeName : option string)
    (maxLength precision scale : option Z) : SqlType :=
  let t := Js.toLowerCase (default "" typeName) in
  if Js.includes t "char" || String.eqb t "text" || String.eqb t "ntext" then
    NVarChar (match maxLength with
              | Some n => if negb (n =? 0)%Z && (0 <? n)%Z then Len n else MAX
              | None => MAX
              end)
  else if Js.includes t "int" && negb (String.eqb t "bigint") then Int
  else if String.eqb t "bigint" then BigInt
  else if String.eqb t "bit" then Bit
  else if Js.includes t "decimal" || String.eqb t "numeric" then
    Decimal (or_default precision 18) (or_default scale 4)
  else if Js.includes t "float" || String.eqb t "real" then Float
  else if Js.includes t "date" || Js.includes t "time" then DateTime
  else if String.eqb t "uniqueidentifier" then NVarChar (Len 50)
  else NVarChar MAX.

Definition toOpenApiTypeFromSqlName (typeName : option string) : OpenApiType :=
  let t := Js.toLowerCase (default "" typeName) in
  if Js.includes t "int" then {| oa_type := "integer"; oa_format := None |}
  else if String.eqb t "bigint" then
    {| oa_type := "integer"; oa_format := Some "int64" |}
  else if String.eqb t "bit" then {| oa_type := "boolean"; oa_format := None |}
  else if Js.includes t "float" || String.eqb t "real"
          || Js.includes t "decimal" || String.eqb t "numeric" then
    {| oa_type := "number"; oa_format := None |}
  else if Js.includes t "date" || Js.includes t "time" then
    {| oa_type := "string"; oa_format := Some "date-time" |}
  else if String.eqb t "uniqueidentifier" then
    {| oa_type := "string"; oa_format := Some "uuid" |}
  else {| oa_type := "string"; oa_format := None |}.

(** ** State and exceptions

    A computation over a state [S] that returns or throws.  The state
    of a request handler is the log of the statements it has sent to
    the database; the state of discovery is the routing table of the
    application. *)

Definition SE (S A : Type) : Type := S -> Exn A * S.

Definition ret {S A} (a : A) : SE S A := fun s => (Ok a, s).
Definition throw {S A} (msg : string) : SE S A := fun s => (Throw msg, s).
Definition bind {S A B} (m : SE S A) (k : A -> SE S B) : SE S B :=
  fun s =>
    match m s with
    | (Ok a, s') => k a s'
    | (Throw e, s') => (Throw e, s')
    end.
Definition lift {S A} (x : Exn A) : SE S A := fun s => (x, s).
Definition try_catch {S A} (m : SE S A) (h : string -> SE S A) : SE S A :=
  fun s =>
    match m s with
    | (Ok a, s') => (Ok a, s')
    | (Throw e, s') => h e s'
    end.

Notation "'let!' x ':=' m 'in' k" := (bind m (fun x => k))
  (at level 10, x pattern, m at level 100, k at level 200).
Notation "'run!' m 'in' k" := (bind m (fun _ => k))
  (at level 10, m at level 100, k at level 200).

(** [for (const x of xs) { .. }] where the body updates [acc] *)
Fixpoint fold_each {S A B} (xs : list A) (body : B -> A -> SE S B) (acc : B)
    : SE S B :=
  match xs with
  | [] => ret acc
  | x :: r => let! acc' := body acc x in fold_each r body acc'
  end.

(** ** The database at request time *)

Record Binding : Type := {
  b_name : string;
  b_type : SqlType;
  b_value : option value
}.

Inductive DbCall : Type :=
  | Query (sqlText : string) (parameters : list Binding)
  | Execute (procedure : string) (parameters : list Binding).

Definition sql_text (call : DbCall) : string :=
  match call with
  | Query text _ => text
  | Execute procedure _ => procedure
  end.

Definition bound (call : DbCall) : list Binding :=
  match call with
  | Query _ b => b
  | Execute _ b => b
  end.

(** *** The request of the driver

    The driver is the package mssql, which the generator requires; it
    is not part of the repository.  A request of the driver holds the
    parameters declared on it, in the order of their declaration, and
    its [input] throws a [RequestError] for a name that fails the
    test below ([EINJECT]) and for a name declared before
    ([EDUPEPARAM]). *)

(** the arguments of a call of [request.input] *)
Definition binding (name : string) (type : SqlType) (v : option value) : Binding :=
  {| b_name := name; b_type := type; b_value := v |}.

Definition injection_warning (name : string) : string :=
  "SQL injection warning for param '" +:+ name +:+ "'".

Definition already_declared (name : string) : string :=
  "The parameter name " +:+ name
  +:+ " has already been declared. Parameter names must be unique".

(** [/--| |\/\*|\*\/|'/.test(name)], the test of the driver on the
    name of a parameter *)
Definition refused_name (name : string) : bool :=
  Js.includes name "--" || Js.includes name " " || Js.includes name "/*"
  || Js.includes name "*/" || Js.includes name "'".

(** [request.input(name, type, value)] on a request that holds the
    parameters [request]: the driver throws for a name that fails its
    test and for a name that the request has already, and declares
    the parameter otherwise. *)
Definition input (request : list Binding) (name : string) (type : SqlType)
    (v : option value) : Exn (list Binding) :=
  if refused_name name then Throw (injection_warning name)
  else if existsb (fun b => String.eqb (b_name b) name) request
  then Throw (already_declared name)
  else Ok (request ++ [binding name type v]).

(** the calls of [request.input] for the bindings [bs], in order *)
Fixpoint declare (request : list Binding) (bs : list Binding)
    : Exn (list Binding) :=
  match bs with
  | [] => Ok request
  | b :: r =>
      exn_bind (input request (b_name b) (b_type b) (b_value b))
               (fun request' => declare request' r)
  end.

(** the request a handler makes for a statement whose bindings do not
    depend on one another: a new request, a call of [request.input]
    for each binding, then the statement *)
Definition prepare (call : DbCall) : Exn DbCall :=
  exn_bind (declare [] (bound call)) (fun request =>
  Ok (match call with
      | Query text _ => Query text request
      | Execute procedure _ => Execute procedure request
      end)).

Definition Row : Type := list (string * value).

(** The result of a statement: [r.recordsets]; [r.recordset] is its
    first element. *)
Definition QueryResult : Type := list (list Row).

Definition recordset (r : QueryResult) : option (list Row) := head r.

Record Response : Type := {
  status : Z;
  payload : option value
}.

Definition json (code : Z) (v : value) : Response :=
  {| status := code; payload := Some v |}.
Definition error_json (code : Z) (msg : string) : Response :=
  json code (VObj [("error", VStr msg)]).
Definition rows_json (rows : list Row) : value := VArr (map VObj rows).

(** ** Advanced template executor: substitution and guard *)

(** One attempt of [/{{\s*([a-zA-Z0-9_]+)\s*}}/] at the start of [s]:
    the captured name and the length of the match.  The three classes
    of characters are disjoint, so the greedy match is the only one. *)
Definition match_placeholder (s : string) : option (string * nat) :=
  match s with
  | String "{" (String "{" r1) =>
      let '(ws1, r2) := Js.span Js.is_space r1 in
      let '(key, r3) := Js.span Js.is_word_char r2 in
      let '(ws2, r4) := Js.span Js.is_space r3 in
      match key, r4 with
      | String _ _, String "}" (String "}" _) =>
          Some (key, (2 + String.length ws1 + String.length key
                      + String.length ws2 + 2)%nat)
      | _, _ => None
      end
  | _ => None
  end.

(** [template.replace(re, f)] with the global flag: matches are looked
    for from left to right and do not overlap; [skip] counts the
    characters of the current match that are still to be passed. *)
Fixpoint replace_placeholders (f : string -> Exn string) (skip : nat)
    (s : string) : Exn string :=
  match s with
  | EmptyString => Ok EmptyString
  | String c r =>
      match skip with
      | S k => replace_placeholders f k r
      | O =>
          match match_placeholder s with
          | Some (key, n) =>
              exn_bind (f key) (fun text =>
              exn_bind (replace_placeholders f (Nat.pred n) r) (fun out =>
              Ok (text +:+ out)))
          | None =>
              exn_bind (replace_placeholders f O r) (fun out =>
              Ok (String c out))
          end
      end
  end.

(** The callback of [substituteTemplate]. *)
Definition substitute_value (vars : gmap string value) (key : string)
    : Exn string :=
  if negb (js_in vars key) then Throw ("Missing variable '" +:+ key +:+ "'")
  else
    match js_get vars key with
    | None | Some VNull => Ok "NULL"
    | Some (VNum t) => Ok t
    | Some v =>
        exn_bind (js_string v) (fun text =>
        if Js.is_decimal_text text then Ok text
        else Ok (Js.double_quotes text))
    end.

Definition substituteTemplate (template : string) (vars : gmap string value)
    : Exn string :=
  replace_placeholders (substitute_value vars) O template.

Definition banned : list string :=
  ["INSERT "; "UPDATE "; "DELETE "; "MERGE "; "ALTER "; "DROP "; "CREATE ";
   "TRUNCATE "; "EXEC "; "EXECUTE "; "GRANT "; "REVOKE "; "USE ";
   "BEGIN TRAN"; "COMMIT"; "ROLLBACK"; "XP_"; "SP_CONFIGURE"].

Definition isReadOnly (sqlText : string) : bool :=
  let s := Js.toUpperCase sqlText in
  negb (existsb (fun tok => Js.includes s tok) banned).

(** ** Table metadata and requests *)

Record TableMeta : Type := {
  schema : string;
  table : string;
  columns : list Column;
  pk : list string;
  isView : bool;
  hasTriggers : bool;
  identity : option string
}.

Record Request : Type := {
  query : gmap string value;
  params : gmap string value;
  body : gmap string value
}.

(** the text a template literal gives for a string that may be
    [undefined]; it is also the property key [o[x]] uses *)
Definition text_of (x : option string) : string := default "undefined" x.

Definition truthy_name (x : option string) : bool :=
  match x with
  | Some s => truthy_str s
  | None => false
  end.

(** [tableMeta.pk && tableMeta.pk[0]] *)
Definition pk0 (tableMeta : TableMeta) : option string := head (pk tableMeta).

Definition qName (schema table : string) : string :=
  "[" +:+ schema +:+ "].[" +:+ table +:+ "]".

(** [tableMeta.columns.find(c => c.COLUMN_NAME === pk) || {}], passed to
    [mapSqlTypeToMssqlType]: on [{}] the type name is [undefined] and
    [toLowerCase] raises. *)
Definition key_type (tableMeta : TableMeta) (pk : string) : Exn SqlType :=
  match find (fun c => String.eqb (COLUMN_NAME c) pk) (columns tableMeta) with
  | Some col => Ok (mapSqlTypeToMssqlType col)
  | None => Throw undefined_toLowerCase
  end.

(** ** SQL synthesizer *)

(** *** List *)

(** the equality filters: one clause and one bound parameter for each
    column that has a value in the query string *)
Definition list_filters (tableMeta : TableMeta) (q : gmap string value)
    : list (string * Binding) :=
  omap (fun col =>
          match js_get q (COLUMN_NAME col) with
          | Some v =>
              Some ("[" +:+ COLUMN_NAME col +:+ "] = @" +:+ COLUMN_NAME col,
                    binding (COLUMN_NAME col) (mapSqlTypeToMssqlType col) (Some v))
          | None => None
          end)
       (columns tableMeta).

(** [order=col.asc | col.desc]: the column asked for, if any, and the
    direction; [String(q.order)] may throw *)
Definition parse_order (q : gmap string value)
    : Exn (option string * string) :=
  if truthy (js_get q "order") then
    exn_bind (js_string_opt (js_get q "order")) (fun text =>
    let parts := Js.split "." text in
    Ok (head parts,
        match parts !! 1%nat with
        | Some d =>
            if truthy_str d && String.eqb (Js.toUpperCase d) "DESC"
            then "DESC" else "ASC"
        | None => "ASC"
        end))
  else Ok (None, "ASC").

(** the column and direction of [ORDER BY]; [columns[0]] of an empty
    list is [undefined], whose [COLUMN_NAME] cannot be read *)
Definition order_by (tableMeta : TableMeta) (q : gmap string value)
    : Exn (string * string) :=
  exn_bind (parse_order q) (fun '(orderCol, orderDir) =>
  let columnNames := map COLUMN_NAME (columns tableMeta) in
  let pkColName := pk0 tableMeta in
  if negb (truthy_name orderCol)
     || negb (existsb (String.eqb (text_of orderCol)) columnNames)
  then
    if truthy_name pkColName then Ok (text_of pkColName, "ASC")
    else match columns tableMeta with
         | c :: _ => Ok (COLUMN_NAME c, "ASC")
         | [] => Throw "Cannot read properties of undefined (reading 'COLUMN_NAME')"
         end
  else Ok (text_of orderCol, orderDir)).

(** [parseInt(x, 10)] and [Number.isFinite]: [parseInt] begins with
    [String(x)], which may throw *)
Definition parseInt_of (x : option value) : Exn (option Z) :=
  exn_bind (js_string_opt x) (fun text => Ok (Js.parseInt_finite text)).

Definition parse_limit (q : gmap string value) : Exn Z :=
  exn_bind (parseInt_of (js_get q "limit")) (fun n => Ok (default (-1) n)).

Definition parse_offset (q : gmap string value) : Exn Z :=
  exn_bind (parseInt_of (js_get q "offset")) (fun n =>
  let offset := default 0 n in
  Ok (if (offset <? 0)%Z then 0 else offset)).

(** the sent number, as the [value] bound to a parameter *)
Definition number (number_to_string : Z -> string) (n : Z) : value :=
  VNum (number_to_string n).

(** [where.length ? 'WHERE ' + where.join(' AND ') : ''] *)
Definition where_sql (clauses : list string) : string :=
  match clauses with
  | [] => ""
  | _ => "WHERE " +:+ Js.join " AND " clauses
  end.

(** The steps of the list handler up to its statement, in the order
    of the source: the filters are declared on the request, the sort
    and the page are read, the parameters of the page are declared. *)
Definition list_statement (number_to_string : Z -> string)
    (tableMeta : TableMeta) (q : gmap string value) : Exn DbCall :=
  let filters := list_filters tableMeta q in
  exn_bind (declare [] (map snd filters)) (fun request =>
  exn_bind (order_by tableMeta q) (fun '(orderCol, orderDir) =>
  exn_bind (parse_limit q) (fun limit =>
  exn_bind (parse_offset q) (fun offset =>
  let whereSql := where_sql (map fst filters) in
  let orderSql := "ORDER BY [" +:+ orderCol +:+ "] " +:+ orderDir in
  let qn := qName (schema tableMeta) (table tableMeta) in
  if (limit <? 0)%Z && (offset =? 0)%Z then
    Ok (Query ("SELECT * FROM " +:+ qn +:+ " " +:+ whereSql +:+ " " +:+ orderSql) request)
  else if (limit <? 0)%Z && (0 <=? offset)%Z then
    exn_bind (input request "offset" Int (Some (number number_to_string offset)))
      (fun request =>
    Ok (Query ("SELECT * FROM " +:+ qn +:+ " " +:+ whereSql +:+ " " +:+ orderSql +:+ " OFFSET @offset ROWS") request))
  else
    exn_bind (input request "offset" Int (Some (number number_to_string offset)))
      (fun request =>
    exn_bind (input request "limit" Int (Some (number number_to_string limit)))
      (fun request =>
    Ok (Query ("SELECT * FROM " +:+ qn +:+ " " +:+ whereSql +:+ " " +:+ orderSql +:+ " OFFSET @offset ROWS FETCH NEXT @limit ROWS ONLY") request))))))).

(** *** Get by key *)

Definition get_statement (tableMeta : TableMeta) (pk : string)
    (params : gmap string value) : Exn DbCall :=
  exn_bind (key_type tableMeta pk) (fun ty =>
  exn_bind (input [] pk ty (js_get params pk)) (fun request =>
  let qn := qName (schema tableMeta) (table tableMeta) in
  Ok (Query ("SELECT * FROM " +:+ qn +:+ " WHERE [" +:+ pk +:+ "] = @" +:+ pk) request))).

(** *** Create *)

(** the columns of the table that have a value in the payload *)
Definition supplied (tableMeta : TableMeta) (body : gmap string value)
    : list Column :=
  filter (fun col => is_Some (js_get body (COLUMN_NAME col))) (columns tableMeta).

Definition outSelect (tableMeta : TableMeta) : string :=
  Js.join ", "
    (map (fun c =>
            if bool_decide (Some (COLUMN_NAME c) = identity tableMeta)
            then "t.[" +:+ COLUMN_NAME c +:+ "] + 0 AS [" +:+ COLUMN_NAME c +:+ "]"
            else "t.[" +:+ COLUMN_NAME c +:+ "]")
         (columns tableMeta)).

(** the statement for a table without an enabled trigger: the inserted
    row comes from the [OUTPUT] clause *)
Definition insert_output (qn : string) (cols vals : list string) : string :=
  "INSERT INTO " +:+ qn +:+ " (" +:+ Js.join "," cols +:+ ") OUTPUT inserted.* VALUES (" +:+ Js.join "," vals +:+ ")".

(** insert, then reselect by the generated identity value *)
Definition insert_reselect_identity (qn : string) (cols vals : list string)
    (idc : string) : string :=
  "
              SET NOCOUNT ON;
              INSERT INTO " +:+ qn +:+ " (" +:+ Js.join "," cols +:+ ")
              VALUES (" +:+ Js.join "," vals +:+ ");
              DECLARE @id numeric(38,0) = SCOPE_IDENTITY();
              SELECT * FROM " +:+ qn +:+ " WHERE [" +:+ idc +:+ "] = @id;
            ".

(** insert, then reselect by the primary key given in the payload *)
Definition insert_reselect_key (qn : string) (cols vals : list string)
    (pk0 : string) : string :=
  "
              SET NOCOUNT ON;
              INSERT INTO " +:+ qn +:+ " (" +:+ Js.join "," cols +:+ ")
              VALUES (" +:+ Js.join "," vals +:+ ");
              SELECT * FROM " +:+ qn +:+ " WHERE [" +:+ pk0 +:+ "] = @" +:+ pk0 +:+ ";
            ".

(** insert with [OUTPUT .. INTO] a staging table, then select from it *)
Definition insert_staging (qn : string) (cols vals : list string)
    (outSelect : string) : string :=
  "
              SET NOCOUNT ON;
              IF OBJECT_ID('tempdb..#out') IS NOT NULL DROP TABLE #out;
              SELECT TOP 0 " +:+ outSelect +:+ " INTO #out FROM " +:+ qn +:+ " AS t WHERE 1 = 0;

              INSERT INTO " +:+ qn +:+ " (" +:+ Js.join "," cols +:+ ")
              OUTPUT inserted.* INTO #out
              VALUES (" +:+ Js.join "," vals +:+ ");

              SELECT * FROM #out;
              DROP TABLE #out;
            ".

Definition create_sql (tableMeta : TableMeta) (body : gmap string value)
    : string :=
  let cols := map (fun col => "[" +:+ COLUMN_NAME col +:+ "]") (supplied tableMeta body) in
  let vals := map (fun col => "@" +:+ COLUMN_NAME col) (supplied tableMeta body) in
  let qn := qName (schema tableMeta) (table tableMeta) in
  if hasTriggers tableMeta then
    if truthy_name (identity tableMeta) then
      insert_reselect_identity qn cols vals (text_of (identity tableMeta))
    else if bool_decide (is_Some (js_get body (text_of (pk0 tableMeta)))) then
      insert_reselect_key qn cols vals (text_of (pk0 tableMeta))
    else
      insert_staging qn cols vals (outSelect tableMeta)
  else
    insert_output qn cols vals.

Definition create_statement (tableMeta : TableMeta) (body : gmap string value)
    : DbCall :=
  Query (create_sql tableMeta body)
        (map (fun col => binding (COLUMN_NAME col) (mapSqlTypeToMssqlType col)
                                 (js_get body (COLUMN_NAME col)))
             (supplied tableMeta body)).

(** *** Update by key *)

(** the columns to set: those of the table, the key apart, that have a
    value in the payload *)
Definition updatable (tableMeta : TableMeta) (pk : string)
    (body : gmap string value) : list Column :=
  filter (fun col => COLUMN_NAME col ≠ pk ∧ is_Some (js_get body (COLUMN_NAME col)))
         (columns tableMeta).

Definition update_sql (tableMeta : TableMeta) (pk : string) (sets : list string)
    : string :=
  let qn := qName (schema tableMeta) (table tableMeta) in
  if hasTriggers tableMeta then
    "
            SET NOCOUNT ON;
            UPDATE " +:+ qn +:+ " SET " +:+ Js.join ", " sets +:+ " WHERE [" +:+ pk +:+ "] = @" +:+ pk +:+ ";
            SELECT * FROM " +:+ qn +:+ " WHERE [" +:+ pk +:+ "] = @" +:+ pk +:+ ";
          "
  else
    "UPDATE " +:+ qn +:+ " SET " +:+ Js.join ", " sets +:+ " OUTPUT inserted.* WHERE [" +:+ pk +:+ "] = @" +:+ pk.

(** *** Delete by key *)

Definition delete_sql (tableMeta : TableMeta) (pk : string) : string :=
  let qn := qName (schema tableMeta) (table tableMeta) in
  if hasTriggers tableMeta then
    let outSelect := outSelect tableMeta in
    "
            SET NOCOUNT ON;
            IF OBJECT_ID('tempdb..#out') IS NOT NULL DROP TABLE #out;
            SELECT TOP 0 " +:+ outSelect +:+ " INTO #out FROM " +:+ qn +:+ " AS t WHERE 1 = 0;

            DELETE FROM " +:+ qn +:+ "
            OUTPUT deleted.* INTO #out
            WHERE [" +:+ pk +:+ "] = @" +:+ pk +:+ ";

            SELECT * FROM #out;
            DROP TABLE #out;
          "
  else
    "DELETE FROM " +:+ qn +:+ " OUTPUT deleted.* WHERE [" +:+ pk +:+ "] = @" +:+ pk.

(** ** Procedures and functions *)

Record Param : Type := {
  PARAM_NAME : string;
  TYPE_NAME : option string;
  MAX_LENGTH : option Z;
  PRECISION : option Z;
  SCALE : option Z;
  IS_OUTPUT : bool
}.

Record ProcMeta : Type := {
  proc_schema : string;
  proc : string;
  proc_params : list Param
}.

Record FnMeta : Type := {
  func_schema : string;
  func : string;
  func_type : string;
  func_params : list Param;
  returnType : option Param
}.

Definition param_binding (body : gmap string value) (p : Param) : Binding :=
  binding (PARAM_NAME p)
        (mapTypeNameToMssql (TYPE_NAME p) (MAX_LENGTH p) (PRECISION p) (SCALE p))
        (js_get body (PARAM_NAME p)).

Definition function_statement (fnMeta : FnMeta) (body : gmap string value)
    : DbCall :=
  let call := func_schema fnMeta +:+ "." +:+ func fnMeta in
  let argsList :=
    Js.join ", " (map (fun p => "@" +:+ PARAM_NAME p) (func_params fnMeta)) in
  let bindings := map (param_binding body) (func_params fnMeta) in
  if String.eqb (func_type fnMeta) "FN" then
    Query ("SELECT " +:+ call +:+ "(" +:+ argsList +:+ ") AS value") bindings
  else
    Query ("SELECT * FROM " +:+ call +:+ "(" +:+ argsList +:+ ")") bindings.

Definition procedure_statement (procMeta : ProcMeta) (body : gmap string value)
    : DbCall :=
  Execute (proc_schema procMeta +:+ "." +:+ proc procMeta)
          (map (param_binding body)
               (filter (fun p => IS_OUTPUT p = false) (proc_params procMeta))).

(** ** Request handlers *)

Section Handlers.

(** the database, the base64 decoder of [Buffer] and [String] on a
    number are not part of the generator *)
Variable pool : DbCall -> Exn QueryResult.
Variable decode_base64 : string -> string.
Variable number_to_string : Z -> string.

Definition Run : Type -> Type := SE (list DbCall).

(** [await request.query(sqlText)] *)
Definition send (call : DbCall) : Run QueryResult :=
  fun log => (pool call, log ++ [call]).

(** [catch (err) { res.status(500).json({ error: err.message }) }] *)
Definition server_error (message : string) : Run Response :=
  ret (error_json 500 message).

Definition not_found : Response := {| status := 404; payload := None |}.

(** [Array.isArray(r.recordsets) && r.recordsets[r.recordsets.length - 1]
    || r.recordset] *)
Definition last_recordset (r : QueryResult) : option (list Row) := last r.

Definition list_handler (tableMeta : TableMeta) (req : Request) : Run Response :=
  try_catch
    (let! call := lift (list_statement number_to_string tableMeta (query req)) in
     let! result := send call in
     ret {| status := 200; payload := rows_json <$> recordset result |})
    server_error.

Definition get_handler (tableMeta : TableMeta) (pk : string) (req : Request)
    : Run Response :=
  try_catch
    (let! call := lift (get_statement tableMeta pk (params req)) in
     let! result := send call in
     match recordset result with
     | None => throw "Cannot read properties of undefined (reading 'length')"
     | Some [] => ret not_found
     | Some (row :: _) => ret (json 200 (VObj row))
     end)
    server_error.

Definition create_handler (tableMeta : TableMeta) (req : Request)
    : Run Response :=
  try_catch
    (let! call := lift (prepare (create_statement tableMeta (body req))) in
     let! r := send call in
     ret (json 201 (match last_recordset r with
                    | Some (row :: _) => VObj row
                    | _ => VObj []
                    end)))
    server_error.

Definition update_handler (tableMeta : TableMeta) (pk : string) (req : Request)
    : Run Response :=
  try_catch
    (let cols := updatable tableMeta pk (body req) in
     let sets :=
       map (fun col => "[" +:+ COLUMN_NAME col +:+ "] = @" +:+ COLUMN_NAME col)
           cols in
     let bindings :=
       map (fun col => binding (COLUMN_NAME col) (mapSqlTypeToMssqlType col)
                               (js_get (body req) (COLUMN_NAME col)))
           cols in
     let! request := lift (declare [] bindings) in
     let! ty := lift (key_type tableMeta pk) in
     let! request := lift (input request pk ty (js_get (params req) pk)) in
     match sets with
     | [] => ret (error_json 400 "No updatable fields provided")
     | _ =>
         let! r := send (Query (update_sql tableMeta pk sets) request) in
         match last_recordset r with
         | Some (row :: _) => ret (json 200 (VObj row))
         | _ => ret not_found
         end
     end)
    server_error.

Definition delete_handler (tableMeta : TableMeta) (pk : string) (req : Request)
    : Run Response :=
  try_catch
    (let! ty := lift (key_type tableMeta pk) in
     let! request := lift (input [] pk ty (js_get (params req) pk)) in
     let! r := send (Query (delete_sql tableMeta pk) request) in
     match last_recordset r with
     | Some (row :: _) => ret (json 200 (VObj row))
     | _ => ret not_found
     end)
    server_error.

Definition function_handler (fnMeta : FnMeta) (req : Request) : Run Response :=
  try_catch
    (let! call := lift (prepare (function_statement fnMeta (body req))) in
     let! r := send call in
     if String.eqb (func_type fnMeta) "FN" then
       ret (json 200 (match recordset r with
                      | Some (row :: _) => VObj row
                      | _ => VObj []
                      end))
     else
       ret (json 200 (rows_json (default [] (recordset r)))))
    server_error.

Definition procedure_handler (procMeta : ProcMeta) (req : Request)
    : Run Response :=
  try_catch
    (let! call := lift (prepare (procedure_statement procMeta (body req))) in
     let! r := send call in
     ret (json 200 (match recordset r with
                    | Some (row :: rows) => rows_json (row :: rows)
                    | _ => VArr (map rows_json r)
                    end)))
    server_error.

Definition parse_rowLimit (body : gmap string value) : Exn Z :=
  exn_bind (parseInt_of (js_get body "rowLimit")) (fun n => Ok (default 1000 n)).

Definition advanced_handler (req : Request) : Run Response :=
  try_catch
    (match js_get (body req) "data" with
     | Some (VStr b64) =>
         if negb (truthy_str b64) then
           ret (error_json 400 "Field 'data' (base64) is required")
         else
           let template := decode_base64 b64 in
           let! sqlText := lift (substituteTemplate template (body req)) in
           if negb (isReadOnly sqlText) then
             ret (error_json 400
                    "Only read-only queries are permitted in advanced mode")
           else
             let! rowLimit := lift (parse_rowLimit (body req)) in
             let finalSql :=
               "SET ROWCOUNT " +:+ number_to_string rowLimit +:+ ";
" +:+ sqlText in
             let! r := send (Query finalSql []) in
             ret (json 200 (rows_json (default [] (recordset r))))
     | _ => ret (error_json 400 "Field 'data' (base64) is required")
     end)
    server_error.

(** a handler run on a request: its response and the statements it
    sent, in order *)
Definition run (h : Request -> Run Response) (req : Request)
    : Exn Response * list DbCall :=
  h req [].

End Handlers.

(** ** Route registrar *)

Inductive Method : Type := GET | POST | PUT | DELETE.

(** A registered handler, with the variables its closure holds. *)
Inductive Handler : Type :=
  | ListRows (endpoint : string) (tableMeta : TableMeta)
  | GetByKey (endpoint : string) (tableMeta : TableMeta) (pk : string)
  | CreateRow (endpoint : string) (tableMeta : TableMeta)
  | UpdateByKey (endpoint : string) (tableMeta : TableMeta) (pk : string)
  | DeleteByKey (endpoint : string) (tableMeta : TableMeta) (pk : string)
  | ExecFunction (endpoint : string) (fnMeta : FnMeta)
  | ExecProcedure (endpoint : string) (procMeta : ProcMeta)
  | RunAdvanced (endpoint : string).

Record Route : Type := {
  method : Method;
  path : string;
  handler : Handler
}.

(** the handler a route runs *)
Definition handle (pool : DbCall -> Exn QueryResult)
    (decode_base64 : string -> string) (number_to_string : Z -> string)
    (h : Handler) : Request -> Run Response :=
  match h with
  | ListRows _ m => list_handler pool number_to_string m
  | GetByKey _ m k => get_handler pool m k
  | CreateRow _ m => create_handler pool m
  | UpdateByKey _ m k => update_handler pool m k
  | DeleteByKey _ m k => delete_handler pool m k
  | ExecFunction _ f => function_handler pool f
  | ExecProcedure _ p => procedure_handler pool p
  | RunAdvanced _ => advanced_handler pool decode_base64 number_to_string
  end.

(** [app.get(path, handler)] and the like *)
Definition register (m : Method) (p : string) (h : Handler)
    : SE (list Route) unit :=
  fun app => (Ok tt, app ++ [{| method := m; path := p; handler := h |}]).

Definition table_kind (tableMeta : TableMeta) : string :=
  if isView tableMeta then "v" else "t".

Definition registerRoutes (tableMeta : TableMeta) (endpoint : string)
    : SE (list Route) unit :=
  let kind := table_kind tableMeta in
  let base := "/" +:+ endpoint +:+ "/" +:+ kind +:+ "/" +:+ table tableMeta in
  let pk := pk0 tableMeta in
  run! register GET base (ListRows endpoint tableMeta) in
  if negb (isView tableMeta) && truthy_name pk then
    let pk := text_of pk in
    run! register GET (base +:+ "/:" +:+ pk) (GetByKey endpoint tableMeta pk) in
    run! register POST base (CreateRow endpoint tableMeta) in
    run! register PUT (base +:+ "/:" +:+ pk) (UpdateByKey endpoint tableMeta pk) in
    register DELETE (base +:+ "/:" +:+ pk) (DeleteByKey endpoint tableMeta pk)
  else ret tt.

Definition registerFunctionRoutes (fnMeta : FnMeta) (endpoint : string)
    : SE (list Route) unit :=
  register POST ("/" +:+ endpoint +:+ "/f/" +:+ func fnMeta)
           (ExecFunction endpoint fnMeta).

Definition registerProcRoutes (procMeta : ProcMeta) (endpoint : string)
    : SE (list Route) unit :=
  register POST ("/" +:+ endpoint +:+ "/p/" +:+ proc procMeta)
           (ExecProcedure endpoint procMeta).

Definition registerAdvancedRoute (endpoint : string) : SE (list Route) unit :=
  register POST ("/" +:+ endpoint +:+ "/a") (RunAdvanced endpoint).

(** ** Schema emitter *)

Record ObjectSchema : Type := {
  properties : gmap string OpenApiType;
  required : list string;
  x_msabon_kind : string;
  x_msabon_isView : option bool;
  x_msabon_hasPk : option bool;
  x_msabon_procName : option string;
  x_msabon_procSchema : option string;
  x_msabon_fType : option string;
  x_msabon_fReturn : option OpenApiType
}.

(** A fragment describes a discovered object, or it is the fixed
    description of the advanced payload (kind [a]). *)
Inductive SchemaFragment : Type :=
  | ObjectFragment (o : ObjectSchema)
  | AdvancedFragment.


Definition column_props (columns : list Column) : gmap string OpenApiType :=
  foldl (fun props c => <[COLUMN_NAME c := toOpenApiType c]> props) ∅ columns.

Definition table_fragment (columns : list Column) (kind : string)
    (isView hasPk : bool) : SchemaFragment :=
  ObjectFragment
    {| properties := column_props columns;
       required :=
         map COLUMN_NAME (filter (fun c => IS_NULLABLE c = "NO") columns);
       x_msabon_kind := kind;
       x_msabon_isView := Some isView;
       x_msabon_hasPk := Some hasPk;
       x_msabon_procName := None;
       x_msabon_procSchema := None;
       x_msabon_fType := None;
       x_msabon_fReturn := None |}.

Definition param_props (params : list Param) : gmap string OpenApiType :=
  foldl (fun props prm =>
           <[PARAM_NAME prm := toOpenApiTypeFromSqlName (TYPE_NAME prm)]> props)
        ∅ params.

Definition procedure_fragment (p_schema p_name : string) (params : list Param)
    : SchemaFragment :=
  ObjectFragment
    {| properties := param_props params;
       required :=
         map PARAM_NAME (filter (fun prm => IS_OUTPUT prm = false) params);
       x_msabon_kind := "p";
       x_msabon_isView := None;
       x_msabon_hasPk := None;
       x_msabon_procName := Some p_name;
       x_msabon_procSchema := Some p_schema;
       x_msabon_fType := None;
       x_msabon_fReturn := None |}.

Definition function_fragment (f_type : string) (params : list Param)
    (ret_type : option Param) : SchemaFragment :=
  ObjectFragment
    {| properties := param_props params;
       required := map PARAM_NAME params;
       x_msabon_kind := "f";
       x_msabon_isView := None;
       x_msabon_hasPk := None;
       x_msabon_procName := None;
       x_msabon_procSchema := None;
       x_msabon_fType := Some f_type;
       x_msabon_fReturn :=
         match ret_type with
         | Some r =>
             if String.eqb f_type "FN"
             then Some (toOpenApiTypeFromSqlName (TYPE_NAME r))
             else None
         | None => None
         end |}.

(** ** Metadata discoverer *)

Record TableRow : Type := {
  TABLE_SCHEMA : string;
  TABLE_NAME : string;
  TABLE_TYPE : string
}.

Record ProcRow : Type := { pr_schema : string; pr_proc : string }.
Record FuncRow : Type := { fr_schema : string; fr_func : string; fr_type : string }.

(** The catalog of the database: the answer to each metadata query,
    given what the query binds.  A query may fail. *)
Record Catalog : Type := {
  (** [INFORMATION_SCHEMA.TABLES]: the bound parameters and the
      OR-combined name clauses *)
  information_schema_tables : list Binding -> list string -> Exn (list TableRow);
  sys_procedures : list Binding -> list string -> Exn (list ProcRow);
  sys_functions : list Binding -> list string -> Exn (list FuncRow);
  (** the queries by schema and object name *)
  information_schema_columns : string -> string -> Exn (list Column);
  primary_key_columns : string -> string -> Exn (list string);
  (** [cnt] of the first row, when there is one *)
  enabled_trigger_count : string -> string -> Exn (option Z);
  (** [COLUMN_NAME] of the first row, when there is one *)
  identity_column_name : string -> string -> Exn (option string);
  procedure_parameters : string -> string -> Exn (list Param);
  function_parameters : string -> string -> Exn (list Param);
  function_return : string -> string -> Exn (option Param)
}.

Definition nat_text (i : nat) : string := NilZero.string_of_uint (Nat.to_uint i).

(** the value bound for a pattern and the comparison of its clause *)
Definition matcher (pat : string) : string * string :=
  match pat with
  | String "^" rest => (rest +:+ "%", " LIKE @")
  | _ =>
      if Js.includes pat "%" || Js.includes pat "_" then (pat, " LIKE @")
      else (pat, " = @")
  end.

(** the turns of the loop of [bindNameMatchers] from the index [i] on *)
Fixpoint bind_from (i : nat) (request : list Binding) (patterns : list string)
    (colExpr tag : string) : Exn (list Binding * list string) :=
  match patterns with
  | [] => Ok (request, [])
  | pat :: r =>
      let key := tag +:+ nat_text i in
      let '(v, comparison) := matcher pat in
      exn_bind (input request key (NVarChar Unsized) (Some (VStr v)))
        (fun request' =>
      exn_bind (bind_from (S i) request' r colExpr tag)
        (fun '(request'', clauses) =>
      Ok (request'', (colExpr +:+ comparison +:+ key) :: clauses)))
  end.

(** Pattern matcher: one parameter declared on the request and one
    clause for each pattern.  The result is the request after the
    declarations and the clauses. *)
Definition bindNameMatchers (request : list Binding) (patterns : list string)
    (colExpr tag : string) : Exn (list Binding * list string) :=
  bind_from O request patterns colExpr tag.

Definition discoverTablesByInclude (cat : Catalog) (patterns : list string)
    : Exn (list TableRow) :=
  match patterns with
  | [] => Ok []
  | _ =>
      exn_bind (input [] "type" (NVarChar Unsized) (Some (VStr "BASE TABLE")))
        (fun request =>
      exn_bind (bindNameMatchers request patterns "TABLE_NAME" "tbl")
        (fun '(request, clauses) =>
      information_schema_tables cat request clauses))
  end.

Definition discoverViewsByInclude (cat : Catalog) (patterns : list string)
    : Exn (list TableRow) :=
  match patterns with
  | [] => Ok []
  | _ =>
      exn_bind (input [] "type" (NVarChar Unsized) (Some (VStr "VIEW")))
        (fun request =>
      exn_bind (bindNameMatchers request patterns "TABLE_NAME" "view")
        (fun '(request, clauses) =>
      information_schema_tables cat request clauses))
  end.

Definition discoverProceduresByInclude (cat : Catalog) (patterns : list string)
    : Exn (list ProcRow) :=
  match patterns with
  | [] => Ok []
  | _ =>
      exn_bind (bindNameMatchers [] patterns "p.name" "proc")
        (fun '(request, clauses) =>
      sys_procedures cat request clauses)
  end.

Definition discoverFunctionsByInclude (cat : Catalog) (patterns : list string)
    : Exn (list FuncRow) :=
  match patterns with
  | [] => Ok []
  | _ =>
      exn_bind (bindNameMatchers [] patterns "o.name" "func")
        (fun '(request, clauses) =>
      sys_functions cat request clauses)
  end.

Definition getColumns (cat : Catalog) := information_schema_columns cat.
Definition getPrimaryKey (cat : Catalog) := primary_key_columns cat.

(** [(res.recordset[0]?.cnt || 0) > 0] *)
Definition hasEnabledTriggers (cat : Catalog) (schema table : string) : Exn bool :=
  exn_bind (enabled_trigger_count cat schema table) (fun cnt =>
  Ok (0 <? or_default cnt 0)%Z).

(** [res.recordset[0]?.COLUMN_NAME || null] *)
Definition getIdentityColumn (cat : Catalog) (schema table : string)
    : Exn (option string) :=
  exn_bind (identity_column_name cat schema table) (fun name =>
  Ok (if truthy_name name then name else None)).

Definition getProcedureParams (cat : Catalog) := procedure_parameters cat.
Definition getFunctionParams (cat : Catalog) := function_parameters cat.
Definition getFunctionReturnType (cat : Catalog) := function_return cat.

(** ** Discovery of an endpoint *)

Record EndpointConfig : Type := {
  cfg_endpoint : option string;
  include_tables : list string;
  include_views : list string;
  include_procedures : list string;
  include_functions : list string;
  cfg_advanced : bool
}.

(** [endpointConfig.endpoint || 'api'] *)
Definition endpoint_name (endpointConfig : EndpointConfig) : string :=
  if truthy_name (cfg_endpoint endpointConfig)
  then text_of (cfg_endpoint endpointConfig) else "api".

Definition schema_key (endpoint name : string) : string :=
  endpoint +:+ "_" +:+ name.

Definition setup_table (cat : Catalog) (endpoint : string)
    (openApiSchemas : gmap string SchemaFragment) (t : TableRow)
    : SE (list Route) (gmap string SchemaFragment) :=
  let schema := TABLE_SCHEMA t in
  let table := TABLE_NAME t in
  let! columns := lift (getColumns cat schema table) in
  let! pk := lift (getPrimaryKey cat schema table) in
  let! hasTriggers := lift (hasEnabledTriggers cat schema table) in
  let! identity := lift (getIdentityColumn cat schema table) in
  let meta := {| schema := schema; table := table; columns := columns;
                 pk := pk; isView := false; hasTriggers := hasTriggers;
                 identity := identity |} in
  run! registerRoutes meta endpoint in
  ret (<[schema_key endpoint table :=
           table_fragment columns "t" false
             (bool_decide (pk ≠ []))]> openApiSchemas).

Definition setup_view (cat : Catalog) (endpoint : string)
    (openApiSchemas : gmap string SchemaFragment) (v : TableRow)
    : SE (list Route) (gmap string SchemaFragment) :=
  let schema := TABLE_SCHEMA v in
  let table := TABLE_NAME v in
  let! columns := lift (getColumns cat schema table) in
  let meta := {| schema := schema; table := table; columns := columns;
                 pk := []; isView := true; hasTriggers := false;
                 identity := None |} in
  run! registerRoutes meta endpoint in
  ret (<[schema_key endpoint table :=
           table_fragment columns "v" true false]> openApiSchemas).

Definition setup_procedure (cat : Catalog) (endpoint : string)
    (openApiSchemas : gmap string SchemaFragment) (p : ProcRow)
    : SE (list Route) (gmap string SchemaFragment) :=
  let! params := lift (getProcedureParams cat (pr_schema p) (pr_proc p)) in
  let meta := {| proc_schema := pr_schema p; proc := pr_proc p;
                 proc_params := params |} in
  run! registerProcRoutes meta endpoint in
  ret (<[schema_key endpoint (pr_proc p) :=
           procedure_fragment (pr_schema p) (pr_proc p) params]> openApiSchemas).

Definition setup_function (cat : Catalog) (endpoint : string)
    (openApiSchemas : gmap string SchemaFragment) (f : FuncRow)
    : SE (list Route) (gmap string SchemaFragment) :=
  let! params := lift (getFunctionParams cat (fr_schema f) (fr_func f)) in
  let! rt := lift (getFunctionReturnType cat (fr_schema f) (fr_func f)) in
  let meta := {| func_schema := fr_schema f; func := fr_func f;
                 func_type := fr_type f; func_params := params;
                 returnType := rt |} in
  run! registerFunctionRoutes meta endpoint in
  ret (<[schema_key endpoint (fr_func f) :=
           function_fragment (fr_type f) params rt]> openApiSchemas).

Definition setup_advanced (endpointConfig : EndpointConfig) (endpoint : string)
    (openApiSchemas : gmap string SchemaFragment)
    : SE (list Route) (gmap string SchemaFragment) :=
  if cfg_advanced endpointConfig then
    run! registerAdvancedRoute endpoint in
    ret (<[schema_key endpoint "advanced" := AdvancedFragment]> openApiSchemas)
  else ret openApiSchemas.

(** The state is [app]; the result is the schema map of the endpoint.
    The routes registered before a failed query stay registered. *)
Definition setupDynamicRoutes (cat : Catalog) (endpointConfig : EndpointConfig)
    : SE (list Route) (gmap string SchemaFragment) :=
  let endpoint := endpoint_name endpointConfig in
  let! tables := lift (discoverTablesByInclude cat (include_tables endpointConfig)) in
  let! s1 := fold_each tables (setup_table cat endpoint) ∅ in
  let! views := lift (discoverViewsByInclude cat (include_views endpointConfig)) in
  let! s2 := fold_each views (setup_view cat endpoint) s1 in
  let! procs :=
    lift (discoverProceduresByInclude cat (include_procedures endpointConfig)) in
  let! s3 := fold_each procs (setup_procedure cat endpoint) s2 in
  let! functions :=
    lift (discoverFunctionsByInclude cat (include_functions endpointConfig)) in
  let! s4 := fold_each functions (setup_function cat endpoint) s3 in
  setup_advanced endpointConfig endpoint s4.

(** ** Routes and fragments of one object *)

(** The endpoint, kind and name a route was registered for. *)
Definition Triple : Type := string * string * string.

Definition triple_endpoint (t : Triple) : string := t.1.1.

Definition route_triple (r : Route) : Triple :=
  match handler r with
  | ListRows e m | GetByKey e m _ | CreateRow e m
  | UpdateByKey e m _ | DeleteByKey e m _ => (e, table_kind m, table m)
  | ExecFunction e f => (e, "f", func f)
  | ExecProcedure e p => (e, "p", proc p)
  | RunAdvanced e => (e, "a", "advanced")
  end.






(** the methods registered at the paths of a table *)
Definition has_write_routes (app : list Route) : Prop :=
  ∃ r, r ∈ app ∧ method r ≠ GET.

(** ** Templates by their placeholders *)

(** the names of the placeholders of a template, in the order in which
    [replace] meets them *)
Fixpoint placeholders_from (skip : nat) (s : string) : list string :=
  match s with
  | EmptyString => []
  | String c r =>
      match skip with
      | S k => placeholders_from k r
      | O =>
          match match_placeholder s with
          | Some (key, n) => key :: placeholders_from (Nat.pred n) r
          | None => placeholders_from O r
          end
      end
  end.

Definition placeholders (template : string) : list string :=
  placeholders_from O template.

Fixpoint all_chars (p : ascii -> bool) (s : string) : bool :=
  match s with
  | EmptyString => true
  | String c r => p c && all_chars p r
  end.

(** A placeholder as it is written: [{{], white space, a name, white
    space, [}}]. *)
Record Hole : Type := {
  before : string;
  name : string;
  after : string
}.

Definition hole_ok (h : Hole) : Prop :=
  all_chars Js.is_space (before h) = true
  ∧ all_chars Js.is_word_char (name h) = true
  ∧ name h ≠ ""
  ∧ all_chars Js.is_space (after h) = true.

Definition hole_text (h : Hole) : string :=
  "{{" +:+ before h +:+ name h +:+ after h +:+ "}}".

(** A template written as literal text and placeholders in turn, with
    a last piece of literal text. *)
Fixpoint template_text (pieces : list (string * Hole)) (last : string) : string :=
  match pieces with
  | [] => last
  | (lit, h) :: r => lit +:+ hole_text h +:+ template_text r last
  end.

Fixpoint filled_text (fill : string -> string) (pieces : list (string * Hole))
    (last : string) : string :=
  match pieces with
  | [] => last
  | (lit, h) :: r => lit +:+ fill (name h) +:+ filled_text fill r last
  end.

(** ** The specification's reading of substitution *)

Module Spec.

(** The text that stands for a value, in the words of the
    specification: a number or a decimal-looking text as it is,
    anything else as a quoted SQL literal with its quotes doubled. *)
Definition literal (v : value) : Exn string :=
  match v with
  | VNum t => Ok t
  | _ =>
      exn_bind (js_string v) (fun text =>
      if Js.is_decimal_text text then Ok text
      else Ok ("'" +:+ Js.double_quotes text +:+ "'"))
  end.

End Spec.

(** *** The amended reading of substitution *)

(** a text of digits *)
Definition digits (s : string) : Prop :=
  s ≠ "" ∧ all_chars Js.is_digit s = true.

(** a plain decimal number: digits, or digits, a point and digits *)
Definition decimal_shape (s : string) : Prop :=
  digits s ∨ ∃ a b, s = a +:+ "." +:+ b ∧ digits a ∧ digits b.

(** [doubled s d]: [d] is [s] with each single quote written twice *)
Inductive doubled : string → string → Prop :=
  | doubled_end : doubled "" ""
  | doubled_quote s d :
      doubled s d → doubled (String "'" s) (String "'" (String "'" d))
  | doubled_other c s d :
      c ≠ "'"%char → doubled s d → doubled (String c s) (String c d).

(** [substituted_as vars key text]: the payload has the property
    [key], and [text] stands for its value: [NULL] for [null], a
    number as it is, a text of decimal shape as it is, any other text
    with its quotes doubled and nothing around it.  The text of a
    value that is no number is what [String] gives for it. *)
Inductive substituted_as (vars : gmap string value) (key : string)
    : string → Prop :=
  | null_as_NULL :
      js_get vars key = Some VNull → substituted_as vars key "NULL"
  | number_as_it_is t :
      js_get vars key = Some (VNum t) → substituted_as vars key t
  | decimal_as_it_is v s :
      js_get vars key = Some v → v ≠ VNull → (∀ t, v ≠ VNum t) →
      js_string v = Ok s → decimal_shape s →
      substituted_as vars key s
  | text_with_quotes_doubled v s d :
      js_get vars key = Some v → v ≠ VNull → (∀ t, v ≠ VNum t) →
      js_string v = Ok s → ¬ decimal_shape s → doubled s d →
      substituted_as vars key d.

(** no placeholder begins at a position of [lit] when [rest] follows
    it: what begins there is not [{{], white space, a name, white
    space and [}}] *)
Definition opens_none (lit rest : string) : Prop :=
  ∀ a b, lit = a +:+ b → b ≠ "" →
    ∀ h r, hole_ok h → b +:+ rest ≠ hole_text h +:+ r.

(** the pieces of a template as the substitution reads it: the
    placeholders are well formed and the literal text between them
    starts none *)
Fixpoint pieces_ok (pieces : list (string * Hole)) (last : string) : Prop :=
  match pieces with
  | [] => opens_none last ""
  | (lit, h) :: r =>
      opens_none lit (hole_text h +:+ template_text r last)
      ∧ hole_ok h ∧ pieces_ok r last
  end.

(** the payload has the property [key] and its value has a text *)
Definition fillable (vars : gmap string value) (key : string) : bool :=
  match js_get vars key with
  | Some v => match js_string v with Ok _ => true | Throw _ => false end
  | None => false
  end.

(** text of ASCII characters, on which the operations of [Js] are
    those of JavaScript *)
Definition ascii_text (s : string) : Prop :=
  all_chars (fun c => (Js.code c <? 128)%N) s = true.

(** names that the driver accepts on one request: none fails its
    test and no two are the same *)
Definition accepted (names : list string) : Prop :=
  NoDup names ∧ Forall (fun name => refused_name name = false) names.

(** ** Instances for evaluation *)

Module Node.

Definition sextet (c : ascii) : option N :=
  if Js.is_upper c then Some (Js.code c - 65)%N
  else if Js.is_lower c then Some (Js.code c - 71)%N
  else if Js.is_digit c then Some (Js.code c + 4)%N
  else if Ascii.eqb c "+" then Some 62%N
  else if Ascii.eqb c "/" then Some 63%N
  else None.

Fixpoint sextets (s : string) : list N :=
  match s with
  | EmptyString => []
  | String c r =>
      match sextet c with
      | Some n => n :: sextets r
      | None => if Ascii.eqb c "=" then [] else sextets r
      end
  end.

Fixpoint octets (l : list N) : string :=
  match l with
  | a :: b :: c :: d :: r =>
      String (ascii_of_N (a * 4 + b / 16))
        (String (ascii_of_N (b mod 16 * 16 + c / 4))
           (String (ascii_of_N (c mod 4 * 64 + d)) (octets r)))
  | [a; b; c] =>
      String (ascii_of_N (a * 4 + b / 16))
        (String (ascii_of_N (b mod 16 * 16 + c / 4)) EmptyString)
  | [a; b] => String (ascii_of_N (a * 4 + b / 16)) EmptyString
  | _ => EmptyString
  end%N.

(** [Buffer.from(b64, 'base64').toString('utf8')] on padded base64 of
    the standard alphabet that encodes ASCII text *)
Definition decode_base64 (b64 : string) : string := octets (sextets b64).

(** [String(n)] for an integer of less than 22 digits *)
Definition number_to_string (n : Z) : string :=
  NilZero.string_of_int (Z.to_int n).

(** a database that answers every statement with one empty row set *)
Definition empty_pool (call : DbCall) : Exn QueryResult := Ok [[]].

End Node.

(** ** Notions used in the proofs *)

(** [s] is empty or starts with a character outside of [p] *)
Definition fails_at_head (p : ascii -> bool) (s : string) : Prop :=
  match s with
  | EmptyString => True
  | String c _ => p c = false
  end.

(** The part of a placeholder after its opening braces, read one
    character at a time: leading white space, the name, trailing white
    space, the two closing braces. *)
Inductive Phase : Type := InBefore | InName | InAfter | Closing | Closed.

Definition step (ph : Phase) (c : ascii) : option Phase :=
  match ph with
  | InBefore =>
      if Js.is_space c then Some InBefore
      else if Js.is_word_char c then Some InName else None
  | InName =>
      if Js.is_word_char c then Some InName
      else if Js.is_space c then Some InAfter
      else if Ascii.eqb c "}" then Some Closing else None
  | InAfter =>
      if Js.is_space c then Some InAfter
      else if Ascii.eqb c "}" then Some Closing else None
  | Closing => if Ascii.eqb c "}" then Some Closed else None
  | Closed => None
  end.

Fixpoint closes (ph : Phase) (m : string) : bool :=
  match m with
  | EmptyString => match ph with Closed => true | _ => false end
  | String c r =>
      match step ph c with
      | Some ph' => closes ph' r
      | None => false
      end
  end.


Definition column_names (tableMeta : TableMeta) : list string :=
  map COLUMN_NAME (columns tableMeta).

(** the statement of a list request up to its pagination clause *)
Definition select_sql (tableMeta : TableMeta) (q : gmap string value)
    (orderCol orderDir : string) : string :=
  "SELECT * FROM " +:+ qName (schema tableMeta) (table tableMeta) +:+ " "
  +:+ where_sql (map fst (list_filters tableMeta q))
  +:+ " ORDER BY [" +:+ orderCol +:+ "] " +:+ orderDir.


(** the routes [registerRoutes] adds when the table has a key *)
Definition key_routes_methods : list Method := [GET; GET; POST; PUT; DELETE].

(** ** Sample objects *)

Module Sample.

Definition column (name type nullable : string) (len : option Z) : Column :=
  {| COLUMN_NAME := name; DATA_TYPE := type; IS_NULLABLE := nullable;
     CHARACTER_MAXIMUM_LENGTH := len |}.

(** a table with a key, an identity column and an enabled trigger *)
Definition products : TableMeta :=
  {| schema := "dbo"; table := "pgm_Products";
     columns := [column "id" "int" "NO" None;
                 column "name" "nvarchar" "YES" (Some 50%Z);
                 column "price" "decimal" "YES" None];
     pk := ["id"]; isView := false; hasTriggers := true;
     identity := Some "id" |}.

Definition request (q b : gmap string value) : Request :=
  {| query := q; params := {[ "id" := VStr "7" ]}; body := b |}.

Definition two_columns : list Column :=
  [column "id" "int" "NO" None; column "name" "nvarchar" "YES" (Some 50%Z)].

(** a catalog with the given tables, views and procedures, no
    function, and the same two columns for every table and view *)
Definition catalog (tables views : list TableRow) (procs : list ProcRow)
    : Catalog :=
  {| information_schema_tables := fun bound _ =>
       match bound with
       | b :: _ =>
           match b_value b with
           | Some (VStr type) =>
               if String.eqb type "BASE TABLE" then Ok tables else Ok views
           | _ => Ok views
           end
       | [] => Ok []
       end;
     sys_procedures := fun _ _ => Ok procs;
     sys_functions := fun _ _ => Ok [];
     information_schema_columns := fun _ _ => Ok two_columns;
     primary_key_columns := fun _ _ => Ok ["id"];
     enabled_trigger_count := fun _ _ => Ok (Some 0%Z);
     identity_column_name := fun _ _ => Ok None;
     procedure_parameters := fun _ _ => Ok [];
     function_parameters := fun _ _ => Ok [];
     function_return := fun _ _ => Ok None |}.

(** a table and a procedure of the same name, in two schemas *)
Definition same_name : Catalog :=
  catalog [{| TABLE_SCHEMA := "dbo"; TABLE_NAME := "Orders";
              TABLE_TYPE := "BASE TABLE" |}]
          []
          [{| pr_schema := "rpt"; pr_proc := "Orders" |}].

Definition orders : TableMeta :=
  {| schema := "dbo"; table := "Orders"; columns := two_columns;
     pk := ["id"]; isView := false; hasTriggers := false; identity := None |}.



(** a view and a procedure of different names, and the advanced
    capability *)
Definition distinct_names : Catalog :=
  catalog []
          [{| TABLE_SCHEMA := "dbo"; TABLE_NAME := "LatestWidgetsView";
              TABLE_TYPE := "VIEW" |}]
          [{| pr_schema := "dbo"; pr_proc := "usp_GetSpecs" |}].

Definition widgets : TableMeta :=
  {| schema := "dbo"; table := "LatestWidgetsView"; columns := two_columns;
     pk := []; isView := true; hasTriggers := false; identity := None |}.

Definition specs_proc : ProcMeta :=
  {| proc_schema := "dbo"; proc := "usp_GetSpecs"; proc_params := [] |}.

Definition distinct_names_config : EndpointConfig :=
  {| cfg_endpoint := Some "api";
     include_tables := []; include_views := ["^Latest"];
     include_procedures := ["usp_%"]; include_functions := [];
     cfg_advanced := true |}.

End Sample.




(** ** Helpers of the generator that no route uses *)

Section Dedupe.

Context {A K : Type} `{EqDecision K}.

(** the loop of [dedupeByKey]: [seen] holds the keys met so far *)
Fixpoint dedupe_loop (keyFn : A -> K) (seen : list K) (arr : list A) : list A :=
  match arr with
  | [] => []
  | x :: r =>
      let k := keyFn x in
      if bool_decide (k ∈ seen) then dedupe_loop keyFn seen r
      else x :: dedupe_loop keyFn (k :: seen) r
  end.

Definition dedupeByKey (arr : list A) (keyFn : A -> K) : list A :=
  dedupe_loop keyFn [] arr.

End Dedupe.

(** ** The path document of the server

    [buildPathsFromComponents] of the server reads the schema map in
    the order of its keys.  An operation of the document is kept by
    its method and its tag. *)

(** [name.split('_')]: the endpoint is the first part, the entity the
    other parts joined again *)
Definition parse_schema_name (name : string) : string * string :=
  let parts := Js.split "_" name in
  (text_of (head parts), Js.join "_" (tail parts)).

(** [sch['x-msabon-kind'] || (sch['x-msabon-isView'] ? 'v' : 't')] *)
Definition document_kind (sch : SchemaFragment) : string :=
  match sch with
  | ObjectFragment o =>
      if truthy_str (x_msabon_kind o) then x_msabon_kind o
      else match x_msabon_isView o with
           | Some true => "v"
           | _ => "t"
           end
  | AdvancedFragment => "a"
  end.

(** [sch['x-msabon-hasPk'] === true] *)
Definition document_hasPk (sch : SchemaFragment) : bool :=
  match sch with
  | ObjectFragment o =>
      match x_msabon_hasPk o with
      | Some true => true
      | _ => false
      end
  | AdvancedFragment => false
  end.

Definition Operations : Type := list (Method * string).

(** the paths one turn of the loop sets, in the order in which it sets
    them *)
Definition entry_paths (name : string) (sch : SchemaFragment)
    : list (string * Operations) :=
  let '(endpoint, entity) := parse_schema_name name in
  let kind := document_kind sch in
  let base := "/" +:+ endpoint +:+ "/" +:+ kind +:+ "/" +:+ entity in
  if String.eqb kind "p" then [(base, [(POST, "Procedures")])]
  else if String.eqb kind "f" then [(base, [(POST, "Functions")])]
  else if String.eqb kind "v" then [(base, [(GET, "Views")])]
  else
    let hasPk := document_hasPk sch in
    [(base, if hasPk then [(GET, "Tables"); (POST, "Tables")]
            else [(GET, "Tables")])]
    ++ (if hasPk
        then [(base +:+ "/{id}",
               [(GET, "Tables"); (PUT, "Tables"); (DELETE, "Tables")])]
        else [])
    ++ (if String.eqb kind "a"
        then [("/" +:+ endpoint +:+ "/a", [(POST, "Advanced")])]
        else []).

Definition buildPathsFromComponents (schemas : list (string * SchemaFragment))
    : gmap string Operations :=
  foldl (fun paths entry =>
           foldl (fun p item => <[item.1 := item.2]> p) paths
                 (entry_paths entry.1 entry.2))
        ∅ schemas.

(** the operations of a list of documented paths *)
Definition documented (paths : list (string * Operations))
    : list (string * Method) :=
  flat_map (fun item => map (fun op => (item.1, op.1)) item.2) paths.

(** the path of a route as the document writes it: the key segment of
    a single-row route is [{id}] *)
Definition openapi_path (r : Route) : string :=
  match handler r with
  | GetByKey e m _ | UpdateByKey e m _ | DeleteByKey e m _ =>
      "/" +:+ e +:+ "/" +:+ table_kind m +:+ "/" +:+ table m +:+ "/{id}"
  | _ => path r
  end.

Definition no_underscore (s : string) : Prop :=
  all_chars (fun c => negb (Ascii.eqb c "_")) s = true.

(** ** Notions for the properties of the handlers *)

(** inside a quoted SQL literal, does the text stay inside: a doubled
    quote is a quote of the text, a single one ends the literal *)
Fixpoint stays_in_literal (s : string) : bool :=
  match s with
  | EmptyString => true
  | String c r =>
      if Ascii.eqb c "'" then
        match r with
        | String c2 r2 => Ascii.eqb c2 "'" && stays_in_literal r2
        | EmptyString => false
        end
      else stays_in_literal r
  end.

(** two payloads give a value to the same properties *)
Definition same_shape (b1 b2 : gmap string value) : Prop :=
  ∀ k, is_Some (js_get b1 k) ↔ is_Some (js_get b2 k).

(** what a route registered by discovery may be, by kind: a view is
    listed only, a procedure, a function and the advanced capability
    are posted to *)
Definition route_fits_kind (r : Route) : Prop :=
  match handler r with
  | ListRows _ m => method r = GET
  | GetByKey _ m _ => method r = GET ∧ isView m = false
  | CreateRow _ m => method r = POST ∧ isView m = false
  | UpdateByKey _ m _ => method r = PUT ∧ isView m = false
  | DeleteByKey _ m _ => method r = DELETE ∧ isView m = false
  | ExecFunction _ _ | ExecProcedure _ _ | RunAdvanced _ => method r = POST
  end.

(** the status codes a handler can answer with *)
Definition possible_statuses (h : Handler) : list Z :=
  match h with
  | ListRows _ _ | ExecFunction _ _ | ExecProcedure _ _ => [200; 500]
  | GetByKey _ _ _ | DeleteByKey _ _ _ => [200; 404; 500]
  | CreateRow _ _ => [201; 500]
  | UpdateByKey _ _ _ => [200; 400; 404; 500]
  | RunAdvanced _ => [200; 400; 500]
  end%Z.

(** the handlers of the routes that take a key or a payload for one
    object of the catalog *)
Definition takes_values (h : Handler) : bool :=
  match h with
  | ListRows _ _ | RunAdvanced _ => false
  | _ => true
  end.

(** the names a list request reads in the query string *)
Definition list_names (tableMeta : TableMeta) : list string :=
  column_names tableMeta ++ ["order"; "limit"; "offset"].

(** the path of a route as its handler's variables give it *)
Definition route_path (r : Route) : string :=
  match handler r with
  | ListRows e m | CreateRow e m =>
      "/" +:+ e +:+ "/" +:+ table_kind m +:+ "/" +:+ table m
  | GetByKey e m k | UpdateByKey e m k | DeleteByKey e m k =>
      "/" +:+ e +:+ "/" +:+ table_kind m +:+ "/" +:+ table m +:+ "/:" +:+ k
  | ExecFunction e f => "/" +:+ e +:+ "/f/" +:+ func f
  | ExecProcedure e p => "/" +:+ e +:+ "/p/" +:+ proc p
  | RunAdvanced e => "/" +:+ e +:+ "/a"
  end.

(** a computation on the routing table that only adds routes at its
    end, and whose outcome does not depend on the routes it finds *)
Definition appends {A : Type} (m : SE (list Route) A) : Prop :=
  ∀ app, m app = ((m []).1, app ++ (m []).2).

(** a computation on the routing table that adds only routes that
    satisfy [P] *)
Definition adds_only {A : Type} (P : Route → Prop) (m : SE (list Route) A)
    : Prop :=
  ∀ app, Forall P app → Forall P (m app).2.

(** the operations the routes serve, with their paths as the document
    writes them *)
Definition served (routes : list Route) : list (string * Method) :=
  map (fun r => (openapi_path r, method r)) routes.

(** ** The listing of the server *)

(** the order of [Array.prototype.sort] on strings: by code units,
    which are the characters of ASCII text *)
Definition comes_before (a b : string) : Prop := String.leb a b = true.

#[global] Instance comes_before_dec : RelDecision comes_before.
Proof. intros a b. unfold comes_before. apply _. Defined.



(** ** What a fragment says *)



(** * Properties *)

(** ** Strings *)

Lemma str_app_nil_l (s : string) : "" +:+ s = s.
Proof. reflexivity. Qed.

Lemma str_app_cons (c : ascii) (a b : string) :
  String c a +:+ b = String c (a +:+ b).
Proof. reflexivity. Qed.

Lemma str_app_nil_r (s : string) : s +:+ "" = s.
Proof. induction s as [|c s IH]; [reflexivity|]. by rewrite str_app_cons, IH. Qed.

Lemma str_app_assoc (a b c : string) : (a +:+ b) +:+ c = a +:+ (b +:+ c).
Proof.
  induction a as [|x a IH]; [reflexivity|].
  by rewrite !str_app_cons, IH.
Qed.

Lemma str_length_app (a b : string) :
  String.length (a +:+ b) = (String.length a + String.length b)%nat.
Proof.
  induction a as [|x a IH]; [reflexivity|].
  rewrite str_app_cons. simpl. by rewrite IH.
Qed.

Ltac by_chars c :=
  destruct c as [[] [] [] [] [] [] [] []]; vm_compute;
  first [reflexivity | discriminate | tauto | congruence].

Lemma word_not_space (c : ascii) :
  Js.is_word_char c = true → Js.is_space c = false.
Proof. by_chars c. Qed.

Lemma space_not_word (c : ascii) :
  Js.is_space c = true → Js.is_word_char c = false.
Proof. by_chars c. Qed.

Lemma toUpperCase_app (a b : string) :
  Js.toUpperCase (a +:+ b) = Js.toUpperCase a +:+ Js.toUpperCase b.
Proof.
  unfold Js.toUpperCase.
  induction a as [|x a IH]; [reflexivity|].
  rewrite str_app_cons. simpl. by rewrite IH.
Qed.

Lemma startsWith_app (tok rest : string) : Js.startsWith (tok +:+ rest) tok = true.
Proof.
  induction tok as [|x tok IH]; [by destruct rest|].
  rewrite str_app_cons. simpl. by rewrite Ascii.eqb_refl, IH.
Qed.

Lemma includes_cons (c : ascii) (s tok : string) :
  Js.includes s tok = true → Js.includes (String c s) tok = true.
Proof. intros H. simpl. rewrite H. apply orb_true_r. Qed.

Lemma includes_app_r (pre s tok : string) :
  Js.includes s tok = true → Js.includes (pre +:+ s) tok = true.
Proof.
  intros H. induction pre as [|c pre IH]; [done|].
  rewrite str_app_cons. by apply includes_cons.
Qed.

Lemma includes_startsWith (s tok : string) :
  Js.startsWith s tok = true → Js.includes s tok = true.
Proof.
  intros H. destruct s; [by destruct tok|].
  change (Js.startsWith (String a s) tok || Js.includes s tok = true).
  by rewrite H.
Qed.

Lemma includes_intro (pre tok post : string) :
  Js.includes (pre +:+ tok +:+ post) tok = true.
Proof. apply includes_app_r, includes_startsWith, startsWith_app. Qed.

Lemma span_spec (p : ascii -> bool) (s a b : string) :
  Js.span p s = (a, b) →
  s = a +:+ b ∧ all_chars p a = true ∧ fails_at_head p b.
Proof.
  revert a b. induction s as [|c s IH]; intros a b H; simpl in H.
  - by simplify_eq.
  - destruct (p c) eqn:Hc.
    + destruct (Js.span p s) as [a' b'] eqn:E. simplify_eq.
      destruct (IH a' b eq_refl) as (-> & Ha & Hb).
      rewrite str_app_cons. simpl. by rewrite Hc, Ha.
    + simplify_eq. by rewrite str_app_nil_l.
Qed.

Lemma span_app (p : ascii -> bool) (a b : string) :
  all_chars p a = true → fails_at_head p b → Js.span p (a +:+ b) = (a, b).
Proof.
  intros Ha Hb. induction a as [|c a IH].
  - rewrite str_app_nil_l. destruct b as [|c b]; [done|].
    simpl in *. by rewrite Hb.
  - simpl in Ha. apply andb_true_iff in Ha as [Hc Ha].
    rewrite str_app_cons. simpl. by rewrite Hc, (IH Ha).
Qed.

(** ** Template substitution *)

Global Arguments match_placeholder : simpl never.

Lemma replace_at (f : string -> Exn string) (c : ascii) (r : string) :
  replace_placeholders f O (String c r)
  = match match_placeholder (String c r) with
    | Some (key, n) =>
        exn_bind (f key) (fun text =>
        exn_bind (replace_placeholders f (Nat.pred n) r) (fun out =>
        Ok (text +:+ out)))
    | None =>
        exn_bind (replace_placeholders f O r) (fun out => Ok (String c out))
    end.
Proof. reflexivity. Qed.

Lemma replace_skip (f : string -> Exn string) (a b : string) :
  replace_placeholders f (String.length a) (a +:+ b) = replace_placeholders f O b.
Proof.
  induction a as [|c a IH]; [reflexivity|].
  rewrite str_app_cons. simpl. apply IH.
Qed.

Lemma all_chars_head (p : ascii -> bool) (s rest : string) :
  all_chars p s = true → s ≠ "" → ∃ c r, s +:+ rest = String c r ∧ p c = true.
Proof.
  destruct s as [|c s]; [done|]. simpl. intros [Hc _]%andb_true_iff _.
  exists c, (s +:+ rest). by rewrite str_app_cons.
Qed.

Lemma match_placeholder_hole (h : Hole) (rest : string) :
  hole_ok h →
  match_placeholder (hole_text h +:+ rest)
  = Some (name h, String.length (hole_text h)).
Proof.
  intros (Hb & Hn & Hne & Ha). unfold hole_text.
  rewrite !str_app_assoc.
  change ("{{" +:+ ?x) with (String "{" (String "{" x)).
  unfold match_placeholder.
  rewrite (span_app Js.is_space (before h)); [|done|].
  2:{ destruct (all_chars_head _ _ (after h +:+ "}}" +:+ rest) Hn Hne) as (c & r & -> & Hc).
      by apply word_not_space. }
  rewrite (span_app Js.is_word_char (name h)); [|done|].
  2:{ destruct (after h) as [|c a] eqn:E; [done|]. rewrite str_app_cons. simpl.
      simpl in Ha. apply andb_true_iff in Ha as [Hc _]. by apply space_not_word. }
  rewrite (span_app Js.is_space (after h)); [|done|done].
  destruct (name h) as [|c n] eqn:E; [done|].
  change ("}}" +:+ rest) with (String "}" (String "}" rest)).
  cbv iota beta. f_equal. f_equal.
  change (String "{" (String "{" ?x)) with ("{{" +:+ x).
  rewrite !str_length_app. simpl. lia.
Qed.

Lemma replace_hole (f : string -> Exn string) (h : Hole) (rest : string) :
  hole_ok h →
  replace_placeholders f O (hole_text h +:+ rest)
  = exn_bind (f (name h)) (fun text =>
    exn_bind (replace_placeholders f O rest) (fun out => Ok (text +:+ out))).
Proof.
  intros Hh.
  pose proof (match_placeholder_hole h rest Hh) as Hm.
  assert (∃ tl, hole_text h = String "{" tl) as [tl Htl] by (by eexists).
  rewrite Htl in *. rewrite str_app_cons in *.
  rewrite replace_at, Hm.
  simpl String.length. simpl Nat.pred. by rewrite replace_skip.
Qed.

Lemma match_placeholder_open (s : string) :
  match_placeholder s = None ∨ ∃ r1, s = String "{" (String "{" r1).
Proof.
  destruct s as [|a [|b s]]; [by left| |].
  - left. destruct a as [[] [] [] [] [] [] [] []]; reflexivity.
  - destruct (ascii_dec a "{") as [->|Ha];
      [destruct (ascii_dec b "{") as [->|Hb]|].
    + right; eauto.
    + left. destruct b as [[] [] [] [] [] [] [] []]; try reflexivity.
      by destruct Hb.
    + left. destruct a as [[] [] [] [] [] [] [] []]; try reflexivity.
      by destruct Ha.
Qed.

(** a match is a well-formed placeholder at the start of the text *)
Lemma match_placeholder_inv (s key : string) (n : nat) :
  match_placeholder s = Some (key, n) →
  ∃ h rest, hole_ok h ∧ name h = key ∧ s = hole_text h +:+ rest
            ∧ n = String.length (hole_text h).
Proof.
  intros H.
  destruct (match_placeholder_open s) as [E|[r1 ->]]; [congruence|].
  unfold match_placeholder in H.
  destruct (Js.span Js.is_space r1) as [ws1 r2] eqn:E1.
  destruct (Js.span Js.is_word_char r2) as [k r3] eqn:E2.
  destruct (Js.span Js.is_space r3) as [ws2 r4] eqn:E3.
  destruct k as [|c k]; [done|].
  destruct r4 as [|b1 r5]; [done|].
  destruct (ascii_dec b1 "}") as [->|Hb1].
  2:{ exfalso. destruct b1 as [[] [] [] [] [] [] [] []]; done. }
  destruct r5 as [|b2 rest]; [done|].
  destruct (ascii_dec b2 "}") as [->|Hb2].
  2:{ exfalso. destruct b2 as [[] [] [] [] [] [] [] []]; done. }
  simplify_eq.
  apply span_spec in E1 as (-> & H1 & _).
  apply span_spec in E2 as (-> & Hk & _).
  apply span_spec in E3 as (-> & H2 & _).
  exists {| before := ws1; name := String c k; after := ws2 |}, rest.
  split; [by repeat split|]. split; [done|]. unfold hole_text. simpl.
  split.
  - change (String "{" (String "{" ?x)) with ("{{" +:+ x).
    by rewrite !str_app_assoc.
  - rewrite !str_length_app. simpl. lia.
Qed.

(** literal text starts no placeholder exactly when no attempt of the
    pattern succeeds inside of it *)
Lemma opens_none_match (lit rest : string) :
  opens_none lit rest
  ↔ ∀ a b, lit = a +:+ b → b ≠ "" → match_placeholder (b +:+ rest) = None.
Proof.
  split.
  - intros H a b Hab Hb.
    destruct (match_placeholder (b +:+ rest)) as [[key n]|] eqn:E; [|done].
    destruct (match_placeholder_inv _ _ _ E) as (h & r & Hh & _ & Hs & _).
    by destruct (H a b Hab Hb h r Hh).
  - intros H a b Hab Hb h r Hh Hs. specialize (H a b Hab Hb).
    rewrite Hs, (match_placeholder_hole h r Hh) in H. done.
Qed.

(** literal text that starts no placeholder is copied *)
Lemma opens_none_tail (c : ascii) (lit rest : string) :
  opens_none (String c lit) rest → opens_none lit rest.
Proof.
  intros H a b -> Hb. apply (H (String c a) b); [by rewrite str_app_cons|done].
Qed.

Lemma replace_plain (f : string -> Exn string) (lit rest : string) :
  opens_none lit rest →
  replace_placeholders f O (lit +:+ rest)
  = exn_bind (replace_placeholders f O rest) (fun out => Ok (lit +:+ out)).
Proof.
  induction lit as [|c lit IH]; intros Hlit.
  - rewrite str_app_nil_l. by destruct (replace_placeholders f O rest).
  - rewrite str_app_cons, replace_at.
    rewrite <- str_app_cons.
    rewrite (proj1 (opens_none_match _ _) Hlit "" (String c lit)) by done.
    rewrite (IH (opens_none_tail _ _ _ Hlit)).
    by destruct (replace_placeholders f O rest).
Qed.

Lemma opens_none_plain (s : string) :
  Js.includes s "{{" = false → opens_none s "".
Proof.
  intros Hs. apply opens_none_match. intros a b -> Hb. rewrite str_app_nil_r.
  destruct (match_placeholder_open b) as [?|[r1 ->]]; [done|].
  assert (Js.includes (a +:+ String "{" (String "{" r1)) "{{" = true)
    by apply (includes_intro a "{{" r1).
  congruence.
Qed.

(** every template is literal text and placeholders in turn *)
Lemma template_pieces (s : string) :
  ∃ pieces last, s = template_text pieces last ∧ pieces_ok pieces last.
Proof.
  remember (String.length s) as n eqn:Hn.
  revert s Hn. induction n as [n IH] using lt_wf_ind. intros s Hn.
  destruct s as [|c r].
  { exists [], "". split; [done|]. intros a b Hab Hb.
    destruct a; [rewrite str_app_nil_l in Hab; by subst b
                |by rewrite str_app_cons in Hab]. }
  assert (Hnone : ∀ lit rest, opens_none lit rest →
            match_placeholder (String c (lit +:+ rest)) = None →
            opens_none (String c lit) rest).
  { intros lit rest Hlit Hc. apply opens_none_match. intros a b Hab Hb.
    destruct a as [|x a].
    - rewrite str_app_nil_l in Hab. subst b. by rewrite str_app_cons.
    - rewrite str_app_cons in Hab. injection Hab as -> Hab.
      by apply (proj1 (opens_none_match _ _) Hlit a b). }
  destruct (match_placeholder (String c r)) as [[key m]|] eqn:Hm.
  - destruct (match_placeholder_inv _ _ _ Hm) as (h & rest & Hh & _ & Hs & _).
    destruct (IH (String.length rest)) with (s := rest)
      as (pieces & last & -> & Hok); [|done|].
    { rewrite Hn, Hs, str_length_app. unfold hole_text.
      rewrite str_length_app. simpl. lia. }
    exists (("", h) :: pieces), last. split.
    + simpl. by rewrite str_app_nil_l.
    + simpl. split; [|done]. intros a b Hab Hb.
      destruct a; [rewrite str_app_nil_l in Hab; by subst b
                  |by rewrite str_app_cons in Hab].
  - destruct (IH (String.length r)) with (s := r)
      as (pieces & last & Hr & Hok); [simpl in Hn; lia|done|].
    destruct pieces as [|[lit h] pieces].
    + simpl in Hr. subst r. exists [], (String c last). split; [done|].
      simpl in *. apply Hnone; [done|]. by rewrite str_app_nil_r.
    + simpl in Hr. subst r. exists ((String c lit, h) :: pieces), last.
      split; [simpl; by rewrite str_app_cons|].
      simpl in *. destruct Hok as (Hlit & Hh & Hok). split; [|done].
      by apply Hnone.
Qed.

Lemma replace_pieces (f : string -> Exn string) (fill : string -> string)
    (pieces : list (string * Hole)) (last : string) :
  pieces_ok pieces last →
  Forall (fun p => f (name p.2) = Ok (fill (name p.2))) pieces →
  replace_placeholders f O (template_text pieces last)
  = Ok (filled_text fill pieces last).
Proof.
  intros Hok Hf. revert Hok.
  induction Hf as [|[lit h] pieces Hh _ IH]; simpl; intros Hok.
  - rewrite <- (str_app_nil_r last) at 1.
    rewrite replace_plain by done. simpl. by rewrite str_app_nil_r.
  - destruct Hok as (Hlit & Hhole & Hok).
    rewrite replace_plain by done.
    rewrite replace_hole by done. simpl in Hh. rewrite Hh. simpl.
    by rewrite (IH Hok).
Qed.

Lemma placeholders_at (c : ascii) (r : string) :
  placeholders_from O (String c r)
  = match match_placeholder (String c r) with
    | Some (key, n) => key :: placeholders_from (Nat.pred n) r
    | None => placeholders_from O r
    end.
Proof. reflexivity. Qed.

(** the placeholders of a template are those of its pieces *)
Lemma placeholders_plain (lit rest : string) :
  opens_none lit rest →
  placeholders_from O (lit +:+ rest) = placeholders_from O rest.
Proof.
  induction lit as [|c lit IH]; intros Hlit; [by rewrite str_app_nil_l|].
  rewrite str_app_cons, placeholders_at, <- str_app_cons.
  rewrite (proj1 (opens_none_match _ _) Hlit "" (String c lit)) by done.
  apply IH. by apply opens_none_tail in Hlit.
Qed.

Lemma placeholders_skip (a b : string) :
  placeholders_from (String.length a) (a +:+ b) = placeholders_from O b.
Proof.
  induction a as [|c a IH]; [reflexivity|].
  rewrite str_app_cons. simpl. apply IH.
Qed.

Lemma placeholders_hole (h : Hole) (rest : string) :
  hole_ok h →
  placeholders_from O (hole_text h +:+ rest)
  = name h :: placeholders_from O rest.
Proof.
  intros Hh.
  pose proof (match_placeholder_hole h rest Hh) as Hm.
  assert (∃ tl, hole_text h = String "{" tl) as [tl Htl] by (by eexists).
  rewrite Htl in *. rewrite str_app_cons in *.
  rewrite placeholders_at, Hm.
  simpl String.length. simpl Nat.pred. by rewrite placeholders_skip.
Qed.

Lemma placeholders_pieces (pieces : list (string * Hole)) (last : string) :
  pieces_ok pieces last →
  placeholders (template_text pieces last) = map (fun p => name p.2) pieces.
Proof.
  unfold placeholders. induction pieces as [|[lit h] pieces IH]; simpl.
  - intros Hlast. rewrite <- (str_app_nil_r last).
    by rewrite placeholders_plain.
  - intros (Hlit & Hh & Hok).
    rewrite placeholders_plain by done.
    rewrite placeholders_hole by done. by rewrite (IH Hok).
Qed.

(** *** The text put for a value *)

Lemma all_chars_app (p : ascii -> bool) (a b : string) :
  all_chars p (a +:+ b) = all_chars p a && all_chars p b.
Proof.
  induction a as [|c a IH]; [done|].
  rewrite str_app_cons. simpl. by rewrite IH, andb_assoc.
Qed.

Lemma all_chars_impl (p q : ascii -> bool) (s : string) :
  (∀ c, p c = true → q c = true) → all_chars p s = true → all_chars q s = true.
Proof.
  intros Hpq. induction s as [|c s IH]; [done|]. simpl.
  intros [Hc Hs]%andb_true_iff. by rewrite (Hpq c Hc), (IH Hs).
Qed.

Lemma decimal_shape_iff (s : string) :
  Js.is_decimal_text s = true ↔ decimal_shape s.
Proof.
  unfold Js.is_decimal_text, decimal_shape, digits. split.
  - destruct (Js.span Js.is_digit s) as [ip r] eqn:E1.
    apply span_spec in E1 as (-> & Hip & _).
    destruct ip as [|d ip]; [done|].
    destruct r as [|c r].
    { intros _. left. by rewrite str_app_nil_r. }
    intros [->%Ascii.eqb_eq H]%andb_true_iff.
    destruct (Js.span Js.is_digit r) as [frac r2] eqn:E2.
    apply span_spec in E2 as (-> & Hfrac & _).
    destruct frac as [|f frac]; [done|]. destruct r2; [|done].
    right. exists (String d ip), (String f frac).
    rewrite str_app_nil_r. by repeat split.
  - intros [[Hne Hd]|(a & b & -> & [Hna Ha] & [Hnb Hb])].
    + rewrite <- (str_app_nil_r s), (span_app Js.is_digit s "") by done.
      by destruct s.
    + rewrite (span_app Js.is_digit a ("." +:+ b)) by done.
      destruct a as [|x a]; [done|].
      change ("." +:+ b) with (String "." b). cbv iota beta.
      rewrite Ascii.eqb_refl. simpl andb.
      rewrite <- (str_app_nil_r b), (span_app Js.is_digit b "") by done.
      by destruct b.
Qed.

Lemma doubled_iff (s d : string) : doubled s d ↔ d = Js.double_quotes s.
Proof.
  split.
  - induction 1 as [|s d _ ->|c s d Hc _ ->]; [done|done|].
    simpl. apply Ascii.eqb_neq in Hc. by rewrite Hc.
  - intros ->. induction s as [|c s IH]; [constructor|]. simpl.
    destruct (Ascii.eqb c "'") eqn:Hc.
    + apply Ascii.eqb_eq in Hc as ->. by constructor.
    + apply Ascii.eqb_neq in Hc. by constructor.
Qed.

Lemma js_in_get (vars : gmap string value) (key : string) :
  js_in vars key = true ↔ is_Some (js_get vars key).
Proof. unfold js_in. apply bool_decide_eq_true. Qed.

(** the callback of the substitution puts for a name what the amended
    reading says, and nothing else *)
Lemma substitute_value_as (vars : gmap string value) (key text : string) :
  substitute_value vars key = Ok text ↔ substituted_as vars key text.
Proof.
  unfold substitute_value. split.
  - destruct (js_in vars key) eqn:Hin; [|done]. simpl.
    destruct (js_get vars key) as [v|] eqn:Hv.
    2:{ apply js_in_get in Hin. rewrite Hv in Hin. by destruct Hin. }
    assert (Hother : (∀ t, v ≠ VNum t) → v ≠ VNull →
              exn_bind (js_string v)
                (fun text => if Js.is_decimal_text text then Ok text
                             else Ok (Js.double_quotes text)) = Ok text →
              substituted_as vars key text).
    { intros Hnum Hnull H. destruct (js_string v) as [s|] eqn:Hs; [|done].
      simpl in H. destruct (Js.is_decimal_text s) eqn:Hd; injection H as <-.
      - apply decimal_as_it_is with v; try done. by apply decimal_shape_iff.
      - apply text_with_quotes_doubled with v s; try done.
        + rewrite <- decimal_shape_iff. congruence.
        + by apply doubled_iff. }
    destruct v; try (by apply Hother).
    + intros [= <-]. by constructor.
    + intros [= <-]. by constructor.
  - intros H. assert (Hin : js_in vars key = true).
    { apply js_in_get. destruct H; by eexists. }
    rewrite Hin. simpl.
    destruct H as [-> | t -> | v s -> Hnull Hnum Hs Hd | v s d -> Hnull Hnum Hs Hd Hdd];
      [done|done| |].
    + apply decimal_shape_iff in Hd.
      destruct v; try (by destruct Hnull); try (by exfalso; eapply Hnum);
        rewrite Hs; simpl; by rewrite Hd.
    + apply doubled_iff in Hdd as ->.
      assert (Js.is_decimal_text s = false) as Hd'.
      { apply not_true_is_false. by rewrite decimal_shape_iff. }
      destruct v; try (by destruct Hnull); try (by exfalso; eapply Hnum);
        rewrite Hs; simpl; by rewrite Hd'.
Qed.

(** [String] throws nothing but the [TypeError] of a conversion *)
Lemma js_string_throws : ∀ (v : value) (e : string),
  js_string v = Throw e → e = cannot_convert.
Proof.
  fix IH 1. intros v e. destruct v as [|b|t|s|items|fields|t]; simpl; try done.
  - by destruct b.
  - match goal with
    | |- match ?els items with _ => _ end = _ → _ =>
        assert (Hels : ∀ l e', els l = Throw e' → e' = cannot_convert)
    end.
    { fix IHl 1. intros [|x l] e'; [done|].
      specialize (IHl l). specialize (IH x).
      simpl.
      destruct (match x with VNull => Ok "" | _ => js_string x end)
        as [sx|ex] eqn:Hx.
      - match goal with
        | |- match ?t with _ => _ end = _ → _ => destruct t as [ss|es]
        end; [done|].
        intros [= <-]. by apply IHl.
      - intros [= <-]. destruct x; try done; by apply IH. }
    match goal with
    | |- match ?t with _ => _ end = _ → _ => destruct t as [ss|es] eqn:Hl
    end; [done|].
    intros [= <-]. by apply (Hels items).
  - destruct (existsb _ fields); [|done]. by intros [= <-].
Qed.

Lemma substitute_value_fillable (vars : gmap string value) (key : string) :
  fillable vars key = true ↔ ∃ text, substitute_value vars key = Ok text.
Proof.
  unfold fillable, substitute_value, js_in.
  destruct (js_get vars key) as [v|] eqn:Hv.
  - rewrite bool_decide_eq_true_2 by (by eexists). simpl.
    destruct (js_string v) as [s|e] eqn:Hs.
    + split; [intros _|done].
      destruct v; try (by eexists); simpl; destruct (Js.is_decimal_text s);
        by eexists.
    + split; [done|]. intros [text H].
      destruct v; try done; simpl in Hs; try done; by destruct b.
  - rewrite bool_decide_eq_false_2 by (by intros [? ?]). simpl.
    split; [done|]. by intros [? ?].
Qed.

Lemma substitute_value_fails (vars : gmap string value) (key : string) :
  fillable vars key = false →
  substitute_value vars key
  = Throw (if js_in vars key then cannot_convert
           else "Missing variable '" +:+ key +:+ "'").
Proof.
  unfold fillable, substitute_value, js_in.
  destruct (js_get vars key) as [v|] eqn:Hv.
  - rewrite bool_decide_eq_true_2 by (by eexists). simpl.
    destruct (js_string v) as [s|e] eqn:Hs; [done|]. intros _.
    apply js_string_throws in Hs as Hs'. subst e.
    destruct v; try done; simpl in Hs; try done; by destruct b.
  - rewrite bool_decide_eq_false_2 by (by intros [? ?]). done.
Qed.

(** *** Success and failure of a substitution *)

Lemma substitute_all (vars : gmap string value) (s : string) (skip : nat) :
  Forall (fun k => fillable vars k = true) (placeholders_from skip s) →
  ∃ out, replace_placeholders (substitute_value vars) skip s = Ok out.
Proof.
  revert skip. induction s as [|c s IH]; intros skip H; [by eexists|].
  destruct skip as [|k].
  - rewrite replace_at. rewrite placeholders_at in H.
    destruct (match_placeholder (String c s)) as [[key n]|].
    + apply Forall_cons in H as [Hk H].
      apply substitute_value_fillable in Hk as [text ->]. simpl.
      destruct (IH _ H) as [out ->]. by eexists.
    + destruct (IH _ H) as [out ->]. by eexists.
  - simpl in *. by apply IH.
Qed.

Lemma substitute_first_failing (vars : gmap string value) (s : string)
    (skip : nat) (pre post : list string) (key : string) :
  placeholders_from skip s = pre ++ key :: post →
  Forall (fun k => fillable vars k = true) pre →
  fillable vars key = false →
  replace_placeholders (substitute_value vars) skip s
  = Throw (if js_in vars key then cannot_convert
           else "Missing variable '" +:+ key +:+ "'").
Proof.
  revert skip pre. induction s as [|c s IH]; intros skip pre Hp Hpre Hkey.
  - by destruct pre.
  - destruct skip as [|n].
    + rewrite replace_at. rewrite placeholders_at in Hp.
      destruct (match_placeholder (String c s)) as [[k m]|].
      * destruct pre as [|p pre].
        -- simpl in Hp. injection Hp as -> Hp.
           by rewrite substitute_value_fails.
        -- simpl in Hp. injection Hp as -> Hp.
           apply Forall_cons in Hpre as [Hp1 Hpre].
           apply substitute_value_fillable in Hp1 as [text ->]. simpl.
           by rewrite (IH _ _ Hp Hpre Hkey).
      * by rewrite (IH _ _ Hp Hpre Hkey).
    + simpl in *. by apply IH with pre.
Qed.

(** the placeholders either can all be filled or have a first one
    that cannot *)
Lemma first_failing (vars : gmap string value) (keys : list string) :
  Forall (fun k => fillable vars k = true) keys
  ∨ ∃ pre key post, keys = pre ++ key :: post
                    ∧ Forall (fun k => fillable vars k = true) pre
                    ∧ fillable vars key = false.
Proof.
  induction keys as [|k keys IH]; [by left|].
  destruct (fillable vars k) eqn:Hk.
  - destruct IH as [IH|(pre & key & post & -> & Hpre & Hkey)].
    + left. by constructor.
    + right. exists (k :: pre), key, post. split; [done|]. split; [|done].
      by constructor.
  - right. exists [], k, keys. by repeat split.
Qed.

(** *** Text without braces comes through *)

Lemma closes_after (ws rest : string) :
  all_chars Js.is_space ws = true → closes InAfter (ws +:+ "}}") = true.
Proof.
  induction ws as [|c ws IH]; [done|]. intros H. simpl in H.
  apply andb_true_iff in H as [Hc Hws]. rewrite str_app_cons. simpl.
  rewrite Hc. by apply IH.
Qed.

Lemma closes_name (key ws : string) :
  all_chars Js.is_word_char key = true → all_chars Js.is_space ws = true →
  closes InName (key +:+ ws +:+ "}}") = true.
Proof.
  intros Hk Hws. induction key as [|c key IH].
  - rewrite str_app_nil_l. destruct ws as [|c ws]; [done|].
    simpl in Hws. apply andb_true_iff in Hws as [Hc Hws].
    rewrite str_app_cons. simpl.
    rewrite (space_not_word c Hc), Hc. by apply (closes_after ws "").
  - simpl in Hk. apply andb_true_iff in Hk as [Hc Hk].
    rewrite str_app_cons. simpl. rewrite Hc. by apply IH.
Qed.

Lemma closes_before (ws1 key ws2 : string) :
  all_chars Js.is_space ws1 = true →
  all_chars Js.is_word_char key = true → key ≠ "" →
  all_chars Js.is_space ws2 = true →
  closes InBefore (ws1 +:+ key +:+ ws2 +:+ "}}") = true.
Proof.
  intros H1 Hk Hne H2. induction ws1 as [|c ws1 IH].
  - rewrite str_app_nil_l. destruct key as [|c key]; [done|].
    simpl in Hk. apply andb_true_iff in Hk as [Hc Hk].
    rewrite str_app_cons. simpl.
    rewrite (word_not_space c Hc), Hc. by apply closes_name.
  - simpl in H1. apply andb_true_iff in H1 as [Hc H1].
    rewrite str_app_cons. simpl. rewrite Hc. by apply IH.
Qed.

(** a match is the two opening braces and a text that closes *)
Lemma match_placeholder_shape (s key : string) (n : nat) :
  match_placeholder s = Some (key, n) →
  ∃ m rest, s = "{{" +:+ m +:+ rest ∧ closes InBefore m = true
            ∧ n = (2 + String.length m)%nat.
Proof.
  intros H.
  destruct (match_placeholder_open s) as [E|[r1 ->]]; [congruence|].
  unfold match_placeholder in H.
  destruct (Js.span Js.is_space r1) as [ws1 r2] eqn:E1.
  destruct (Js.span Js.is_word_char r2) as [k r3] eqn:E2.
  destruct (Js.span Js.is_space r3) as [ws2 r4] eqn:E3.
  destruct k as [|c k]; [done|].
  destruct r4 as [|b1 r5]; [done|].
  destruct (ascii_dec b1 "}") as [->|Hb1].
  2:{ exfalso. destruct b1 as [[] [] [] [] [] [] [] []]; done. }
  destruct r5 as [|b2 rest]; [done|].
  destruct (ascii_dec b2 "}") as [->|Hb2].
  2:{ exfalso. destruct b2 as [[] [] [] [] [] [] [] []]; done. }
  simplify_eq.
  apply span_spec in E1 as (-> & H1 & _).
  apply span_spec in E2 as (-> & Hk & _).
  apply span_spec in E3 as (-> & H2 & _).
  exists (ws1 +:+ String c k +:+ ws2 +:+ "}}"), rest. split; [|split].
  - change (String "{" (String "{" ?x)) with ("{{" +:+ x).
    by rewrite !str_app_assoc.
  - by apply closes_before.
  - rewrite !str_length_app. simpl. lia.
Qed.

Section Survives.

(** a text with no opening brace that no placeholder can run over *)
Variable X : string.
Hypothesis X_plain : all_chars (fun c => negb (Ascii.eqb c "{")) X = true.
Hypothesis X_nonempty : X ≠ "".
Hypothesis X_never_closes :
  ∀ ph m rest post,
    closes ph m = true → m +:+ rest = X +:+ post → m = "".

Lemma closing_text_before (pre m rest post : string) (ph : Phase) :
  closes ph m = true → m +:+ rest = pre +:+ X +:+ post →
  (String.length m ≤ String.length pre)%nat.
Proof.
  revert m ph. induction pre as [|c pre IH]; intros m ph Hc Heq.
  - rewrite str_app_nil_l in Heq.
    by rewrite (X_never_closes _ _ _ _ Hc Heq).
  - destruct m as [|c' m]; [simpl; lia|].
    rewrite !str_app_cons in Heq. injection Heq as -> Heq.
    simpl in Hc. destruct (step ph c) as [ph'|]; [|done].
    specialize (IH _ _ Hc Heq). simpl. lia.
Qed.

Lemma match_before (pre post key : string) (n : nat) :
  match_placeholder (pre +:+ X +:+ post) = Some (key, n) →
  (n ≤ String.length pre)%nat.
Proof.
  intros H.
  destruct (match_placeholder_shape _ _ _ H) as (m & rest & Heq & Hc & ->).
  assert (∃ x X', X = String x X' ∧ x ≠ "{"%char) as (x & X' & EX & Hx).
  { destruct X as [|x X']; [done|]. exists x, X'. split; [done|].
    simpl in X_plain. apply andb_true_iff in X_plain as [Hx _].
    by apply negb_true_iff, Ascii.eqb_neq in Hx. }
  change ("{{" +:+ ?y) with (String "{" (String "{" y)) in Heq.
  destruct pre as [|a [|b pre]].
  - rewrite str_app_nil_l, EX, str_app_cons in Heq. by injection Heq as -> _.
  - rewrite EX, !str_app_cons, str_app_nil_l in Heq.
    by injection Heq as _ -> _.
  - rewrite !str_app_cons in Heq. injection Heq as _ _ Heq.
    symmetry in Heq.
    pose proof (closing_text_before _ _ _ _ _ Hc Heq). simpl. lia.
Qed.

Lemma plain_text_copied (f : string -> Exn string) (rest : string) :
  replace_placeholders f O (X +:+ rest)
  = exn_bind (replace_placeholders f O rest) (fun out => Ok (X +:+ out)).
Proof.
  clear X_nonempty X_never_closes.
  induction X as [|c Y IH].
  - rewrite str_app_nil_l. by destruct (replace_placeholders f O rest).
  - simpl in X_plain. apply andb_true_iff in X_plain as [Hc HY].
    apply negb_true_iff, Ascii.eqb_neq in Hc.
    rewrite str_app_cons, replace_at.
    destruct (match_placeholder_open (String c (Y +:+ rest))) as [->|[r1 E]];
      [|by injection E as -> _].
    rewrite (IH HY). by destruct (replace_placeholders f O rest).
Qed.

Lemma survives (f : string -> Exn string) (pre post out : string) (skip : nat) :
  (skip ≤ String.length pre)%nat →
  replace_placeholders f skip (pre +:+ X +:+ post) = Ok out →
  ∃ a b, out = a +:+ X +:+ b.
Proof.
  revert skip out. induction pre as [|c pre IH]; intros skip out Hs H.
  - assert (skip = O) as -> by (simpl in Hs; lia).
    rewrite str_app_nil_l, plain_text_copied in H.
    destruct (replace_placeholders f O post) as [o|]; [|done].
    simpl in H. injection H as <-. by exists "", o.
  - rewrite str_app_cons in H. destruct skip as [|k].
    + rewrite replace_at in H.
      destruct (match_placeholder _) as [[key n]|] eqn:Hm.
      * rewrite <- str_app_cons in Hm. apply match_before in Hm.
        destruct (f key) as [t|]; [|done]. simpl in H.
        destruct (replace_placeholders f (Nat.pred n) _) as [o|] eqn:Ho; [|done].
        simpl in H. injection H as <-.
        apply IH in Ho as (a & b & ->); [|simpl in Hm; lia].
        exists (t +:+ a), b. by rewrite str_app_assoc.
      * destruct (replace_placeholders f O _) as [o|] eqn:Ho; [|done].
        simpl in H. injection H as <-.
        apply IH in Ho as (a & b & ->); [|lia].
        by exists (String c a), b.
    + simpl in H. apply IH in H; [done|simpl in Hs; lia].
Qed.

End Survives.

Lemma drop_table_never_closes (ph : Phase) (m rest post : string) :
  closes ph m = true → m +:+ rest = "DROP TABLE t" +:+ post → m = "".
Proof.
  intros Hc Heq.
  change ("DROP TABLE t" +:+ post) with
    (String "D" (String "R" (String "O" (String "P" (String " "
      (String "T" ("ABLE t" +:+ post))))))) in Heq.
  destruct m as [|c1 m]; [done|]. exfalso.
  rewrite str_app_cons in Heq. injection Heq as -> Heq.
  destruct m as [|c2 m]; [by destruct ph|].
  rewrite str_app_cons in Heq. injection Heq as -> Heq.
  destruct m as [|c3 m]; [by destruct ph|].
  rewrite str_app_cons in Heq. injection Heq as -> Heq.
  destruct m as [|c4 m]; [by destruct ph|].
  rewrite str_app_cons in Heq. injection Heq as -> Heq.
  destruct m as [|c5 m]; [by destruct ph|].
  rewrite str_app_cons in Heq. injection Heq as -> Heq.
  destruct m as [|c6 m]; [by destruct ph|].
  rewrite str_app_cons in Heq. injection Heq as -> Heq.
  by destruct ph.
Qed.

Lemma drop_table_survives (template sqlText : string) (vars : gmap string value) :
  (∃ pre post, template = pre +:+ "DROP TABLE t" +:+ post) →
  substituteTemplate template vars = Ok sqlText →
  isReadOnly sqlText = false.
Proof.
  intros (pre & post & ->) H.
  apply (survives "DROP TABLE t") in H as (a & b & ->);
    [|done|done|apply drop_table_never_closes|simpl; lia].
  unfold isReadOnly. apply negb_false_iff, existsb_exists.
  exists "DROP ". split; [unfold banned; simpl; tauto|].
  rewrite !toUpperCase_app.
  change (Js.toUpperCase "DROP TABLE t") with ("DROP " +:+ "TABLE T").
  rewrite str_app_assoc. apply includes_intro.
Qed.

(** ** Type mapper *)

(** C1 (defect of the code).  A column whose type name is exactly
    [bigint] is caught by the test for a name that contains [int],
    which comes first in the two column mappers: its bind-type is the
    32-bit [Int] and its schema type is [integer] without the [int64]
    format.  Only the parameter mapper, which excludes [bigint] from
    that test, gives [BigInt]. *)
Theorem bigint_column_is_mapped_as_int
    (name nullable : string) (len maxLength precision scale : option Z) :
  let col := {| COLUMN_NAME := name; DATA_TYPE := "bigint";
                IS_NULLABLE := nullable; CHARACTER_MAXIMUM_LENGTH := len |} in
  mapSqlTypeToMssqlType col = Int
  ∧ toOpenApiType col = {| oa_type := "integer"; oa_format := None |}
  ∧ mapTypeNameToMssql (Some "bigint") maxLength precision scale = BigInt.
Proof. by repeat split. Qed.

(** ** Advanced template executor *)

(** C2, as the specification words it, fails: a text that is not a
    number is put in the statement with its quotes doubled but without
    quotes around it. *)
Lemma substituted_text_is_not_quoted :
  substituteTemplate "SELECT {{x}} AS v" {[ "x" := VStr "O'Brien" ]}
  = Ok "SELECT O''Brien AS v"
  ∧ Spec.literal (VStr "O'Brien") = Ok "'O''Brien'"
  ∧ "SELECT O''Brien AS v" ≠ "SELECT " +:+ "'O''Brien'" +:+ " AS v".
Proof. split; [by vm_compute|]. split; [by vm_compute|]. vm_compute. discriminate. Qed.

(** literal text without a brace starts no placeholder *)
Lemma opens_none_no_brace (lit rest : string) :
  all_chars (fun c => negb (Ascii.eqb c "{")) lit = true → opens_none lit rest.
Proof.
  intros Hlit a b -> Hb h r Hh Heq.
  rewrite all_chars_app in Hlit. apply andb_true_iff in Hlit as [_ Hlit].
  destruct b as [|x b]; [done|]. simpl in Hlit.
  apply andb_true_iff in Hlit as [Hx _].
  unfold hole_text in Heq. rewrite !str_app_assoc in Heq.
  change ("{{" +:+ ?s) with (String "{" (String "{" s)) in Heq.
  rewrite str_app_cons in Heq. injection Heq as -> _. done.
Qed.

(** C2 (amended).  Every template of ASCII text is literal text and
    well-formed placeholders in turn, no placeholder beginning inside
    of the literal text.  When each placeholder names a property of
    the payload whose value has a text, substitution copies the
    literal text and puts for each placeholder: [NULL] for [null], a
    number as it is, a text of decimal shape as it is, and any other
    text with each single quote doubled and no quotes added around
    it.  The template [SELECT {{x}} AS v] with [x = 5] gives
    [SELECT 5 AS v]. *)
Theorem substitution_fills_placeholders (template : string)
    (vars : gmap string value)
    (Hascii : ascii_text template) :
  (∃ pieces last,
     template = template_text pieces last ∧ pieces_ok pieces last)
  ∧ (∀ pieces last fill,
       template = template_text pieces last →
       pieces_ok pieces last →
       Forall (fun p => substituted_as vars (name p.2) (fill (name p.2)))
              pieces →
       substituteTemplate template vars = Ok (filled_text fill pieces last))
  ∧ substituteTemplate "SELECT {{x}} AS v" {[ "x" := VNum "5" ]}
    = Ok "SELECT 5 AS v".
Proof.
  split; [apply template_pieces|]. split; [|by vm_compute].
  intros pieces last fill -> Hok Hfill. unfold substituteTemplate.
  apply replace_pieces; [done|].
  eapply Forall_impl; [exact Hfill|].
  intros p Hp. by apply substitute_value_as.
Qed.

Lemma substitution_fills_placeholders_witness :
  substituteTemplate "SELECT * FROM t WHERE a = '{{ who }}' AND b = {{n}};"
    (<["n" := VStr "12.5"]> {[ "who" := VStr "O'Brien" ]})
  = Ok "SELECT * FROM t WHERE a = 'O''Brien' AND b = 12.5;".
Proof.
  destruct (substitution_fills_placeholders
              "SELECT * FROM t WHERE a = '{{ who }}' AND b = {{n}};"
              (<["n" := VStr "12.5"]> {[ "who" := VStr "O'Brien" ]}))
    as (_ & Hfilled & _).
  - reflexivity.
  - apply (Hfilled
             [("SELECT * FROM t WHERE a = '",
               {| before := " "; name := "who"; after := " " |});
              ("' AND b = ", {| before := ""; name := "n"; after := "" |})]
             ";"
             (fun key => if String.eqb key "who" then "O''Brien" else "12.5")).
    + reflexivity.
    + simpl. split; [by apply opens_none_no_brace|].
      split; [by repeat split|].
      split; [by apply opens_none_no_brace|].
      split; [by repeat split|]. by apply opens_none_no_brace.
    + apply Forall_cons. split; [|apply Forall_cons; split; [|apply Forall_nil_2]];
        simpl.
      * apply (text_with_quotes_doubled _ _ (VStr "O'Brien") "O'Brien");
          [by vm_compute|done|done|done| |by apply doubled_iff].
        intros H%decimal_shape_iff. by vm_compute in H.
      * apply (decimal_as_it_is _ _ (VStr "12.5"));
          [by vm_compute|done|done|done|by apply decimal_shape_iff].
Defined.

(** the amended reading at work: quotes doubled, a decimal text as it
    is *)
Example substitution_in_a_quoted_literal :
  substituteTemplate "SELECT * FROM t WHERE a = '{{ who }}' AND b = {{n}};"
    (<["n" := VStr "12.5"]> {[ "who" := VStr "O'Brien" ]})
  = Ok "SELECT * FROM t WHERE a = 'O''Brien' AND b = 12.5;".
Proof. by vm_compute. Qed.

Section Advanced.

Variable pool : DbCall -> Exn QueryResult.
Variable decode_base64 : string -> string.
Variable number_to_string : Z -> string.

Let advanced := advanced_handler pool decode_base64 number_to_string.

Lemma advanced_substitution_fails (req : Request) (b64 msg : string) :
  js_get (body req) "data" = Some (VStr b64) → b64 ≠ "" →
  substituteTemplate (decode_base64 b64) (body req) = Throw msg →
  run advanced req = (Ok (error_json 500 msg), []).
Proof.
  intros Hd Hne Hs. unfold run, advanced, advanced_handler, try_catch.
  rewrite Hd. unfold truthy_str.
  apply String.eqb_neq in Hne. rewrite Hne. simpl.
  unfold bind, lift. by rewrite Hs.
Qed.

Lemma advanced_guard (req : Request) (b64 sqlText : string) :
  js_get (body req) "data" = Some (VStr b64) → b64 ≠ "" →
  substituteTemplate (decode_base64 b64) (body req) = Ok sqlText →
  isReadOnly sqlText = false →
  run advanced req
  = (Ok (error_json 400 "Only read-only queries are permitted in advanced mode"),
     []).
Proof.
  intros Hd Hne Hs Hro. unfold run, advanced, advanced_handler, try_catch.
  rewrite Hd. unfold truthy_str.
  apply String.eqb_neq in Hne. rewrite Hne. simpl.
  unfold bind, lift. rewrite Hs, Hro. done.
Qed.

(** C3 (amended).  When the payload carries a template of ASCII
    text, made of literal text and placeholders in turn, and every
    placeholder names a property of the payload whose value has a
    text, the substitution gives a text, and this text is compared in
    upper case with the denylist: if it holds a denied word, in any
    case of letters, the request ends with 400 before any statement
    is sent.  In particular a template that contains [DROP TABLE t]
    ends with 400 whatever these values are. *)
Theorem guard_rejects_before_database (req : Request) (b64 : string)
    (pieces : list (string * Hole)) (last : string)
    (Hdata : js_get (body req) "data" = Some (VStr b64))
    (Hnonempty : b64 ≠ "")
    (Hascii : ascii_text (decode_base64 b64))
    (Htemplate : decode_base64 b64 = template_text pieces last)
    (Hpieces : pieces_ok pieces last)
    (Hfilled : Forall (fun p => fillable (body req) (name p.2) = true)
                      pieces) :
  let rejected :=
    (Ok {| status := 400;
           payload :=
             Some (VObj [("error",
                          VStr "Only read-only queries are permitted in advanced mode")]) |},
     @nil DbCall) in
  ∃ sqlText,
    substituteTemplate (decode_base64 b64) (body req) = Ok sqlText
    ∧ ((∃ tok, tok ∈ banned ∧ Js.includes (Js.toUpperCase sqlText) tok = true) →
       run advanced req = rejected)
    ∧ ((∃ tok pre word post,
          tok ∈ banned ∧ sqlText = pre +:+ word +:+ post
          ∧ Js.toUpperCase word = tok) →
       run advanced req = rejected)
    ∧ ((∃ pre post, decode_base64 b64 = pre +:+ "DROP TABLE t" +:+ post) →
       run advanced req = rejected).
Proof.
  intros rejected.
  assert (Hall : Forall (fun k => fillable (body req) k = true)
                        (placeholders (decode_base64 b64))).
  { rewrite Htemplate, (placeholders_pieces _ _ Hpieces).
    apply Forall_fmap. exact Hfilled. }
  destruct (substitute_all _ _ _ Hall) as [sqlText Hs].
  exists sqlText. split; [done|].
  assert (Hguard : (∃ tok, tok ∈ banned
                           ∧ Js.includes (Js.toUpperCase sqlText) tok = true) →
                   run advanced req = rejected).
  { intros (tok & Hin & Hinc). apply advanced_guard with b64 sqlText; try done.
    unfold isReadOnly. apply negb_false_iff, existsb_exists.
    exists tok. split; [by apply list_elem_of_In|done]. }
  split; [done|]. split.
  - intros (tok & pre & word & post & Hin & -> & Hw). apply Hguard.
    exists tok. split; [done|]. rewrite !toUpperCase_app, Hw.
    apply includes_intro.
  - intros Hdrop. apply advanced_guard with b64 sqlText; try done.
    by apply (drop_table_survives _ _ (body req) Hdrop).
Qed.

(** C4 (amended).  When the template, made of literal text and
    placeholders in turn, has a placeholder whose name is neither a
    property of the payload nor one inherited from
    [Object.prototype], the request ends before any statement is
    sent, with 500.  The message is that of the missing name when
    every placeholder before it names a property whose value has a
    text. *)
Theorem missing_name_fails_before_database (req : Request) (b64 key : string)
    (pieces : list (string * Hole)) (last : string)
    (Hdata : js_get (body req) "data" = Some (VStr b64))
    (Hnonempty : b64 ≠ "")
    (Hascii : ascii_text (decode_base64 b64))
    (Htemplate : decode_base64 b64 = template_text pieces last)
    (Hpieces : pieces_ok pieces last)
    (Hkey : key ∈ map (fun p => name p.2) pieces)
    (Habsent : body req !! key = None)
    (Hown : object_prototype key = None) :
  ∃ message,
    run advanced req
    = (Ok {| status := 500;
             payload := Some (VObj [("error", VStr message)]) |}, [])
    ∧ (∀ pre lit h post,
         pieces = pre ++ (lit, h) :: post → name h = key →
         Forall (fun p => fillable (body req) (name p.2) = true) pre →
         message = "Missing variable '" +:+ key +:+ "'").
Proof.
  assert (Hnames : placeholders (decode_base64 b64)
                   = map (fun p => name p.2) pieces)
    by (by rewrite Htemplate, (placeholders_pieces _ _ Hpieces)).
  rewrite <- Hnames in Hkey.
  assert (Hget : js_get (body req) key = None)
    by (unfold js_get; by rewrite Habsent, Hown).
  assert (Hmiss : js_in (body req) key = false).
  { unfold js_in. rewrite Hget. apply bool_decide_eq_false. by intros [? ?]. }
  assert (Hfill : fillable (body req) key = false)
    by (unfold fillable; by rewrite Hget).
  destruct (first_failing (body req) (placeholders (decode_base64 b64)))
    as [Hall|(pre0 & k0 & post0 & Hp0 & Hpre0 & Hk0)].
  { rewrite Forall_forall in Hall. specialize (Hall key Hkey). congruence. }
  pose proof (substitute_first_failing _ _ _ _ _ _ Hp0 Hpre0 Hk0) as Hs0.
  eexists. split.
  - by apply advanced_substitution_fails with b64.
  - intros pre lit h post Hp Hh Hpre.
    assert (Hp' : placeholders_from O (decode_base64 b64)
                  = map (fun p => name p.2) pre
                    ++ key :: map (fun p => name p.2) post).
    { change (placeholders (decode_base64 b64) = map (fun p => name p.2) pre
                ++ key :: map (fun p => name p.2) post).
      rewrite Hnames, Hp, map_app. simpl. by rewrite Hh. }
    assert (Hpre' : Forall (fun k => fillable (body req) k = true)
                           (map (fun p => name p.2) pre))
      by (by apply Forall_fmap).
    pose proof (substitute_first_failing _ _ _ _ _ _ Hp' Hpre' Hfill) as Hs.
    unfold substituteTemplate in Hs0.
    rewrite Hs0 in Hs. rewrite Hmiss in Hs. by injection Hs.
Qed.

End Advanced.

(** C3, as the specification words it, fails: a template that contains
    [DROP TABLE t] and a placeholder whose name the payload lacks ends
    with 500, not with 400. *)
Lemma drop_table_with_missing_name_is_500 :
  let req := {| query := ∅; params := ∅;
                body := {[ "data" := VStr "RFJPUCBUQUJMRSB0IHt7eH19" ]} |} in
  Node.decode_base64 "RFJPUCBUQUJMRSB0IHt7eH19" = "DROP TABLE t {{x}}"
  ∧ run (advanced_handler Node.empty_pool Node.decode_base64 Node.number_to_string)
        req
    = (Ok (error_json 500 "Missing variable 'x'"), [])
  ∧ status (error_json 500 "Missing variable 'x'") ≠ 400%Z.
Proof. by vm_compute. Qed.

Lemma guard_rejects_before_database_witness :
  run (advanced_handler Node.empty_pool Node.decode_base64 Node.number_to_string)
      {| query := ∅; params := ∅;
         body := <["n" := VNum "3"]>
                   {[ "data" := VStr "U0VMRUNUIHt7IG4gfX07IERST1AgVEFCTEUgdA==" ]} |}
  = (Ok {| status := 400;
           payload :=
             Some (VObj [("error",
                          VStr "Only read-only queries are permitted in advanced mode")]) |},
     []).
Proof.
  destruct (guard_rejects_before_database
              Node.empty_pool Node.decode_base64 Node.number_to_string
              {| query := ∅; params := ∅;
                 body := <["n" := VNum "3"]>
                           {[ "data" :=
                                VStr "U0VMRUNUIHt7IG4gfX07IERST1AgVEFCTEUgdA==" ]} |}
              "U0VMRUNUIHt7IG4gfX07IERST1AgVEFCTEUgdA=="
              [("SELECT ", {| before := " "; name := "n"; after := " " |})]
              "; DROP TABLE t")
    as (sqlText & _ & _ & _ & Hdrop).
  - vm_compute. reflexivity.
  - discriminate.
  - vm_compute. reflexivity.
  - vm_compute. reflexivity.
  - simpl. split; [by apply opens_none_no_brace|].
    split; [by repeat split|]. by apply opens_none_no_brace.
  - apply Forall_singleton. vm_compute. reflexivity.
  - apply Hdrop. exists "SELECT {{ n }}; ", "". vm_compute. reflexivity.
Defined.

(** C4, as the specification words it, fails: the missing name is
    reported with 500. *)
Lemma missing_name_is_reported_as_500 :
  let req := {| query := ∅; params := ∅;
                body := {[ "data" := VStr "U0VMRUNUIHt7bWlzc2luZ319" ]} |} in
  Node.decode_base64 "U0VMRUNUIHt7bWlzc2luZ319" = "SELECT {{missing}}"
  ∧ run (advanced_handler Node.empty_pool Node.decode_base64 Node.number_to_string)
        req
    = (Ok (error_json 500 "Missing variable 'missing'"), [])
  ∧ status (error_json 500 "Missing variable 'missing'") ≠ 400%Z.
Proof. by vm_compute. Qed.

Lemma missing_name_fails_before_database_witness :
  run (advanced_handler Node.empty_pool Node.decode_base64
         Node.number_to_string)
      {| query := ∅; params := ∅;
         body := <["a" := VNum "1"]>
                   {[ "data" := VStr "U0VMRUNUIHt7YX19LCB7e21pc3Npbmd9fQ==" ]} |}
  = (Ok {| status := 500;
           payload :=
             Some (VObj [("error", VStr "Missing variable 'missing'")]) |},
     []).
Proof.
  destruct (missing_name_fails_before_database
              Node.empty_pool Node.decode_base64 Node.number_to_string
              {| query := ∅; params := ∅;
                 body := <["a" := VNum "1"]>
                           {[ "data" :=
                                VStr "U0VMRUNUIHt7YX19LCB7e21pc3Npbmd9fQ==" ]} |}
              "U0VMRUNUIHt7YX19LCB7e21pc3Npbmd9fQ==" "missing"
              [("SELECT ", {| before := ""; name := "a"; after := "" |});
               (", ", {| before := ""; name := "missing"; after := "" |})]
              "")
    as (message & Hrun & Hmessage).
  - vm_compute. reflexivity.
  - discriminate.
  - vm_compute. reflexivity.
  - vm_compute. reflexivity.
  - simpl. split; [by apply opens_none_no_brace|].
    split; [by repeat split|].
    split; [by apply opens_none_no_brace|].
    split; [by repeat split|]. by apply opens_none_no_brace.
  - simpl. right. left.
  - vm_compute. reflexivity.
  - vm_compute. reflexivity.
  - rewrite Hrun.
    rewrite (Hmessage
               [("SELECT ", {| before := ""; name := "a"; after := "" |})]
               ", " {| before := ""; name := "missing"; after := "" |} []);
      [reflexivity|reflexivity|reflexivity|].
    apply Forall_singleton. vm_compute. reflexivity.
Defined.

(** A value that has no text ends the request in the same way, before
    the guard and before any statement: an object with an own
    property [toString] cannot be converted. *)
Example value_without_text_is_500 :
  run (advanced_handler Node.empty_pool Node.decode_base64 Node.number_to_string)
      {| query := ∅; params := ∅;
         body := <["x" := VObj [("toString", VNum "1")]]>
                   {[ "data" := VStr "RFJPUCBUQUJMRSB0IHt7eH19" ]} |}
  = (Ok (error_json 500 "Cannot convert object to primitive value"), []).
Proof. by vm_compute. Qed.

(** A name inherited from [Object.prototype] counts as present: the
    placeholder is filled with the text of the inherited function and
    the statement goes to the database. *)
Example inherited_name_reaches_database :
  run (advanced_handler Node.empty_pool Node.decode_base64 Node.number_to_string)
      {| query := ∅; params := ∅;
         body := {[ "data" := VStr "U0VMRUNUIHt7dG9TdHJpbmd9fQ==" ]} |}
  = (Ok (json 200 (VArr [])),
     [Query "SET ROWCOUNT 1000;
SELECT function toString() { [native code] }" []]).
Proof. by vm_compute. Qed.

(** ** The names a request accepts *)

Lemma declared_name_elem (request : list Binding) (name : string) :
  existsb (fun b => String.eqb (b_name b) name) request = true
  ↔ name ∈ map b_name request.
Proof.
  rewrite existsb_exists. split.
  - intros (b & Hin & Heq%String.eqb_eq).
    apply list_elem_of_fmap. exists b. split; [done|by apply list_elem_of_In].
  - intros (b & -> & Hin)%list_elem_of_fmap. exists b.
    split; [by apply list_elem_of_In|apply String.eqb_refl].
Qed.

Lemma input_accepted (request : list Binding) (name : string) (type : SqlType)
    (v : option value) :
  refused_name name = false → name ∉ map b_name request →
  input request name type v = Ok (request ++ [binding name type v]).
Proof.
  intros Hname Hfresh. unfold input. rewrite Hname.
  destruct (existsb _ request) eqn:E; [|done].
  by apply declared_name_elem in E.
Qed.

Lemma input_declared (request : list Binding) (name : string) (type : SqlType)
    (v : option value) :
  refused_name name = false → name ∈ map b_name request →
  input request name type v = Throw (already_declared name).
Proof.
  intros Hname Hin. unfold input. rewrite Hname.
  apply declared_name_elem in Hin. by rewrite Hin.
Qed.

Lemma declare_fresh (bs request : list Binding) :
  Forall (fun name => refused_name name = false) (map b_name bs) →
  NoDup (map b_name request ++ map b_name bs) →
  declare request bs = Ok (request ++ bs).
Proof.
  revert request. induction bs as [|b bs IH]; intros request Hnames Hnd.
  - simpl. by rewrite app_nil_r.
  - simpl in *. apply Forall_cons in Hnames as [Hb Hbs].
    apply NoDup_app in Hnd as (Hr & Hdis & Hnd').
    apply NoDup_cons in Hnd' as [Hb' Hnd'].
    rewrite input_accepted; [|done|].
    2:{ intros Hin. apply (Hdis _ Hin). by left. }
    simpl. rewrite IH; [|done|].
    + destruct b. by rewrite <- app_assoc.
    + rewrite map_app. simpl. rewrite <- app_assoc. simpl.
      apply NoDup_app. split; [done|]. split.
      * intros x Hx Hx'. apply elem_of_cons in Hx' as [->|Hx'].
        -- apply (Hdis _ Hx). by left.
        -- apply (Hdis _ Hx). by right.
      * by apply NoDup_cons.
Qed.

Lemma declare_accepted (bs : list Binding) :
  accepted (map b_name bs) → declare [] bs = Ok bs.
Proof. intros [Hnd Hnames]. by rewrite declare_fresh. Qed.

(** what a request holds after a successful declaration *)
Lemma input_inv (request request' : list Binding) (name : string)
    (type : SqlType) (v : option value) :
  input request name type v = Ok request' →
  request' = request ++ [binding name type v]
  ∧ refused_name name = false ∧ name ∉ map b_name request.
Proof.
  unfold input. destruct (refused_name name); [done|].
  destruct (existsb _ request) eqn:E; [done|]. intros [= <-].
  split; [done|]. split; [done|]. intros Hin.
  apply declared_name_elem in Hin. congruence.
Qed.

Lemma input_names_distinct (request request' : list Binding) (name : string)
    (type : SqlType) (v : option value) :
  input request name type v = Ok request' →
  NoDup (map b_name request) → NoDup (map b_name request').
Proof.
  intros (-> & _ & Hfresh)%input_inv Hnd. rewrite map_app. simpl.
  apply NoDup_app. split; [done|]. split; [|apply NoDup_singleton].
  by intros x Hx ->%list_elem_of_singleton.
Qed.

Lemma declare_inv (bs request request' : list Binding) :
  declare request bs = Ok request' →
  request' = request ++ bs
  ∧ Forall (fun name => refused_name name = false) (map b_name bs)
  ∧ (NoDup (map b_name request) → NoDup (map b_name request')).
Proof.
  revert request. induction bs as [|b bs IH]; intros request.
  - simpl. intros [= <-]. by rewrite app_nil_r.
  - simpl. destruct (input request _ _ _) as [r|] eqn:E; [|done]. simpl.
    intros H. destruct (IH _ H) as (-> & Hok & Hnd).
    pose proof (input_names_distinct _ _ _ _ _ E) as Hnd'.
    apply input_inv in E as (-> & Hb & _).
    split; [destruct b; by rewrite <- app_assoc|].
    split; [by constructor|by auto].
Qed.

(** the declarations succeed exactly for names the driver accepts *)
Lemma declare_outcome (bs : list Binding) :
  (accepted (map b_name bs) ∧ declare [] bs = Ok bs)
  ∨ (¬ accepted (map b_name bs) ∧ ∃ e, declare [] bs = Throw e).
Proof.
  destruct (declare [] bs) as [r|e] eqn:E.
  - left. apply declare_inv in E as (-> & Hok & Hnd). simpl.
    split; [|done]. split; [|done]. apply Hnd. constructor.
  - right. split; [|by eexists]. intros H.
    rewrite (declare_accepted _ H) in E. done.
Qed.


Lemma prepare_inv (call call' : DbCall) :
  prepare call = Ok call' →
  call' = call ∧ NoDup (map b_name (bound call)).
Proof.
  unfold prepare. destruct (declare [] (bound call)) as [r|] eqn:E; [|done].
  apply declare_inv in E as (-> & _ & Hnd). simpl. intros [= <-].
  split; [by destruct call|]. apply Hnd. constructor.
Qed.

Lemma prepare_accepted (call : DbCall) :
  accepted (map b_name (bound call)) → prepare call = Ok call.
Proof.
  intros H. unfold prepare. rewrite (declare_accepted _ H). by destruct call.
Qed.


(** ** List requests *)





Lemma truthy_name_Some (x : option string) :
  truthy_name x = true ↔ ∃ s, x = Some s ∧ s ≠ "".
Proof.
  destruct x as [s|]; simpl; unfold truthy_str.
  - rewrite negb_true_iff, String.eqb_neq. split.
    + intros H. by exists s.
    + by intros (s' & [= <-] & H).
  - split; [done|]. by intros (s & H & _).
Qed.

(** the sort a request asks for, once its [order] has a text *)
Lemma parse_order_text (q : gmap string value) (text : string) :
  js_string_opt (js_get q "order") = Ok text →
  parse_order q
  = Ok (if truthy (js_get q "order") then
          (head (Js.split "." text),
           match Js.split "." text !! 1%nat with
           | Some d => if truthy_str d && String.eqb (Js.toUpperCase d) "DESC"
                       then "DESC" else "ASC"
           | None => "ASC"
           end)
        else (None, "ASC")).
Proof. intros H. unfold parse_order. rewrite H. by destruct (truthy _). Qed.



Lemma order_by_total (tableMeta : TableMeta) (q : gmap string value)
    (text : string) :
  columns tableMeta ≠ [] →
  js_string_opt (js_get q "order") = Ok text →
  ∃ col dir, order_by tableMeta q = Ok (col, dir).
Proof.
  intros Hcols Ht. unfold order_by. rewrite (parse_order_text q text Ht).
  simpl. destruct (if truthy _ then _ else _) as [orderCol orderDir].
  destruct (_ || _); [|by eauto].
  destruct (truthy_name (pk0 tableMeta)); [by eauto|].
  destruct (columns tableMeta); [done|by eauto].
Qed.


Lemma clamp_max (n : Z) : (if (n <? 0)%Z then 0 else n)%Z = Z.max 0 n.
Proof. destruct (Z.ltb_spec n 0); lia. Qed.

Lemma parse_limit_text (q : gmap string value) (text : string) :
  js_string_opt (js_get q "limit") = Ok text →
  parse_limit q = Ok (default (-1)%Z (Js.parseInt_finite text)).
Proof. intros H. unfold parse_limit, parseInt_of. by rewrite H. Qed.

Lemma parse_offset_text (q : gmap string value) (text : string) :
  js_string_opt (js_get q "offset") = Ok text →
  parse_offset q = Ok (Z.max 0 (default 0%Z (Js.parseInt_finite text))).
Proof.
  intros H. unfold parse_offset, parseInt_of. rewrite H. simpl.
  by rewrite clamp_max.
Qed.

(** the names of the filters are names of columns, in their order *)
Lemma list_filters_names (tableMeta : TableMeta) (q : gmap string value) :
  map b_name (map snd (list_filters tableMeta q))
  = filter (fun name => is_Some (js_get q name)) (column_names tableMeta).
Proof.
  unfold list_filters, column_names.
  induction (columns tableMeta) as [|c cs IH]; [done|]. csimpl.
  destruct (js_get q (COLUMN_NAME c)) as [v|] eqn:E.
  - csimpl. rewrite filter_cons_True by (rewrite E; by eexists).
    by rewrite IH.
  - rewrite filter_cons_False by (rewrite E; by intros [? ?]). exact IH.
Qed.

(** the statement of a list request: the select with its filters and
    sort, then the pagination clause chosen by limit and offset *)
Lemma list_statement_shape (number_to_string : Z -> string)
    (tableMeta : TableMeta) (q : gmap string value)
    (col dir limitText offsetText : string) :
  accepted (map b_name (map snd (list_filters tableMeta q))) →
  order_by tableMeta q = Ok (col, dir) →
  js_string_opt (js_get q "limit") = Ok limitText →
  js_string_opt (js_get q "offset") = Ok offsetText →
  let select := select_sql tableMeta q col dir in
  let filters := map snd (list_filters tableMeta q) in
  let limit := default (-1)%Z (Js.parseInt_finite limitText) in
  let offset := Z.max 0 (default 0%Z (Js.parseInt_finite offsetText)) in
  list_statement number_to_string tableMeta q
  = if (limit <? 0)%Z && (offset =? 0)%Z then Ok (Query select filters)
    else if (limit <? 0)%Z then
      exn_bind (input filters "offset" Int
                  (Some (number number_to_string offset)))
        (fun request => Ok (Query (select +:+ " OFFSET @offset ROWS") request))
    else
      exn_bind (input filters "offset" Int
                  (Some (number number_to_string offset)))
        (fun request =>
      exn_bind (input request "limit" Int
                  (Some (number number_to_string limit)))
        (fun request =>
      Ok (Query (select
                 +:+ " OFFSET @offset ROWS FETCH NEXT @limit ROWS ONLY")
                request))).
Proof.
  intros Hnames Ho Hl Hoff. unfold list_statement.
  rewrite (declare_accepted _ Hnames). simpl.
  rewrite Ho. simpl.
  rewrite (parse_limit_text q limitText Hl). simpl.
  rewrite (parse_offset_text q offsetText Hoff). simpl.
  unfold select_sql.
  assert ((0 <=? Z.max 0 (default 0 (Js.parseInt_finite offsetText)))%Z = true)
    as -> by (apply Z.leb_le; lia).
  rewrite andb_true_r.
  repeat case_match; rewrite ?str_app_assoc; reflexivity.
Qed.



Section Tables.

Variable pool : DbCall -> Exn QueryResult.
Variable number_to_string : Z -> string.

(** when the steps before the statement fail, nothing is sent and the
    answer is 500 with the message of the failure *)
Lemma list_handler_fails (tableMeta : TableMeta) (req : Request)
    (message : string) :
  list_statement number_to_string tableMeta (query req) = Throw message →
  run (list_handler pool number_to_string tableMeta) req
  = (Ok (error_json 500 message), []).
Proof.
  intros H. unfold run, list_handler, try_catch, bind, lift, send.
  by rewrite H.
Qed.




End Tables.

(** ** Create and update requests *)

Section Writes.

Variable pool : DbCall -> Exn QueryResult.

Lemma create_handler_sent (tableMeta : TableMeta) (req : Request) :
  (run (create_handler pool tableMeta) req).2
  = match prepare (create_statement tableMeta (body req)) with
    | Ok call => [call]
    | Throw _ => []
    end.
Proof.
  unfold run, create_handler, try_catch, bind, lift, send.
  destruct (prepare _) as [call|e]; simpl; [|done]. by destruct (pool call).
Qed.

Lemma create_statement_names (tableMeta : TableMeta) (body : gmap string value) :
  map b_name (bound (create_statement tableMeta body))
  = map COLUMN_NAME
        (filter (fun col => is_Some (js_get body (COLUMN_NAME col)))
                (columns tableMeta)).
Proof.
  unfold create_statement, supplied. simpl. by rewrite map_map.
Qed.

(** C5.  The statement of a create request has one parameter for
    each column the payload gives a value to, and its text is chosen
    as follows.  Without an enabled trigger it is the insert whose
    [OUTPUT] clause returns the row.  With one, it is, in this order:
    when the table has an identity column, the insert followed by a
    reselect on [SCOPE_IDENTITY()]; when the payload gives the first
    key column, the insert followed by a reselect on that key;
    otherwise the insert with [OUTPUT .. INTO] the staging table
    [#out] followed by a select from it.  The statement is sent when
    the driver accepts the names of these columns as names of
    parameters; otherwise nothing is sent. *)
Theorem create_reselect_strategy (tableMeta : TableMeta) (req : Request) :
  let qn := "[" +:+ schema tableMeta +:+ "].[" +:+ table tableMeta +:+ "]" in
  let given :=
    filter (fun col => is_Some (js_get (body req) (COLUMN_NAME col)))
           (columns tableMeta) in
  let cols := Js.join "," (map (fun col => "[" +:+ COLUMN_NAME col +:+ "]") given) in
  let vals := Js.join "," (map (fun col => "@" +:+ COLUMN_NAME col) given) in
  let staged :=
    Js.join ", "
      (map (fun c =>
              if bool_decide (Some (COLUMN_NAME c) = identity tableMeta)
              then "t.[" +:+ COLUMN_NAME c +:+ "] + 0 AS [" +:+ COLUMN_NAME c +:+ "]"
              else "t.[" +:+ COLUMN_NAME c +:+ "]")
           (columns tableMeta)) in
  let sent := (run (create_handler pool tableMeta) req).2 in
  ∃ sqlText,
    (accepted (map COLUMN_NAME given) →
     sent = [Query sqlText
                   (map (fun col => binding (COLUMN_NAME col)
                                            (mapSqlTypeToMssqlType col)
                                            (js_get (body req) (COLUMN_NAME col)))
                        given)])
    ∧ (¬ accepted (map COLUMN_NAME given) → sent = [])
    ∧ (hasTriggers tableMeta = false →
       sqlText = "INSERT INTO " +:+ qn +:+ " (" +:+ cols +:+ ") OUTPUT inserted.* VALUES (" +:+ vals +:+ ")")
    ∧ (hasTriggers tableMeta = true →
       ∀ idc, identity tableMeta = Some idc → idc ≠ "" →
              sqlText = "
              SET NOCOUNT ON;
              INSERT INTO " +:+ qn +:+ " (" +:+ cols +:+ ")
              VALUES (" +:+ vals +:+ ");
              DECLARE @id numeric(38,0) = SCOPE_IDENTITY();
              SELECT * FROM " +:+ qn +:+ " WHERE [" +:+ idc +:+ "] = @id;
            ")
    ∧ (hasTriggers tableMeta = true →
       identity tableMeta = None ∨ identity tableMeta = Some "" →
       ∀ k v, head (pk tableMeta) = Some k → js_get (body req) k = Some v →
              sqlText = "
              SET NOCOUNT ON;
              INSERT INTO " +:+ qn +:+ " (" +:+ cols +:+ ")
              VALUES (" +:+ vals +:+ ");
              SELECT * FROM " +:+ qn +:+ " WHERE [" +:+ k +:+ "] = @" +:+ k +:+ ";
            ")
    ∧ (hasTriggers tableMeta = true →
       identity tableMeta = None ∨ identity tableMeta = Some "" →
       js_get (body req) (default "undefined" (head (pk tableMeta))) = None →
       sqlText = "
              SET NOCOUNT ON;
              IF OBJECT_ID('tempdb..#out') IS NOT NULL DROP TABLE #out;
              SELECT TOP 0 " +:+ staged +:+ " INTO #out FROM " +:+ qn +:+ " AS t WHERE 1 = 0;

              INSERT INTO " +:+ qn +:+ " (" +:+ cols +:+ ")
              OUTPUT inserted.* INTO #out
              VALUES (" +:+ vals +:+ ");

              SELECT * FROM #out;
              DROP TABLE #out;
            ").
Proof.
  intros qn given cols vals staged sent. subst sent.
  rewrite create_handler_sent.
  pose proof (create_statement_names tableMeta (body req)) as Hnames.
  fold given in Hnames.
  exists (create_sql tableMeta (body req)).
  split; [|split].
  - intros Hacc. rewrite <- Hnames in Hacc.
    by rewrite (prepare_accepted _ Hacc).
  - intros Hacc. rewrite <- Hnames in Hacc. unfold prepare.
    destruct (declare_outcome (bound (create_statement tableMeta (body req))))
      as [[H _]|[_ [e ->]]]; [done|]. reflexivity.
  - unfold create_sql, insert_output, insert_reselect_identity,
      insert_reselect_key, insert_staging, outSelect, supplied, qName, pk0,
      text_of.
    fold given. fold cols vals staged qn.
    assert (Hid : identity tableMeta = None ∨ identity tableMeta = Some "" →
                  truthy_name (identity tableMeta) = false)
      by (by intros [-> | ->]).
    split; [by intros ->|]. split; [|split].
    + intros -> idc Hidc Hne. rewrite Hidc. simpl.
      unfold truthy_str. apply String.eqb_neq in Hne. by rewrite Hne.
    + intros -> Hnone k v Hk Hv. rewrite (Hid Hnone), Hk. simpl. rewrite Hv.
      by rewrite bool_decide_eq_true_2.
    + intros -> Hnone Hv. rewrite (Hid Hnone), Hv.
      rewrite bool_decide_eq_false_2; [done|]. by intros [? ?].
Qed.




End Writes.

(** ** Route registrar *)

Lemma has_write_routes_methods (app : list Route) :
  has_write_routes app ↔ ∃ m, m ∈ map method app ∧ m ≠ GET.
Proof.
  unfold has_write_routes. split.
  - intros (r & Hin & Hm). exists (method r). split; [|done].
    apply list_elem_of_fmap. by exists r.
  - intros (m & Hin & Hm). apply list_elem_of_fmap in Hin as (r & -> & Hin).
    by exists r.
Qed.

(** C9, as the specification words it, fails: a table with a key of
    two columns gets the get, create, update and delete routes. *)
Lemma composite_key_gets_write_routes :
  let tableMeta :=
    {| schema := "dbo"; table := "OrderLine";
       columns := [{| COLUMN_NAME := "order_id"; DATA_TYPE := "int";
                      IS_NULLABLE := "NO"; CHARACTER_MAXIMUM_LENGTH := None |};
                   {| COLUMN_NAME := "line_no"; DATA_TYPE := "int";
                      IS_NULLABLE := "NO"; CHARACTER_MAXIMUM_LENGTH := None |}];
       pk := ["order_id"; "line_no"]; isView := false;
       hasTriggers := false; identity := None |} in
  length (pk tableMeta) = 2%nat
  ∧ map (fun r => (method r, path r)) (registerRoutes tableMeta "api" []).2
    = [(GET, "/api/t/OrderLine"); (GET, "/api/t/OrderLine/:order_id");
       (POST, "/api/t/OrderLine"); (PUT, "/api/t/OrderLine/:order_id");
       (DELETE, "/api/t/OrderLine/:order_id")]
  ∧ has_write_routes (registerRoutes tableMeta "api" []).2.
Proof.
  split; [done|]. split; [by vm_compute|].
  apply has_write_routes_methods. exists POST. split; [|done].
  vm_compute. right. right. left.
Qed.

(** C9 (amended).  The routes registered for a table or view are the
    list route alone, or the list route and the get, create, update
    and delete routes; the latter exactly when the object is a table,
    not a view, with a primary key whose first column has a name, be
    the key of one column or of several. *)
Theorem write_routes_iff_table_with_key (tableMeta : TableMeta)
    (endpoint : string) (app : list Route) :
  ∃ new,
    registerRoutes tableMeta endpoint app = (Ok tt, app ++ new)
    ∧ (has_write_routes new ↔
       isView tableMeta = false
       ∧ ∃ k rest, pk tableMeta = k :: rest ∧ k ≠ "")
    ∧ (has_write_routes new → map method new = key_routes_methods)
    ∧ (¬ has_write_routes new → map method new = [GET])
    ∧ (∀ r, r ∈ new →
            route_triple r = (endpoint, table_kind tableMeta, table tableMeta)).
Proof.
  unfold registerRoutes.
  destruct (negb (isView tableMeta) && truthy_name (pk0 tableMeta)) eqn:E.
  - apply andb_true_iff in E as [Hv Hk]. apply negb_true_iff in Hv.
    apply truthy_name_Some in Hk as (k & Hk & Hne).
    eexists. split.
    { unfold bind, register. simpl. rewrite <- !app_assoc. simpl. reflexivity. }
    match goal with
    | |- context [has_write_routes ?l] => assert (Hw : has_write_routes l)
    end.
    { apply has_write_routes_methods. exists POST. split; [|done].
      simpl. right. right. left. }
    split; [|split; [|split]].
    + split; [|done]. intros _. split; [done|].
      unfold pk0 in Hk. destruct (pk tableMeta) as [|k' rest]; [done|].
      simpl in Hk. simplify_eq. by exists k, rest.
    + done.
    + intros Hn. by destruct Hn.
    + intros r Hr. repeat (apply elem_of_cons in Hr as [->|Hr]; [done|]).
      by apply elem_of_nil in Hr.
  - eexists. split.
    { unfold bind, register, ret. simpl. reflexivity. }
    match goal with
    | |- context [has_write_routes ?l] => assert (Hn : ¬ has_write_routes l)
    end.
    { intros (r & Hr & Hm). apply list_elem_of_singleton in Hr as ->. done. }
    split; [|split; [|split]].
    + split; [done|]. intros (Hv & k & rest & Hk & Hne). exfalso.
      rewrite Hv in E. simpl in E.
      unfold pk0 in E. rewrite Hk in E. simpl in E.
      unfold truthy_str in E. apply String.eqb_neq in Hne. by rewrite Hne in E.
    + done.
    + done.
    + intros r Hr. by apply list_elem_of_singleton in Hr as ->.
Qed.

(** ** Instances of the theorems on the sample table *)

Lemma create_reselect_strategy_witness :
  (run (create_handler Node.empty_pool Sample.products)
       (Sample.request ∅ {[ "name" := VStr "x" ]})).2
  = [Query "
              SET NOCOUNT ON;
              INSERT INTO [dbo].[pgm_Products] ([name])
              VALUES (@name);
              DECLARE @id numeric(38,0) = SCOPE_IDENTITY();
              SELECT * FROM [dbo].[pgm_Products] WHERE [id] = @id;
            "
           [binding "name" (NVarChar (Len 50)) (Some (VStr "x"))]].
Proof.
  destruct (create_reselect_strategy Node.empty_pool Sample.products
              (Sample.request ∅ {[ "name" := VStr "x" ]}))
    as (sqlText & Hsent & _ & _ & Hidentity & _).
  rewrite Hsent, (Hidentity eq_refl "id" eq_refl); [|discriminate|].
  - vm_compute. reflexivity.
  - match goal with
    | |- accepted ?l => assert (l = ["name"]) as -> by (vm_compute; reflexivity)
    end.
    split; [apply NoDup_singleton|]. apply Forall_singleton. reflexivity.
Defined.

(** a column whose name has a space: the driver refuses the name and
    nothing is sent *)
Example refused_column_name_is_500 :
  run (create_handler Node.empty_pool
         {| schema := "dbo"; table := "People";
            columns := [Sample.column "id" "int" "NO" None;
                        Sample.column "first name" "nvarchar" "YES" (Some 50%Z)];
            pk := ["id"]; isView := false; hasTriggers := false;
            identity := None |})
      (Sample.request ∅ {[ "first name" := VStr "Ada" ]})
  = (Ok (error_json 500 "SQL injection warning for param 'first name'"), []).
Proof. by vm_compute. Qed.



(** the statement of this request as it is sent *)
Example order_of_a_dotted_parameter :
  (run (list_handler Node.empty_pool Node.number_to_string Sample.products)
       (Sample.request (<["order" := VStr "name.desc.x"]>
                          {[ "price" := VStr "3" ]}) ∅)).2
  = [Query "SELECT * FROM [dbo].[pgm_Products] WHERE [price] = @price ORDER BY [name] DESC"
           [binding "price" (Decimal 18 4) (Some (VStr "3"))]].
Proof. by vm_compute. Qed.


(** a key that matches no row: 404 and no content *)
Example update_of_a_missing_row :
  run (update_handler Node.empty_pool Sample.products "id")
      (Sample.request ∅ {[ "name" := VStr "red" ]})
  = (Ok {| status := 404; payload := None |},
     [Query "
            SET NOCOUNT ON;
            UPDATE [dbo].[pgm_Products] SET [name] = @name WHERE [id] = @id;
            SELECT * FROM [dbo].[pgm_Products] WHERE [id] = @id;
          "
            [binding "name" (NVarChar (Len 50)) (Some (VStr "red"));
             binding "id" Int (Some (VStr "7"))]]).
Proof. by vm_compute. Qed.

(** ** Discovery: routes and schema fragments *)





Section Discovery.

Variable cat : Catalog.
Variable endpoint : string.







End Discovery.






(** discovery of the sample catalog with a view, a procedure and the
    advanced capability *)
Lemma distinct_names_run :
  setupDynamicRoutes Sample.distinct_names Sample.distinct_names_config []
  = (Ok (<["api_advanced" := AdvancedFragment]>
           (<["api_usp_GetSpecs" := procedure_fragment "dbo" "usp_GetSpecs" []]>
              (<["api_LatestWidgetsView" :=
                   table_fragment Sample.two_columns "v" true false]> ∅))),
     [] ++ (registerRoutes Sample.widgets "api" []).2
     ++ (registerProcRoutes Sample.specs_proc "api" []).2
     ++ (registerAdvancedRoute "api" []).2).
Proof. reflexivity. Qed.


(** * Further properties of the generator *)

(** ** Type mapper *)

Lemma bigint_includes_int (t : string) :
  String.eqb t "bigint" = true → Js.includes t "int" = true.
Proof. by intros ->%String.eqb_eq. Qed.

(** X1.  The two column mappers and the schema mapper by name never
    give the 64-bit bind-type nor the [int64] format, whatever the
    type name: their branch for [bigint] cannot be reached. *)
Theorem column_mappers_never_give_bigint (col : Column) (typeName : option string) :
  mapSqlTypeToMssqlType col ≠ BigInt
  ∧ oa_format (toOpenApiType col) ≠ Some "int64"
  ∧ oa_format (toOpenApiTypeFromSqlName typeName) ≠ Some "int64".
Proof.
  unfold mapSqlTypeToMssqlType, toOpenApiType, toOpenApiTypeFromSqlName.
  repeat split;
    repeat (case_match; try discriminate);
    match goal with
    | H : String.eqb _ "bigint" = true |- _ =>
        apply bigint_includes_int in H; congruence
    end.
Qed.

(** X2.  The parameter mapper gives [BigInt] for the name [bigint], in
    any case of letters, and for no other name. *)
Theorem parameter_mapper_bigint_iff (typeName : option string)
    (maxLength precision scale : option Z) :
  mapTypeNameToMssql typeName maxLength precision scale = BigInt
  ↔ Js.toLowerCase (default "" typeName) = "bigint".
Proof.
  unfold mapTypeNameToMssql. set (t := Js.toLowerCase (default "" typeName)).
  split.
  - repeat (case_match; try discriminate). intros _.
    by apply String.eqb_eq.
  - intros ->. reflexivity.
Qed.

(** X3.  On every type name but [bigint] the parameter mapper, given
    the declared length of the column and no precision or scale, gives
    the bind-type the column mapper gives. *)
Theorem parameter_mapper_agrees_with_column_mapper (col : Column)
    (Hname : Js.toLowerCase (DATA_TYPE col) ≠ "bigint") :
  mapTypeNameToMssql (Some (DATA_TYPE col)) (CHARACTER_MAXIMUM_LENGTH col)
                     None None
  = mapSqlTypeToMssqlType col.
Proof.
  unfold mapTypeNameToMssql, mapSqlTypeToMssqlType. simpl default.
  apply String.eqb_neq in Hname. rewrite Hname. simpl negb.
  rewrite andb_true_r.
  repeat (case_match; try reflexivity; try congruence).
Qed.

Lemma parameter_mapper_agrees_with_column_mapper_witness :
  mapTypeNameToMssql (Some "NVarChar") (Some 40%Z) None None
  = mapSqlTypeToMssqlType (Sample.column "title" "NVarChar" "YES" (Some 40%Z)).
Proof.
  apply (parameter_mapper_agrees_with_column_mapper
           (Sample.column "title" "NVarChar" "YES" (Some 40%Z))).
  vm_compute. discriminate.
Defined.

(** X4.  On every type name but [uniqueidentifier] the schema mapper by
    name gives the schema type the column schema mapper gives; on
    [uniqueidentifier] the former gives the [uuid] format and the
    latter a plain string. *)
Theorem schema_mappers_agree (col : Column) :
  (Js.toLowerCase (DATA_TYPE col) ≠ "uniqueidentifier" →
   toOpenApiTypeFromSqlName (Some (DATA_TYPE col)) = toOpenApiType col)
  ∧ (Js.toLowerCase (DATA_TYPE col) = "uniqueidentifier" →
     toOpenApiTypeFromSqlName (Some (DATA_TYPE col))
     = {| oa_type := "string"; oa_format := Some "uuid" |}
     ∧ toOpenApiType col = {| oa_type := "string"; oa_format := None |}).
Proof.
  unfold toOpenApiTypeFromSqlName, toOpenApiType. simpl default. split.
  - intros H. apply String.eqb_neq in H. rewrite H.
    repeat (case_match; try reflexivity).
  - intros ->. by split.
Qed.

(** ** [dedupeByKey] *)

Section DedupeFacts.

Context {A K : Type} `{EqDecision K}.
Variable keyFn : A -> K.

Lemma dedupe_loop_spec (seen : list K) (arr : list A) :
  let out := dedupe_loop keyFn seen arr in
  (∀ x, x ∈ out → keyFn x ∉ seen)
  ∧ NoDup (map keyFn out)
  ∧ (∀ x, x ∈ arr → keyFn x ∉ seen → keyFn x ∈ map keyFn out)
  ∧ out `sublist_of` arr.
Proof.
  revert seen. induction arr as [|y r IH]; intros seen; simpl.
  - repeat split; [by intros x ?%elem_of_nil|constructor|by intros x ?%elem_of_nil|done].
  - case_bool_decide as Hy.
    + destruct (IH seen) as (H1 & H2 & H3 & H4). repeat split; [done..| |].
      * intros x [->|Hx]%elem_of_cons Hn; [done|by apply H3].
      * by apply sublist_cons.
    + destruct (IH (keyFn y :: seen)) as (H1 & H2 & H3 & H4). repeat split.
      * intros x [->|Hx]%elem_of_cons; [done|].
        intros Hs. apply (H1 x Hx). by right.
      * simpl. constructor; [|done].
        intros (x & Hk & Hx)%list_elem_of_fmap. apply (H1 x Hx).
        rewrite <- Hk. left.
      * intros x [->|Hx]%elem_of_cons Hn; simpl; [left|].
        destruct (decide (keyFn x = keyFn y)) as [->|Hne]; [left|].
        right. apply H3; [done|]. by intros [?|?]%elem_of_cons.
      * by apply sublist_skip.
Qed.

(** X5.  [dedupeByKey] keeps the order of the array, leaves no two
    elements with the same key, and loses no key. *)
Theorem dedupeByKey_distinct_keys (arr : list A) :
  NoDup (map keyFn (dedupeByKey arr keyFn))
  ∧ dedupeByKey arr keyFn `sublist_of` arr
  ∧ ∀ k, k ∈ map keyFn (dedupeByKey arr keyFn) ↔ k ∈ map keyFn arr.
Proof.
  destruct (dedupe_loop_spec [] arr) as (_ & Hnd & Hall & Hsub).
  split; [done|]. split; [done|]. intros k. split.
  - intros (x & -> & Hx)%list_elem_of_fmap. apply list_elem_of_fmap.
    exists x. split; [done|]. by eapply elem_of_sublist.
  - intros (x & -> & Hx)%list_elem_of_fmap. apply Hall; [done|].
    by intros ?%elem_of_nil.
Qed.

Lemma dedupe_loop_first (seen : list K) (arr : list A) (x : A) :
  x ∈ dedupe_loop keyFn seen arr
  ↔ (∃ pre post, arr = pre ++ x :: post
                 ∧ (keyFn x ∉ seen) ∧ (keyFn x ∉ map keyFn pre)).
Proof.
  revert seen. induction arr as [|y r IH]; intros seen; simpl.
  - split; [by intros ?%elem_of_nil|]. by intros ([|??] & ? & ? & _).
  - case_bool_decide as Hy.
    + rewrite IH. split.
      * intros (pre & post & -> & Hs & Hp). exists (y :: pre), post.
        split; [done|]. split; [done|]. simpl.
        intros [Heq|?]%elem_of_cons; [|done]. by rewrite Heq in Hs.
      * intros ([|y' pre] & post & Heq & Hs & Hp); simplify_eq/=; [done|].
        exists pre, post. split; [done|]. split; [done|].
        intros ?. apply Hp. by right.
    + rewrite elem_of_cons, IH. split.
      * intros [->|(pre & post & -> & Hs & Hp)].
        -- exists [], r. split; [done|]. split; [done|]. by intros ?%elem_of_nil.
        -- exists (y :: pre), post. split; [done|].
           split; [intros ?; apply Hs; by right|]. simpl.
           intros [Heq|?]%elem_of_cons; [|done]. apply Hs. rewrite Heq. left.
      * intros ([|y' pre] & post & Heq & Hs & Hp); simplify_eq/=; [by left|].
        right. exists pre, post. split; [done|]. split.
        -- intros [Heq|?]%elem_of_cons; [|done]. apply Hp. rewrite Heq. left.
        -- intros ?. apply Hp. by right.
Qed.

Lemma dedupe_loop_fixed (seen : list K) (arr : list A) :
  NoDup (map keyFn arr) → (∀ x, x ∈ arr → keyFn x ∉ seen) →
  dedupe_loop keyFn seen arr = arr.
Proof.
  revert seen. induction arr as [|y r IH]; intros seen Hnd Hs; [done|].
  simpl in *. apply NoDup_cons in Hnd as [Hy Hnd].
  rewrite bool_decide_eq_false_2 by (apply Hs; left). f_equal.
  apply IH; [done|]. intros x Hx [Heq|Hin]%elem_of_cons.
  - apply Hy. rewrite <- Heq. apply list_elem_of_fmap. by exists x.
  - apply (Hs x); [by right|done].
Qed.

(** X6.  The element [dedupeByKey] keeps for a key is the first one of
    the array with that key: an element is kept exactly when no
    element before it has its key.  An array whose keys are distinct
    comes back unchanged, so deduplicating twice changes nothing
    more. *)
Theorem dedupeByKey_keeps_first (arr : list A) :
  (∀ x, x ∈ dedupeByKey arr keyFn
        ↔ (∃ pre post, arr = pre ++ x :: post ∧ keyFn x ∉ map keyFn pre))
  ∧ (NoDup (map keyFn arr) → dedupeByKey arr keyFn = arr)
  ∧ dedupeByKey (dedupeByKey arr keyFn) keyFn = dedupeByKey arr keyFn.
Proof.
  split; [|split].
  - intros x. unfold dedupeByKey. rewrite dedupe_loop_first.
    split; intros (pre & post & ? & ?); exists pre, post.
    + tauto.
    + split; [tauto|]. split; [by intros ?%elem_of_nil|tauto].
  - intros Hnd. apply dedupe_loop_fixed; [done|]. by intros x _ ?%elem_of_nil.
  - apply dedupe_loop_fixed; [|by intros x _ ?%elem_of_nil].
    by destruct (dedupe_loop_spec [] arr) as (_ & Hnd & _).
Qed.

End DedupeFacts.

(** ** The guard and the substitution of the advanced executor *)

Lemma upper_lower_char (c : ascii) :
  Js.upper_char (Js.lower_char c) = Js.upper_char c.
Proof. by_chars c. Qed.

Lemma upper_upper_char (c : ascii) :
  Js.upper_char (Js.upper_char c) = Js.upper_char c.
Proof. by_chars c. Qed.

Lemma toUpperCase_toLowerCase (s : string) :
  Js.toUpperCase (Js.toLowerCase s) = Js.toUpperCase s.
Proof.
  unfold Js.toUpperCase, Js.toLowerCase.
  induction s as [|c s IH]; [done|]. simpl. by rewrite upper_lower_char, IH.
Qed.

Lemma toUpperCase_idem (s : string) :
  Js.toUpperCase (Js.toUpperCase s) = Js.toUpperCase s.
Proof.
  unfold Js.toUpperCase.
  induction s as [|c s IH]; [done|]. simpl. by rewrite upper_upper_char, IH.
Qed.

Lemma startsWith_elim (s tok : string) :
  Js.startsWith s tok = true → ∃ post, s = tok +:+ post.
Proof.
  revert s. induction tok as [|x tok IH]; intros s H; [by exists s|].
  destruct s as [|c s]; [done|]. simpl in H.
  apply andb_true_iff in H as [->%Ascii.eqb_eq H].
  destruct (IH s H) as [post ->]. by exists post.
Qed.

Lemma includes_elim (s tok : string) :
  Js.includes s tok = true → ∃ pre post, s = pre +:+ tok +:+ post.
Proof.
  induction s as [|c s IH]; intros H.
  - simpl in H. rewrite orb_false_r in H.
    destruct (startsWith_elim _ _ H) as [post ->]. by exists "", post.
  - change (Js.startsWith (String c s) tok || Js.includes s tok = true) in H.
    apply orb_true_iff in H as [H|H].
    + destruct (startsWith_elim _ _ H) as [post ->]. by exists "", post.
    + destruct (IH H) as (pre & post & ->). by exists (String c pre), post.
Qed.

Lemma includes_inside (a s b tok : string) :
  Js.includes s tok = true → Js.includes (a +:+ s +:+ b) tok = true.
Proof.
  intros (pre & post & ->)%includes_elim.
  rewrite !str_app_assoc, <- (str_app_assoc a pre). apply includes_intro.
Qed.

(** X7.  On ASCII text the guard does not look at the case of
    letters, and what it rejects it rejects inside any longer text. *)
Theorem guard_is_case_blind_and_monotone (s a b : string)
    (Hs : ascii_text s) (Ha : ascii_text a) (Hb : ascii_text b) :
  isReadOnly (Js.toLowerCase s) = isReadOnly s
  ∧ isReadOnly (Js.toUpperCase s) = isReadOnly s
  ∧ (isReadOnly s = false → isReadOnly (a +:+ s +:+ b) = false).
Proof.
  unfold isReadOnly.
  rewrite toUpperCase_toLowerCase, toUpperCase_idem.
  split; [done|]. split; [done|].
  rewrite !negb_false_iff, !existsb_exists.
  intros (tok & Hin & Hinc). exists tok. split; [done|].
  rewrite !toUpperCase_app. by apply includes_inside.
Qed.

Lemma guard_is_case_blind_and_monotone_witness :
  isReadOnly (Js.toLowerCase "Drop Table t") = isReadOnly "Drop Table t"
  ∧ isReadOnly (Js.toUpperCase "Drop Table t") = isReadOnly "Drop Table t"
  ∧ (isReadOnly "Drop Table t" = false →
     isReadOnly ("SELECT 1; " +:+ "Drop Table t" +:+ " -- x") = false).
Proof.
  apply (guard_is_case_blind_and_monotone "Drop Table t" "SELECT 1; " " -- x");
    reflexivity.
Defined.

Lemma includes_braces_match (s key : string) (n : nat) :
  match_placeholder s = Some (key, n) → Js.includes s "{{" = true.
Proof.
  intros H. destruct (match_placeholder_open s) as [E|[r1 ->]]; [congruence|].
  done.
Qed.

Lemma placeholders_none (s : string) (skip : nat) :
  Js.includes s "{{" = false → placeholders_from skip s = [].
Proof.
  revert skip. induction s as [|c s IH]; intros skip H; [done|].
  change (Js.startsWith (String c s) "{{" || Js.includes s "{{" = false) in H.
  apply orb_false_iff in H as [Hs H].
  destruct skip as [|k]; [|by apply IH].
  rewrite placeholders_at.
  destruct (match_placeholder (String c s)) as [[key n]|] eqn:E; [|by apply IH].
  apply includes_braces_match in E.
  change (Js.startsWith (String c s) "{{" || Js.includes s "{{" = true) in E.
  by rewrite Hs, H in E.
Qed.

(** X8.  A template that does not contain [{{] has no placeholder and
    comes out of the substitution as it is, whatever the payload. *)
Theorem template_without_braces_unchanged (template : string)
    (vars : gmap string value)
    (Hplain : Js.includes template "{{" = false) :
  placeholders template = []
  ∧ substituteTemplate template vars = Ok template.
Proof.
  split; [by apply placeholders_none|].
  unfold substituteTemplate.
  rewrite <- (str_app_nil_r template) at 1.
  rewrite replace_plain by (by apply opens_none_plain).
  simpl. by rewrite str_app_nil_r.
Qed.

Lemma template_without_braces_unchanged_witness :
  substituteTemplate "SELECT name FROM t WHERE a = '{x}'" {[ "x" := VStr "1" ]}
  = Ok "SELECT name FROM t WHERE a = '{x}'".
Proof.
  apply (template_without_braces_unchanged
           "SELECT name FROM t WHERE a = '{x}'" {[ "x" := VStr "1" ]}).
  vm_compute. reflexivity.
Defined.

(** X9.  On a template of ASCII text, substitution succeeds exactly
    when every placeholder names a property of the payload, own or
    inherited, whose value has a text.  Otherwise it throws for the
    first placeholder, in the order of the template, that cannot be
    filled: [Missing variable] when its name is missing, and the
    error of the conversion when its value has no text. *)
Theorem substitution_succeeds_iff_values_have_text (template : string)
    (vars : gmap string value)
    (Hascii : ascii_text template) :
  ((∃ out, substituteTemplate template vars = Ok out)
   ↔ Forall (fun k => fillable vars k = true) (placeholders template))
  ∧ (¬ Forall (fun k => fillable vars k = true) (placeholders template) →
     ∃ pre k post,
       placeholders template = pre ++ k :: post
       ∧ Forall (fun k => fillable vars k = true) pre
       ∧ fillable vars k = false)
  ∧ (∀ pre k post,
       placeholders template = pre ++ k :: post →
       Forall (fun k => fillable vars k = true) pre →
       fillable vars k = false →
       substituteTemplate template vars
       = Throw (if js_in vars k
                then "Cannot convert object to primitive value"
                else "Missing variable '" +:+ k +:+ "'")).
Proof.
  assert (Hfirst : ∀ pre k post,
            placeholders template = pre ++ k :: post →
            Forall (fun k => fillable vars k = true) pre →
            fillable vars k = false →
            substituteTemplate template vars
            = Throw (if js_in vars k
                     then "Cannot convert object to primitive value"
                     else "Missing variable '" +:+ k +:+ "'")).
  { intros pre k post Hp Hpre Hk.
    apply (substitute_first_failing vars template O pre post k Hp Hpre Hk). }
  assert (Hsome : ¬ Forall (fun k => fillable vars k = true) (placeholders template) →
                  ∃ pre k post,
                    placeholders template = pre ++ k :: post
                    ∧ Forall (fun k => fillable vars k = true) pre
                    ∧ fillable vars k = false).
  { intros Hn. by destruct (first_failing vars (placeholders template)). }
  split; [|by split].
  split; [|apply substitute_all].
  intros [out Hout].
  destruct (decide (Forall (fun k => fillable vars k = true)
                           (placeholders template))) as [?|Hn]; [done|].
  destruct (Hsome Hn) as (pre & k & post & Hp & Hpre & Hk).
  rewrite (Hfirst pre k post Hp Hpre Hk) in Hout. done.
Qed.

Lemma substitution_succeeds_iff_values_have_text_witness :
  substituteTemplate "SELECT {{a}}, {{b}}, {{c}}"
    (<["b" := VObj [("toString", VNum "1")]]> {[ "a" := VStr "1" ]})
  = Throw "Cannot convert object to primitive value".
Proof.
  destruct (substitution_succeeds_iff_values_have_text
              "SELECT {{a}}, {{b}}, {{c}}"
              (<["b" := VObj [("toString", VNum "1")]]> {[ "a" := VStr "1" ]}))
    as (_ & _ & Hfirst).
  - reflexivity.
  - apply (Hfirst ["a"] "b" ["c"]).
    + vm_compute. reflexivity.
    + repeat constructor.
    + vm_compute. reflexivity.
Defined.

Lemma digit_not_quote (c : ascii) :
  Js.is_digit c = true → negb (Ascii.eqb c "'") = true.
Proof. by_chars c. Qed.

Lemma decimal_text_no_quote (s : string) :
  Js.is_decimal_text s = true →
  all_chars (fun c => negb (Ascii.eqb c "'")) s = true.
Proof.
  unfold Js.is_decimal_text.
  destruct (Js.span Js.is_digit s) as [ip r] eqn:E1.
  apply span_spec in E1 as (-> & Hip & _).
  apply (all_chars_impl _ _ _ digit_not_quote) in Hip.
  destruct ip as [|d ip]; [done|].
  destruct r as [|c r]; [intros _; by rewrite str_app_nil_r|].
  intros [->%Ascii.eqb_eq H]%andb_true_iff.
  destruct (Js.span Js.is_digit r) as [frac r2] eqn:E2.
  apply span_spec in E2 as (-> & Hfrac & _).
  apply (all_chars_impl _ _ _ digit_not_quote) in Hfrac.
  destruct frac as [|f frac]; [done|]. destruct r2; [|done].
  rewrite str_app_nil_r, all_chars_app, Hip.
  change (all_chars (fun c => negb (Ascii.eqb c "'")) (String f frac) = true).
  exact Hfrac.
Qed.

Lemma no_quote_stays (s : string) :
  all_chars (fun c => negb (Ascii.eqb c "'")) s = true →
  stays_in_literal s = true.
Proof.
  induction s as [|c s IH]; [done|]. simpl.
  intros [Hc Hs]%andb_true_iff. apply negb_true_iff in Hc. rewrite Hc.
  by apply IH.
Qed.

Lemma double_quotes_stays (s : string) :
  stays_in_literal (Js.double_quotes s) = true.
Proof.
  induction s as [|c s IH]; [done|]. simpl.
  destruct (Ascii.eqb c "'") eqn:Hc; simpl; [done|]. by rewrite Hc.
Qed.

(** X10.  The text put for a value that is not a number cannot end a
    quoted SQL literal in which the template has put the placeholder:
    every single quote of it is followed or preceded by its double. *)
Theorem substituted_text_stays_in_literal (vars : gmap string value)
    (key text : string)
    (Hvalue : substitute_value vars key = Ok text)
    (Hnot_number : ∀ t, js_get vars key ≠ Some (VNum t)) :
  stays_in_literal text = true.
Proof.
  apply substitute_value_as in Hvalue.
  destruct Hvalue as [Hnull|t Hnum|v s Hv Hnn Hnull Hs Hd|v s d Hv Hnn Hnull Hs Hd Hq].
  - done.
  - by destruct (Hnot_number t).
  - apply no_quote_stays, decimal_text_no_quote. by apply decimal_shape_iff.
  - apply doubled_iff in Hq as ->. apply double_quotes_stays.
Qed.

Lemma substituted_text_stays_in_literal_witness :
  stays_in_literal "O''Brien ''; --" = true.
Proof.
  apply (substituted_text_stays_in_literal
           {[ "who" := VStr "O'Brien '; --" ]} "who" "O''Brien ''; --").
  - vm_compute. reflexivity.
  - intros t. vm_compute. discriminate.
Defined.

Section AdvancedFacts.

Variable pool : DbCall -> Exn QueryResult.
Variable decode_base64 : string -> string.
Variable number_to_string : Z -> string.


End AdvancedFacts.

(** ** Request handlers *)

Ltac run_handler :=
  unfold run, handle, list_handler, get_handler, create_handler,
    update_handler, delete_handler, function_handler, procedure_handler,
    advanced_handler, try_catch, bind, lift, ret, throw, send, server_error;
  simpl.

Section HandlerFacts.

Variable pool : DbCall -> Exn QueryResult.
Variable decode_base64 : string -> string.
Variable number_to_string : Z -> string.

(** X12.  Every handler answers every request: no exception leaves
    it.  It sends at most one statement, and when the database
    refuses that statement the answer is 500 with the message of the
    database. *)
Theorem every_handler_answers (h : Handler) (req : Request) :
  let out := run (handle pool decode_base64 number_to_string h) req in
  ∃ resp,
    out.1 = Ok resp
    ∧ (out.2 = []
       ∨ ∃ call, out.2 = [call]
                 ∧ ∀ e, pool call = Throw e →
                        resp = {| status := 500;
                                  payload := Some (VObj [("error", VStr e)]) |}).
Proof.
  destruct h; run_handler; repeat case_match; simplify_eq; simpl;
    eexists; (split; [reflexivity|]);
    try (left; reflexivity);
    right; eexists; (split; [reflexivity|]); intros;
    unfold error_json, json; congruence.
Qed.

(** X13.  The status of an answer is one of those of its handler's
    kind: a list, function or procedure request ends with 200 or 500,
    a create request with 201 or 500, a get or delete request with
    200, 404 or 500, an update request with 200, 400, 404 or 500, an
    advanced request with 200, 400 or 500. *)
Theorem handler_status_codes (h : Handler) (req : Request) :
  ∃ resp,
    (run (handle pool decode_base64 number_to_string h) req).1 = Ok resp
    ∧ status resp ∈ possible_statuses h.
Proof.
  destruct h; run_handler; repeat case_match; simplify_eq; simpl;
    eexists; (split; [reflexivity|]); simpl; repeat constructor.
Qed.

End HandlerFacts.

Lemma list_filters_agree (tableMeta : TableMeta) (q q' : gmap string value) :
  (∀ k, k ∈ column_names tableMeta → js_get q k = js_get q' k) →
  list_filters tableMeta q = list_filters tableMeta q'.
Proof.
  unfold list_filters, column_names.
  induction (columns tableMeta) as [|c cs IH]; intros H; [done|].
  csimpl. rewrite (H (COLUMN_NAME c)) by left.
  rewrite IH; [done|]. intros k Hk. apply H. by right.
Qed.

Lemma order_by_agree (tableMeta : TableMeta) (q q' : gmap string value) :
  js_get q "order" = js_get q' "order" →
  order_by tableMeta q = order_by tableMeta q'.
Proof. intros H. unfold order_by, parse_order. by rewrite H. Qed.

Lemma filter_agree {A : Type} (P Q : A → Prop)
    `{∀ x, Decision (P x)} `{∀ x, Decision (Q x)} (l : list A) :
  (∀ x, x ∈ l → P x ↔ Q x) → filter P l = filter Q l.
Proof.
  induction l as [|x l IH]; intros Hl; [done|].
  rewrite !filter_cons, IH by (intros y Hy; apply Hl; by right).
  destruct (decide (P x)) as [Hp|Hp], (decide (Q x)) as [Hq|Hq]; try done;
    exfalso; apply (Hl x (list_elem_of_here _ _)) in Hp || apply (Hl x (list_elem_of_here _ _)) in Hq; done.
Qed.

Lemma supplied_agree (tableMeta : TableMeta) (b b' : gmap string value) :
  (∀ k, k ∈ column_names tableMeta → is_Some (js_get b k) ↔ is_Some (js_get b' k)) →
  supplied tableMeta b = supplied tableMeta b'.
Proof.
  unfold supplied, column_names. intros H.
  apply filter_agree. intros c Hc. apply H, list_elem_of_fmap. by exists c.
Qed.

Lemma updatable_agree (tableMeta : TableMeta) (pk : string)
    (b b' : gmap string value) :
  (∀ k, k ∈ column_names tableMeta → is_Some (js_get b k) ↔ is_Some (js_get b' k)) →
  updatable tableMeta pk b = updatable tableMeta pk b'.
Proof.
  unfold updatable, column_names. intros H.
  apply filter_agree. intros c Hc.
  assert (Hk : COLUMN_NAME c ∈ COLUMN_NAME <$> columns tableMeta)
    by (apply list_elem_of_fmap; by exists c).
  by rewrite (H _ Hk).
Qed.

Lemma create_sql_shape (tableMeta : TableMeta) (b b' : gmap string value) :
  (∀ k, k ∈ column_names tableMeta ++ [text_of (pk0 tableMeta)] →
        is_Some (js_get b k) ↔ is_Some (js_get b' k)) →
  create_sql tableMeta b = create_sql tableMeta b'.
Proof.
  intros H. unfold create_sql.
  rewrite (supplied_agree tableMeta b b')
    by (intros k Hk; apply H, elem_of_app; by left).
  assert (Hpk := H (text_of (pk0 tableMeta))
                  ltac:(apply elem_of_app; right; left)).
  rewrite (bool_decide_ext _ _ Hpk).
  reflexivity.
Qed.

(** whether a name is accepted depends on the names already
    declared, not on their values *)
Lemma input_same_names (request request' : list Binding) (name : string)
    (type type' : SqlType) (v v' : option value) :
  map b_name request = map b_name request' →
  match input request name type v, input request' name type' v' with
  | Ok r, Ok r' => map b_name r = map b_name r'
  | Throw e, Throw e' => e = e'
  | _, _ => False
  end.
Proof.
  intros Hnames. unfold input. destruct (refused_name name); [done|].
  destruct (existsb _ request) eqn:E, (existsb _ request') eqn:E'.
  - done.
  - apply declared_name_elem in E. rewrite Hnames in E.
    apply declared_name_elem in E. congruence.
  - apply declared_name_elem in E'. rewrite <- Hnames in E'.
    apply declared_name_elem in E'. congruence.
  - rewrite !map_app. simpl. by rewrite Hnames.
Qed.

Lemma declare_same_names (bs bs' request request' : list Binding) :
  map b_name request = map b_name request' →
  map b_name bs = map b_name bs' →
  match declare request bs, declare request' bs' with
  | Ok r, Ok r' => map b_name r = map b_name r'
  | Throw e, Throw e' => e = e'
  | _, _ => False
  end.
Proof.
  revert bs' request request'.
  induction bs as [|b bs IH]; intros [|b' bs'] request request' Hr Hbs;
    try done.
  simpl in Hbs. injection Hbs as Hb Hbs. simpl. rewrite <- Hb.
  pose proof (input_same_names request request' (b_name b)
                (b_type b) (b_type b') (b_value b) (b_value b') Hr) as Hi.
  destruct (input request _ _ _) as [r|e],
           (input request' _ _ _) as [r'|e']; try done.
  simpl. by apply IH.
Qed.

Lemma prepare_same_names (call call' : DbCall) :
  map b_name (bound call) = map b_name (bound call') →
  match prepare call, prepare call' with
  | Ok _, Ok _ => True
  | Throw e, Throw e' => e = e'
  | _, _ => False
  end.
Proof.
  intros H. unfold prepare.
  pose proof (declare_same_names (bound call) (bound call') [] [] eq_refl H).
  by destruct (declare [] (bound call)), (declare [] (bound call')).
Qed.

(** the text of a list statement begins with the select on the
    object *)
Lemma list_statement_text (number_to_string : Z -> string)
    (tableMeta : TableMeta) (q : gmap string value) (call : DbCall) :
  list_statement number_to_string tableMeta q = Ok call →
  ∃ rest parameters,
    call = Query ("SELECT * FROM "
                  +:+ qName (schema tableMeta) (table tableMeta)
                  +:+ " " +:+ rest) parameters.
Proof.
  unfold list_statement, exn_bind. intros H.
  repeat case_match; simplify_eq; rewrite ?str_app_assoc; by do 2 eexists.
Qed.

Section StatementFacts.

Variable pool : DbCall -> Exn QueryResult.
Variable decode_base64 : string -> string.
Variable number_to_string : Z -> string.

(** X14.  A route registered with the method GET for a table or a
    view sends nothing but a [SELECT * FROM] on that object. *)
Theorem get_route_only_selects (r : Route) (req : Request) (call : DbCall)
    (Hfits : route_fits_kind r) (Hget : method r = GET)
    (Hsent : call ∈ (run (handle pool decode_base64 number_to_string (handler r)) req).2) :
  match handler r with
  | ListRows _ m | GetByKey _ m _ =>
      ∃ rest parameters,
        call = Query ("SELECT * FROM " +:+ qName (schema m) (table m) +:+ " " +:+ rest)
                     parameters
  | _ => False
  end.
Proof.
  destruct r as [meth p h]. unfold route_fits_kind in Hfits. simpl in *.
  destruct h as [ep m|ep m k|ep m|ep m k|ep m k|ep fn|ep pr|ep];
    try (destruct Hfits; congruence); try congruence.
  - revert Hsent. run_handler.
    destruct (list_statement _ _ _) as [c|e] eqn:E;
      [|by intros ?%elem_of_nil].
    apply list_statement_text in E as (rest & parameters & ->).
    assert (∀ c, call ∈ [c] → call = c) as Hc
      by (by intros c ?%list_elem_of_singleton).
    destruct (pool _); simpl; intros ->%Hc; by do 2 eexists.
  - revert Hsent. run_handler. unfold get_statement.
    destruct (key_type _ _); simpl; [|by intros ?%elem_of_nil].
    destruct (input _ _ _ _); simpl; [|by intros ?%elem_of_nil].
    assert (∀ c, call ∈ [c] → call = c) as Hc
      by (by intros c ?%list_elem_of_singleton).
    repeat case_match; simplify_eq; simpl; intros ->%Hc;
      exists ("WHERE [" +:+ k +:+ "] = @" +:+ k); eexists;
      rewrite ?str_app_assoc; reflexivity.
Qed.

(** X15.  A list request reads the query string only at the names of
    the columns and at [order], [limit] and [offset]: two query
    strings that agree there give the same statement and the same
    bound values. *)
Theorem list_reads_only_known_names (tableMeta : TableMeta)
    (q q' : gmap string value)
    (Hagree : ∀ k, k ∈ list_names tableMeta → js_get q k = js_get q' k) :
  list_statement number_to_string tableMeta q
  = list_statement number_to_string tableMeta q'.
Proof.
  unfold list_names in Hagree.
  unfold list_statement, parse_limit, parse_offset.
  rewrite (list_filters_agree tableMeta q q')
    by (intros k Hk; apply Hagree, elem_of_app; by left).
  rewrite (order_by_agree tableMeta q q')
    by (apply Hagree, elem_of_app; right; repeat constructor).
  rewrite (Hagree "limit") by (apply elem_of_app; right; repeat constructor).
  rewrite (Hagree "offset") by (apply elem_of_app; right; repeat constructor).
  reflexivity.
Qed.

(** X16.  The handlers of create and update read the payload only at
    the names of the columns, and create also at the name of the
    first key column: requests that agree there, and on the key of
    the path, have the same outcome. *)
Theorem writes_read_only_columns (tableMeta : TableMeta) (pk : string)
    (req req' : Request)
    (Hkey : js_get (params req) pk = js_get (params req') pk)
    (Hagree : ∀ k, k ∈ column_names tableMeta ++ [text_of (pk0 tableMeta)] →
                   js_get (body req) k = js_get (body req') k) :
  run (create_handler pool tableMeta) req = run (create_handler pool tableMeta) req'
  ∧ run (update_handler pool tableMeta pk) req
    = run (update_handler pool tableMeta pk) req'.
Proof.
  assert (Hcols : ∀ k, k ∈ column_names tableMeta →
                       js_get (body req) k = js_get (body req') k)
    by (intros k Hk; apply Hagree, elem_of_app; by left).
  assert (Hshape : ∀ k, k ∈ column_names tableMeta →
            is_Some (js_get (body req) k) ↔ is_Some (js_get (body req') k))
    by (intros k Hk; by rewrite (Hcols k Hk)).
  split.
  - unfold run, create_handler, create_statement.
    rewrite (create_sql_shape tableMeta (body req) (body req'))
      by (intros k Hk; by rewrite (Hagree k Hk)).
    rewrite (supplied_agree _ _ _ Hshape).
    replace (map (fun col => binding (COLUMN_NAME col) (mapSqlTypeToMssqlType col)
                               (js_get (body req) (COLUMN_NAME col)))
                 (supplied tableMeta (body req')))
      with (map (fun col => binding (COLUMN_NAME col) (mapSqlTypeToMssqlType col)
                               (js_get (body req') (COLUMN_NAME col)))
                 (supplied tableMeta (body req'))); [done|].
    apply map_ext_in. intros c Hc. rewrite Hcols; [done|].
    apply list_elem_of_In, list_elem_of_filter in Hc as [_ Hc].
    apply list_elem_of_fmap. by exists c.
  - unfold run, update_handler.
    rewrite (updatable_agree _ pk _ _ Hshape), Hkey.
    replace (map (fun col => binding (COLUMN_NAME col) (mapSqlTypeToMssqlType col)
                               (js_get (body req) (COLUMN_NAME col)))
                 (updatable tableMeta pk (body req')))
      with (map (fun col => binding (COLUMN_NAME col) (mapSqlTypeToMssqlType col)
                               (js_get (body req') (COLUMN_NAME col)))
                 (updatable tableMeta pk (body req'))); [done|].
    apply map_ext_in. intros c Hc. rewrite Hcols; [done|].
    apply list_elem_of_In, list_elem_of_filter in Hc as [_ Hc].
    apply list_elem_of_fmap. by exists c.
Qed.

End StatementFacts.

Section SentFacts.

Variable pool : DbCall -> Exn QueryResult.
Variable decode_base64 : string -> string.
Variable number_to_string : Z -> string.

Ltac answer_of_pool :=
  repeat match goal with
         | |- context [pool ?c] => destruct (pool c) as [?r|?e]
         end;
  simpl; repeat case_match; simplify_eq; simpl; try done.

Lemma get_handler_log (tableMeta : TableMeta) (pk : string) (req : Request) :
  (run (get_handler pool tableMeta pk) req).2
  = match get_statement tableMeta pk (params req) with
    | Ok call => [call]
    | Throw _ => []
    end.
Proof.
  unfold run, get_handler, try_catch, bind, lift, send, server_error,
    ret, throw.
  destruct (get_statement _ _ _); simpl; [|done]. answer_of_pool.
Qed.

Lemma update_handler_log (tableMeta : TableMeta) (pk : string) (req : Request) :
  (run (update_handler pool tableMeta pk) req).2
  = match exn_bind
            (declare []
               (map (fun col => binding (COLUMN_NAME col)
                                        (mapSqlTypeToMssqlType col)
                                        (js_get (body req) (COLUMN_NAME col)))
                    (updatable tableMeta pk (body req))))
            (fun request =>
               exn_bind (key_type tableMeta pk) (fun ty =>
               input request pk ty (js_get (params req) pk))),
          updatable tableMeta pk (body req) with
    | Ok request, _ :: _ =>
        [Query (update_sql tableMeta pk
                  (map (fun col => "[" +:+ COLUMN_NAME col +:+ "] = @"
                                   +:+ COLUMN_NAME col)
                       (updatable tableMeta pk (body req))))
               request]
    | _, _ => []
    end.
Proof.
  unfold run, update_handler, try_catch, bind, lift, send,
    server_error, ret, throw.
  destruct (declare _ _); simpl; [|done].
  destruct (key_type _ _); simpl; [|done].
  destruct (input _ _ _ _); simpl; [|done].
  destruct (updatable _ _ _); simpl; [done|]. answer_of_pool.
Qed.

Lemma delete_handler_log (tableMeta : TableMeta) (pk : string) (req : Request) :
  (run (delete_handler pool tableMeta pk) req).2
  = match exn_bind (key_type tableMeta pk)
            (fun ty => input [] pk ty (js_get (params req) pk)) with
    | Ok request => [Query (delete_sql tableMeta pk) request]
    | Throw _ => []
    end.
Proof.
  unfold run, delete_handler, try_catch, bind, lift, send, server_error,
    ret, throw.
  destruct (key_type _ _); simpl; [|done].
  destruct (input _ _ _ _); simpl; [|done]. answer_of_pool.
Qed.

Lemma function_handler_log (fnMeta : FnMeta) (req : Request) :
  (run (function_handler pool fnMeta) req).2
  = match prepare (function_statement fnMeta (body req)) with
    | Ok call => [call]
    | Throw _ => []
    end.
Proof.
  unfold run, function_handler, try_catch, bind, lift, send, server_error,
    ret, throw.
  destruct (prepare _); simpl; [|done]. answer_of_pool.
Qed.

Lemma procedure_handler_log (procMeta : ProcMeta) (req : Request) :
  (run (procedure_handler pool procMeta) req).2
  = match prepare (procedure_statement procMeta (body req)) with
    | Ok call => [call]
    | Throw _ => []
    end.
Proof.
  unfold run, procedure_handler, try_catch, bind, lift, send, server_error,
    ret, throw.
  destruct (prepare _); simpl; [|done]. answer_of_pool.
Qed.

(** X17.  No value of a request is written into the SQL text of a
    get, create, update, delete, function or procedure request: the
    text depends only on which properties the payload has. *)
Theorem values_travel_as_parameters (h : Handler) (req req' : Request)
    (Hhandler : takes_values h = true)
    (Hshape : same_shape (body req) (body req')) :
  map sql_text (run (handle pool decode_base64 number_to_string h) req).2
  = map sql_text (run (handle pool decode_base64 number_to_string h) req').2.
Proof.
  destruct h as [ep m|ep m k|ep m|ep m k|ep m k|ep fn|ep pr|ep];
    try discriminate Hhandler; unfold handle.
  - rewrite !get_handler_log. unfold get_statement.
    destruct (key_type _ _) as [ty|]; [|done]. simpl.
    pose proof (input_same_names [] [] k ty ty (js_get (params req) k)
                  (js_get (params req') k) eq_refl) as Hi.
    by destruct (input [] k ty (js_get (params req) k)),
                (input [] k ty (js_get (params req') k)).
  - rewrite !create_handler_sent.
    assert (Hsql : create_sql m (body req) = create_sql m (body req'))
      by (apply create_sql_shape; intros x _; apply Hshape).
    pose proof (prepare_same_names (create_statement m (body req))
                  (create_statement m (body req'))) as Hp.
    destruct (prepare (create_statement m (body req))) as [c|] eqn:E,
             (prepare (create_statement m (body req'))) as [c'|] eqn:E'.
    + apply prepare_inv in E as [-> _]. apply prepare_inv in E' as [-> _].
      simpl. by rewrite Hsql.
    + exfalso. apply Hp. unfold create_statement. simpl.
      rewrite !map_map. simpl.
      by rewrite (supplied_agree m (body req) (body req'))
        by (intros x _; apply Hshape).
    + exfalso. apply Hp. unfold create_statement. simpl.
      rewrite !map_map. simpl.
      by rewrite (supplied_agree m (body req) (body req'))
        by (intros x _; apply Hshape).
    + done.
  - rewrite !update_handler_log.
    rewrite (updatable_agree m k (body req) (body req'))
      by (intros x _; apply Hshape).
    pose proof (declare_same_names
                  (map (fun col => binding (COLUMN_NAME col)
                                           (mapSqlTypeToMssqlType col)
                                           (js_get (body req) (COLUMN_NAME col)))
                       (updatable m k (body req')))
                  (map (fun col => binding (COLUMN_NAME col)
                                           (mapSqlTypeToMssqlType col)
                                           (js_get (body req') (COLUMN_NAME col)))
                       (updatable m k (body req')))
                  [] [] eq_refl) as Hd.
    rewrite !map_map in Hd. specialize (Hd eq_refl).
    destruct (declare [] _) as [r|], (declare [] _) as [r'|]; try done.
    simpl. destruct (key_type _ _) as [ty|]; [|done]. simpl.
    pose proof (input_same_names r r' k ty ty (js_get (params req) k)
                  (js_get (params req') k) Hd) as Hi.
    destruct (input r _ _ _), (input r' _ _ _); try done.
    by destruct (updatable _ _ _).
  - rewrite !delete_handler_log.
    destruct (key_type _ _) as [ty|]; [|done]. simpl.
    pose proof (input_same_names [] [] k ty ty (js_get (params req) k)
                  (js_get (params req') k) eq_refl) as Hi.
    by destruct (input [] k ty (js_get (params req) k)),
                (input [] k ty (js_get (params req') k)).
  - rewrite !function_handler_log.
    pose proof (prepare_same_names (function_statement fn (body req))
                  (function_statement fn (body req'))) as Hp.
    assert (Hnames : map b_name (bound (function_statement fn (body req)))
                     = map b_name (bound (function_statement fn (body req')))).
    { unfold function_statement. destruct (String.eqb _ _); simpl;
        by rewrite !map_map. }
    specialize (Hp Hnames).
    destruct (prepare (function_statement fn (body req))) as [c|] eqn:E,
             (prepare (function_statement fn (body req'))) as [c'|] eqn:E';
      try done.
    apply prepare_inv in E as [-> _]. apply prepare_inv in E' as [-> _].
    unfold function_statement. by destruct (String.eqb _ _).
  - rewrite !procedure_handler_log.
    pose proof (prepare_same_names (procedure_statement pr (body req))
                  (procedure_statement pr (body req'))) as Hp.
    assert (Hnames : map b_name (bound (procedure_statement pr (body req)))
                     = map b_name (bound (procedure_statement pr (body req')))).
    { unfold procedure_statement. simpl. by rewrite !map_map. }
    specialize (Hp Hnames).
    destruct (prepare (procedure_statement pr (body req))) as [c|] eqn:E,
             (prepare (procedure_statement pr (body req'))) as [c'|] eqn:E';
      try done.
    apply prepare_inv in E as [-> _]. by apply prepare_inv in E' as [-> _].
Qed.

End SentFacts.

Lemma filter_columns_sublist (P : Column → Prop) `{∀ c, Decision (P c)}
    (v : Column → option value) (cols : list Column) :
  map b_name
      (map (fun col => binding (COLUMN_NAME col) (mapSqlTypeToMssqlType col) (v col))
           (filter P cols))
  `sublist_of` map COLUMN_NAME cols.
Proof.
  rewrite map_map. simpl.
  apply (fmap_sublist COLUMN_NAME), sublist_filter.
Qed.

Section BindingFacts.

Variable pool : DbCall -> Exn QueryResult.
Variable number_to_string : Z -> string.

(** X18.  For a table whose columns have distinct names, the values
    bound to a statement have distinct names: those of a create
    statement and of an update statement always, those of a list
    statement when no column is called [offset] or [limit]. *)
Theorem bound_names_distinct (tableMeta : TableMeta)
    (Hcolumns : NoDup (column_names tableMeta)) :
  (∀ q call, "offset" ∉ column_names tableMeta →
             "limit" ∉ column_names tableMeta →
             list_statement number_to_string tableMeta q = Ok call →
             NoDup (map b_name (bound call)))
  ∧ (∀ b, NoDup (map b_name (bound (create_statement tableMeta b))))
  ∧ (∀ pk req call,
       call ∈ (run (update_handler pool tableMeta pk) req).2 →
       NoDup (map b_name (bound call))).
Proof.
  split; [|split].
  - intros q call _ _ Hcall.
    unfold list_statement in Hcall.
    destruct (declare [] _) as [r|] eqn:Ed; [|done]. simpl in Hcall.
    apply declare_inv in Ed as (_ & _ & Hnd).
    specialize (Hnd (NoDup_nil_2 (A:=string))).
    destruct (order_by _ _) as [[oc od]|]; [|done]. simpl in Hcall.
    destruct (parse_limit q) as [limit|]; [|done]. simpl in Hcall.
    destruct (parse_offset q) as [offset|]; [|done]. simpl in Hcall.
    destruct (_ && _); [by simplify_eq|].
    destruct (_ && _).
    + destruct (input r _ _ _) as [r1|] eqn:E1; [|done].
      simpl in Hcall. simplify_eq. simpl.
      by eapply input_names_distinct.
    + destruct (input r _ _ _) as [r1|] eqn:E1; [|done]. simpl in Hcall.
      destruct (input r1 _ _ _) as [r2|] eqn:E2; [|done].
      simpl in Hcall. simplify_eq. simpl.
      eapply input_names_distinct; [exact E2|].
      by eapply input_names_distinct.
  - intros b. unfold create_statement, supplied. simpl.
    eapply sublist_NoDup; [exact Hcolumns|]. apply filter_columns_sublist.
  - intros pk req call. rewrite update_handler_log.
    destruct (declare [] _) as [r|] eqn:Ed; [|by intros ?%elem_of_nil].
    simpl. apply declare_inv in Ed as (_ & _ & Hnd).
    specialize (Hnd (NoDup_nil_2 (A:=string))).
    destruct (key_type _ _) as [ty|]; [|by intros ?%elem_of_nil]. simpl.
    destruct (input r _ _ _) as [r1|] eqn:E1; [|by intros ?%elem_of_nil].
    destruct (updatable _ _ _) as [|c cs]; [by intros ?%elem_of_nil|].
    intros ->%list_elem_of_singleton. simpl.
    by eapply input_names_distinct.
Qed.

(** X19.  For a table that has a column called [offset] or [limit], a
    list request that filters on that column and asks for a page of
    a given size is refused by the driver, which takes no name twice
    on one request: the answer is 500 with the message of the driver
    and nothing is sent.  The other names of the filters are names
    the driver accepts, and [order], [limit] and [offset] have a
    text. *)
Theorem pagination_name_refused_by_driver (tableMeta : TableMeta)
    (req : Request) (name orderText limitText offsetText : string) (n : Z)
    (Hname : name = "offset" ∨ name = "limit")
    (Hcolumn : name ∈ column_names tableMeta)
    (Hfilter : is_Some (js_get (query req) name))
    (Hfilters : accepted (filter (fun name => is_Some (js_get (query req) name))
                                 (column_names tableMeta)))
    (Horder : js_string_opt (js_get (query req) "order") = Ok orderText)
    (Hlimit : js_string_opt (js_get (query req) "limit") = Ok limitText)
    (Hoffset : js_string_opt (js_get (query req) "offset") = Ok offsetText)
    (Hascii : ascii_text limitText ∧ ascii_text offsetText)
    (Hpage : Js.parseInt_finite limitText = Some n ∧ (0 ≤ n)%Z) :
  ∃ declared,
    (declared = "offset" ∨ declared = "limit")
    ∧ declared ∈ column_names tableMeta
    ∧ is_Some (js_get (query req) declared)
    ∧ (name = "offset" → declared = "offset")
    ∧ run (list_handler pool number_to_string tableMeta) req
      = (Ok {| status := 500;
               payload :=
                 Some (VObj [("error",
                              VStr ("The parameter name " +:+ declared
                                    +:+ " has already been declared. Parameter names must be unique"))]) |},
         []).
Proof.
  destruct Hpage as [Hn Hpos].
  assert (Hcolumns : columns tableMeta ≠ []).
  { unfold column_names in Hcolumn. destruct (columns tableMeta); [|done].
    by apply elem_of_nil in Hcolumn. }
  assert (Hin : name ∈ filter (fun name => is_Some (js_get (query req) name))
                              (column_names tableMeta))
    by (by apply list_elem_of_filter).
  rewrite <- list_filters_names in Hfilters, Hin.
  destruct (order_by_total tableMeta (query req) orderText Hcolumns Horder)
    as (col & dir & Ho).
  pose proof (list_statement_shape number_to_string tableMeta (query req)
                col dir limitText offsetText Hfilters Ho Hlimit Hoffset) as Hs.
  cbv zeta in Hs. rewrite Hn in Hs. simpl in Hs.
  assert ((n <? 0)%Z = false) as Hlt by (apply Z.ltb_ge; lia).
  rewrite Hlt in Hs. simpl in Hs.
  destruct (decide ("offset" ∈ map b_name
                      (map snd (list_filters tableMeta (query req)))))
    as [Hoff|Hoff].
  - exists "offset". split; [by left|].
    rewrite list_filters_names in Hoff.
    apply list_elem_of_filter in Hoff as [Hsome Hcol].
    split; [done|]. split; [done|]. split; [done|].
    apply list_handler_fails. rewrite Hs.
    rewrite input_declared; [done|reflexivity|].
    rewrite list_filters_names. by apply list_elem_of_filter.
  - destruct Hname as [->| ->]; [done|].
    exists "limit". split; [by right|].
    split; [done|]. split; [done|]. split; [done|].
    apply list_handler_fails. rewrite Hs.
    rewrite input_accepted by done. simpl.
    rewrite input_declared; [done|reflexivity|].
    rewrite map_app. apply elem_of_app. by left.
Qed.

End BindingFacts.

Lemma get_route_only_selects_witness :
  ∃ rest parameters,
    Query "SELECT * FROM [dbo].[LatestWidgetsView]  ORDER BY [id] ASC" []
    = Query ("SELECT * FROM " +:+ qName (schema Sample.widgets) (table Sample.widgets)
             +:+ " " +:+ rest) parameters.
Proof.
  apply (get_route_only_selects Node.empty_pool Node.decode_base64
           Node.number_to_string
           {| method := GET; path := "/api/v/LatestWidgetsView";
              handler := ListRows "api" Sample.widgets |}
           (Sample.request ∅ ∅)).
  - reflexivity.
  - reflexivity.
  - vm_compute. left.
Defined.

Lemma list_reads_only_known_names_witness :
  list_statement Node.number_to_string Sample.orders {[ "name" := VStr "a" ]}
  = list_statement Node.number_to_string Sample.orders
      (<[ "page" := VStr "2" ]> {[ "name" := VStr "a" ]}).
Proof.
  apply (list_reads_only_known_names Node.number_to_string Sample.orders).
  intros k Hk. unfold js_get. rewrite lookup_insert_ne; [done|].
  intros <-. vm_compute in Hk.
  repeat (apply elem_of_cons in Hk as [Hk|Hk]; [discriminate Hk|]).
  by apply elem_of_nil in Hk.
Defined.

Lemma writes_read_only_columns_witness :
  run (create_handler Node.empty_pool Sample.orders)
      (Sample.request ∅ {[ "name" := VStr "a" ]})
  = run (create_handler Node.empty_pool Sample.orders)
      (Sample.request ∅ (<[ "role" := VStr "admin" ]> {[ "name" := VStr "a" ]}))
  ∧ run (update_handler Node.empty_pool Sample.orders "id")
      (Sample.request ∅ {[ "name" := VStr "a" ]})
    = run (update_handler Node.empty_pool Sample.orders "id")
      (Sample.request ∅ (<[ "role" := VStr "admin" ]> {[ "name" := VStr "a" ]})).
Proof.
  apply (writes_read_only_columns Node.empty_pool Sample.orders "id").
  - reflexivity.
  - intros k Hk. unfold js_get. simpl body. rewrite lookup_insert_ne; [done|].
    intros <-. vm_compute in Hk.
    repeat (apply elem_of_cons in Hk as [Hk|Hk]; [discriminate Hk|]).
    by apply elem_of_nil in Hk.
Defined.

Lemma values_travel_as_parameters_witness :
  map sql_text
      (run (handle Node.empty_pool Node.decode_base64 Node.number_to_string
              (CreateRow "api" Sample.products))
           (Sample.request ∅ {[ "name" := VStr "a" ]})).2
  = map sql_text
      (run (handle Node.empty_pool Node.decode_base64 Node.number_to_string
              (CreateRow "api" Sample.products))
           (Sample.request ∅ {[ "name" := VStr "b'); DROP TABLE t; --" ]})).2.
Proof.
  apply (values_travel_as_parameters Node.empty_pool Node.decode_base64
           Node.number_to_string (CreateRow "api" Sample.products)).
  - reflexivity.
  - intros k. unfold js_get. simpl body. rewrite !lookup_singleton.
    by case_decide.
Defined.

Lemma bound_names_distinct_witness :
  NoDup (map b_name
           (bound (create_statement Sample.products
                     (<[ "price" := VNum "3" ]> {[ "name" := VStr "a" ]})))).
Proof.
  refine (proj1 (proj2 (bound_names_distinct Node.empty_pool
                          Node.number_to_string Sample.products _)) _).
  vm_compute.
  repeat (apply NoDup_cons; split;
          [let H := fresh in
           intros H;
           repeat (apply elem_of_cons in H as [H|H]; [discriminate H|]);
           by apply elem_of_nil in H|]).
  apply NoDup_nil_2.
Defined.

Lemma pagination_name_refused_by_driver_witness :
  run (list_handler Node.empty_pool Node.number_to_string
         {| schema := "dbo"; table := "Quota";
            columns := [Sample.column "id" "int" "NO" None;
                        Sample.column "limit" "int" "NO" None];
            pk := ["id"]; isView := false; hasTriggers := false;
            identity := None |})
      (Sample.request {[ "limit" := VStr "5" ]} ∅)
  = (Ok {| status := 500;
           payload :=
             Some (VObj [("error",
                          VStr "The parameter name limit has already been declared. Parameter names must be unique")]) |},
     []).
Proof.
  destruct (pagination_name_refused_by_driver Node.empty_pool
              Node.number_to_string
              {| schema := "dbo"; table := "Quota";
                 columns := [Sample.column "id" "int" "NO" None;
                             Sample.column "limit" "int" "NO" None];
                 pk := ["id"]; isView := false; hasTriggers := false;
                 identity := None |}
              (Sample.request {[ "limit" := VStr "5" ]} ∅)
              "limit" "undefined" "5" "undefined" 5)
    as (declared & Hdeclared & _ & Hsome & _ & Hrun).
  - by right.
  - vm_compute. right. left.
  - by eexists.
  - match goal with
    | |- accepted ?l => assert (l = ["limit"]) as -> by (vm_compute; reflexivity)
    end.
    split; [apply NoDup_singleton|]. apply Forall_singleton. reflexivity.
  - vm_compute. reflexivity.
  - vm_compute. reflexivity.
  - vm_compute. reflexivity.
  - split; reflexivity.
  - split; [vm_compute; reflexivity|lia].
  - destruct Hdeclared as [-> | ->].
    + exfalso. vm_compute in Hsome. by destruct Hsome.
    + exact Hrun.
Defined.

(** ** Discovery *)

Lemma nat_text_inj (i j : nat) : nat_text i = nat_text j → i = j.
Proof.
  unfold nat_text. intros H.
  apply Unsigned.to_uint_inj.
  assert (Hnn : ∀ n, Nat.to_uint n ≠ Decimal.Nil).
  { intros n Hn. pose proof (f_equal Nat.of_uint Hn) as E.
    rewrite Unsigned.of_to in E. simpl in E. subst n.
    vm_compute in Hn. discriminate Hn. }
  pose proof (NilZero.usu _ (Hnn i)) as Hi.
  pose proof (NilZero.usu _ (Hnn j)) as Hj.
  rewrite H in Hi. congruence.
Qed.

Lemma string_of_uint_digits (d : Decimal.uint) :
  all_chars Js.is_digit (NilEmpty.string_of_uint d) = true.
Proof. induction d; simpl; by rewrite ?IHd. Qed.

Lemma nat_text_digits (i : nat) : all_chars Js.is_digit (nat_text i) = true.
Proof.
  unfold nat_text, NilZero.string_of_uint.
  destruct (Nat.to_uint i) eqn:E; try done;
    rewrite <- E; apply string_of_uint_digits.
Qed.

Lemma digit_is_word_char (c : ascii) :
  Js.is_digit c = true → Js.is_word_char c = true.
Proof. by_chars c. Qed.

(** a text does not contain a token whose first character it does
    not have *)
Lemma includes_needs_first (p : ascii -> bool) (s : string) (c : ascii)
    (tok : string) :
  all_chars p s = true → p c = false → Js.includes s (String c tok) = false.
Proof.
  intros Hs Hc. induction s as [|x s IH]; [done|].
  simpl in Hs. apply andb_true_iff in Hs as [Hx Hs].
  change (Js.startsWith (String x s) (String c tok)
          || Js.includes s (String c tok) = false).
  rewrite (IH Hs), orb_false_r. simpl.
  destruct (Ascii.eqb c x) eqn:E; [|done].
  apply Ascii.eqb_eq in E as ->. congruence.
Qed.

(** the driver accepts a name made of letters, digits and [_] *)
Lemma word_name_accepted (name : string) :
  all_chars Js.is_word_char name = true → refused_name name = false.
Proof.
  intros H. unfold refused_name.
  by rewrite !(includes_needs_first Js.is_word_char name _ _ H).
Qed.

Lemma key_accepted (tag : string) (i : nat) :
  all_chars Js.is_word_char tag = true →
  refused_name (tag +:+ nat_text i) = false.
Proof.
  intros Htag. apply word_name_accepted. rewrite all_chars_app, Htag. simpl.
  apply (all_chars_impl _ _ _ digit_is_word_char), nat_text_digits.
Qed.

Lemma key_inj (tag : string) (i j : nat) :
  tag +:+ nat_text i = tag +:+ nat_text j → i = j.
Proof. intros H. apply nat_text_inj. by apply (inj (String.app tag)) in H. Qed.

(** the loop of the pattern matcher, from the index [i] on *)
Lemma bind_from_spec (colExpr tag : string) (patterns : list string) :
  all_chars Js.is_word_char tag = true →
  ∀ (i : nat) (request : list Binding),
    (∀ j, (j < length patterns)%nat →
          tag +:+ nat_text (i + j) ∉ map b_name request) →
    bind_from i request patterns colExpr tag
    = Ok (request
          ++ imap (fun j pat =>
                     binding (tag +:+ nat_text (i + j)) (NVarChar Unsized)
                             (Some (VStr (matcher pat).1)))
                  patterns,
          imap (fun j pat =>
                  colExpr +:+ (matcher pat).2 +:+ tag +:+ nat_text (i + j))
               patterns).
Proof.
  intros Htag. induction patterns as [|pat r IH]; intros i request Hfresh.
  - simpl. by rewrite app_nil_r.
  - cbn [bind_from]. destruct (matcher pat) as [v comparison] eqn:Em.
    rewrite input_accepted.
    + simpl. rewrite IH.
      * simpl. rewrite Em. simpl. rewrite Nat.add_0_r, <- app_assoc. simpl.
        rewrite (imap_ext
                   ((fun j pat =>
                       binding (tag +:+ nat_text (i + j)) (NVarChar Unsized)
                               (Some (VStr (matcher pat).1))) ∘ S)
                   (fun j pat =>
                      binding (tag +:+ nat_text (S (i + j))) (NVarChar Unsized)
                              (Some (VStr (matcher pat).1))) r)
          by (intros j x _; simpl; by rewrite Nat.add_succ_r).
        rewrite (imap_ext
                   ((fun j pat =>
                       colExpr +:+ (matcher pat).2 +:+ tag
                       +:+ nat_text (i + j)) ∘ S)
                   (fun j pat =>
                      colExpr +:+ (matcher pat).2 +:+ tag
                      +:+ nat_text (S (i + j))) r)
          by (intros j x _; simpl; by rewrite Nat.add_succ_r).
        reflexivity.
      * intros j Hj. rewrite map_app. simpl.
        intros [Hin|Hin%list_elem_of_singleton]%elem_of_app.
        -- apply (Hfresh (S j)); [simpl; lia|]. by rewrite Nat.add_succ_r.
        -- apply key_inj in Hin. lia.
    + by apply key_accepted.
    + specialize (Hfresh O ltac:(simpl; lia)). by rewrite Nat.add_0_r in Hfresh.
Qed.

(** X20.  Take a tag of letters and digits and a request on which no
    name made of the tag and an index of a pattern is declared.  The
    pattern matcher declares one parameter on the request and gives
    one clause for each pattern, in order.  The parameter of the
    pattern at index [i] is called by the tag followed by [i], so the
    names are pairwise distinct.  For a pattern that begins with [^]
    the clause is a [LIKE] and the value is the rest of the pattern
    followed by [%]; for another pattern that contains [%] or [_] the
    clause is a [LIKE] and the value the pattern; for any other
    pattern the clause is an equality and the value the pattern.  The
    pattern is only in the bound value. *)
Theorem matcher_binds_each_pattern (request : list Binding)
    (patterns : list string) (colExpr tag : string)
    (Htag : all_chars Js.is_word_char tag = true)
    (Hfresh : ∀ i, (i < length patterns)%nat →
                   tag +:+ nat_text i ∉ map b_name request) :
  ∃ bound clauses,
    bindNameMatchers request patterns colExpr tag
    = Ok (request ++ bound, clauses)
    ∧ length bound = length patterns
    ∧ length clauses = length patterns
    ∧ NoDup (map b_name bound)
    ∧ ∀ i pat, patterns !! i = Some pat →
        let key := tag +:+ nat_text i in
        (∀ rest, pat = String "^" rest →
                 bound !! i = Some (binding key (NVarChar Unsized)
                                            (Some (VStr (rest +:+ "%"))))
                 ∧ clauses !! i = Some (colExpr +:+ " LIKE @" +:+ key))
        ∧ (Js.startsWith pat "^" = false →
           Js.includes pat "%" = true ∨ Js.includes pat "_" = true →
           bound !! i = Some (binding key (NVarChar Unsized) (Some (VStr pat)))
           ∧ clauses !! i = Some (colExpr +:+ " LIKE @" +:+ key))
        ∧ (Js.startsWith pat "^" = false →
           Js.includes pat "%" = false → Js.includes pat "_" = false →
           bound !! i = Some (binding key (NVarChar Unsized) (Some (VStr pat)))
           ∧ clauses !! i = Some (colExpr +:+ " = @" +:+ key)).
Proof.
  unfold bindNameMatchers.
  rewrite (bind_from_spec colExpr tag patterns Htag O request) by done.
  eexists _, _. split; [reflexivity|].
  split; [by rewrite length_imap|]. split; [by rewrite length_imap|]. split.
  - apply NoDup_alt. intros i j x Hi Hj.
    change (map b_name ?l) with (b_name <$> l) in *.
    rewrite !list_lookup_fmap, !list_lookup_imap in Hi, Hj.
    destruct (patterns !! i) as [pi|]; [|done].
    destruct (patterns !! j) as [pj|]; [|done].
    simpl in Hi, Hj. injection Hi as Hi. injection Hj as Hj.
    subst x. symmetry in Hj. by apply key_inj in Hj.
  - intros i pat Hpat. cbv zeta.
    rewrite !list_lookup_imap, Hpat. simpl.
    assert (Hplain : Js.startsWith pat "^" = false →
              matcher pat
              = if Js.includes pat "%" || Js.includes pat "_"
                then (pat, " LIKE @") else (pat, " = @")).
    { intros Hs. unfold matcher. destruct pat as [|c rest]; [done|].
      destruct (Ascii.eqb c "^") eqn:Hc.
      - apply Ascii.eqb_eq in Hc as ->. cbn in Hs. by destruct rest.
      - apply Ascii.eqb_neq in Hc.
        destruct c as [[] [] [] [] [] [] [] []]; try done. }
    split; [|split].
    + intros rest ->. simpl. by rewrite ?str_app_assoc.
    + intros Hs Hlike. rewrite (Hplain Hs).
      assert (Js.includes pat "%" || Js.includes pat "_" = true) as ->
        by (apply orb_true_iff; done).
      simpl. by rewrite ?str_app_assoc.
    + intros Hs Hp Hu. rewrite (Hplain Hs), Hp, Hu. simpl.
      by rewrite ?str_app_assoc.
Qed.

Lemma matcher_binds_each_pattern_witness :
  bindNameMatchers [binding "type" (NVarChar Unsized) (Some (VStr "BASE TABLE"))]
    ["^pgm_"; "Orders"; "a%"] "TABLE_NAME" "tbl"
  = Ok ([binding "type" (NVarChar Unsized) (Some (VStr "BASE TABLE"));
         binding "tbl0" (NVarChar Unsized) (Some (VStr "pgm_%"));
         binding "tbl1" (NVarChar Unsized) (Some (VStr "Orders"));
         binding "tbl2" (NVarChar Unsized) (Some (VStr "a%"))],
        ["TABLE_NAME LIKE @tbl0"; "TABLE_NAME = @tbl1"; "TABLE_NAME LIKE @tbl2"]).
Proof.
  destruct (matcher_binds_each_pattern
              [binding "type" (NVarChar Unsized) (Some (VStr "BASE TABLE"))]
              ["^pgm_"; "Orders"; "a%"] "TABLE_NAME" "tbl")
    as (bound & clauses & Hrun & Hb & Hc & _ & Heach).
  - reflexivity.
  - intros i Hi. simpl in Hi.
    destruct i as [|[|[|i]]]; [| | |lia];
      vm_compute; by intros [=]%list_elem_of_singleton.
  - rewrite Hrun.
    destruct (Heach 0%nat "^pgm_" eq_refl) as [H0 _].
    destruct (H0 "pgm_" eq_refl) as [Hb0 Hc0].
    destruct (Heach 1%nat "Orders" eq_refl) as (_ & _ & H1).
    destruct (H1 eq_refl eq_refl eq_refl) as [Hb1 Hc1].
    destruct (Heach 2%nat "a%" eq_refl) as (_ & H2 & _).
    destruct (H2 eq_refl (or_introl eq_refl)) as [Hb2 Hc2].
    destruct bound as [|b0 [|b1 [|b2 [|? ?]]]]; try discriminate Hb.
    destruct clauses as [|c0 [|c1 [|c2 [|? ?]]]]; try discriminate Hc.
    simpl in *. by simplify_eq.
Defined.

Lemma appends_ret {A : Type} (a : A) : appends (ret a).
Proof. intros app. unfold ret. simpl. by rewrite app_nil_r. Qed.

Lemma appends_lift {A : Type} (x : Exn A) : appends (lift x).
Proof. intros app. unfold lift. simpl. by rewrite app_nil_r. Qed.

Lemma appends_register (m : Method) (p : string) (h : Handler) :
  appends (register m p h).
Proof. intros app. reflexivity. Qed.

Lemma appends_bind {A B : Type} (m : SE (list Route) A)
    (k : A → SE (list Route) B) :
  appends m → (∀ a, appends (k a)) → appends (bind m k).
Proof.
  intros Hm Hk app. unfold bind. rewrite (Hm app).
  destruct (m []) as [[a|e] n]; simpl; [|done].
  rewrite (Hk a (app ++ n)), (Hk a n). simpl. by rewrite app_assoc.
Qed.

Lemma appends_fold_each {A B : Type} (xs : list A)
    (body : B → A → SE (list Route) B) (acc : B) :
  (∀ b x, appends (body b x)) → appends (fold_each xs body acc).
Proof.
  intros Hbody. revert acc. induction xs as [|x xs IH]; intros acc; simpl.
  - apply appends_ret.
  - apply appends_bind; [apply Hbody|]. intros b. apply IH.
Qed.

Lemma appends_registerRoutes (tableMeta : TableMeta) (endpoint : string) :
  appends (registerRoutes tableMeta endpoint).
Proof.
  unfold registerRoutes.
  apply appends_bind; [apply appends_register|]. intros _.
  destruct (_ && _); [|apply appends_ret].
  repeat (apply appends_bind; [apply appends_register|]; intros _).
  apply appends_register.
Qed.

Ltac appends_steps :=
  repeat first
    [ apply appends_ret
    | apply appends_lift
    | apply appends_register
    | apply appends_registerRoutes
    | apply appends_bind; [|intros ?] ].

Lemma appends_setupDynamicRoutes (cat : Catalog) (endpointConfig : EndpointConfig) :
  appends (setupDynamicRoutes cat endpointConfig).
Proof.
  unfold setupDynamicRoutes.
  repeat (apply appends_bind; [first [apply appends_lift | apply appends_fold_each]|intros ?]).
  - intros b x. unfold setup_table. appends_steps.
  - intros b x. unfold setup_view. appends_steps.
  - intros b x. unfold setup_procedure, registerProcRoutes. appends_steps.
  - intros b x. unfold setup_function, registerFunctionRoutes. appends_steps.
  - unfold setup_advanced, registerAdvancedRoute.
    destruct (cfg_advanced _); appends_steps.
Qed.

(** X21.  Discovery only adds routes at the end of the routing table,
    and neither its result nor the routes it adds depend on the
    routes registered before; this holds also when a metadata query
    fails, in which case the routes added before the failure stay. *)
Theorem discovery_only_appends (cat : Catalog) (endpointConfig : EndpointConfig)
    (app : list Route) :
  setupDynamicRoutes cat endpointConfig app
  = ((setupDynamicRoutes cat endpointConfig []).1,
     app ++ (setupDynamicRoutes cat endpointConfig []).2).
Proof. apply appends_setupDynamicRoutes. Qed.

(** X22.  With nothing included, discovery does not consult the
    catalog: it registers no route and describes no object, but for
    the advanced route and its fragment when the capability is
    enabled. *)
Theorem nothing_included_nothing_discovered (cat : Catalog)
    (endpointConfig : EndpointConfig) (app : list Route)
    (Htables : include_tables endpointConfig = [])
    (Hviews : include_views endpointConfig = [])
    (Hprocedures : include_procedures endpointConfig = [])
    (Hfunctions : include_functions endpointConfig = []) :
  let endpoint := endpoint_name endpointConfig in
  setupDynamicRoutes cat endpointConfig app
  = if cfg_advanced endpointConfig then
      (Ok (<[schema_key endpoint "advanced" := AdvancedFragment]> ∅),
       app ++ [{| method := POST; path := "/" +:+ endpoint +:+ "/a";
                  handler := RunAdvanced endpoint |}])
    else (Ok ∅, app).
Proof.
  unfold setupDynamicRoutes. rewrite Htables, Hviews, Hprocedures, Hfunctions.
  unfold setup_advanced. by destruct (cfg_advanced _).
Qed.

Lemma nothing_included_nothing_discovered_witness :
  setupDynamicRoutes Sample.same_name
    {| cfg_endpoint := Some "crm"; include_tables := []; include_views := [];
       include_procedures := []; include_functions := [];
       cfg_advanced := true |} []
  = (Ok (<[schema_key "crm" "advanced" := AdvancedFragment]> ∅),
     [{| method := POST; path := "/crm/a"; handler := RunAdvanced "crm" |}]).
Proof.
  apply (nothing_included_nothing_discovered Sample.same_name
           {| cfg_endpoint := Some "crm"; include_tables := [];
              include_views := []; include_procedures := [];
              include_functions := []; cfg_advanced := true |} []);
    reflexivity.
Defined.

Lemma adds_ret {A : Type} (P : Route → Prop) (a : A) : adds_only P (ret a).
Proof. by intros app. Qed.

Lemma adds_lift {A : Type} (P : Route → Prop) (x : Exn A) : adds_only P (lift x).
Proof. by intros app. Qed.

Lemma adds_register (P : Route → Prop) (m : Method) (p : string) (h : Handler) :
  P {| method := m; path := p; handler := h |} → adds_only P (register m p h).
Proof.
  intros HP app Happ. unfold register. simpl.
  apply Forall_app. split; [done|]. by constructor.
Qed.

Lemma adds_bind {A B : Type} (P : Route → Prop) (m : SE (list Route) A)
    (k : A → SE (list Route) B) :
  adds_only P m → (∀ a, adds_only P (k a)) → adds_only P (bind m k).
Proof.
  intros Hm Hk app Happ. unfold bind. specialize (Hm app Happ).
  destruct (m app) as [[a|e] n]; simpl in *; [by apply Hk|done].
Qed.

Lemma adds_fold_each {A B : Type} (P : Route → Prop) (xs : list A)
    (body : B → A → SE (list Route) B) (acc : B) :
  (∀ b x, adds_only P (body b x)) → adds_only P (fold_each xs body acc).
Proof.
  intros Hbody. revert acc. induction xs as [|x xs IH]; intros acc; simpl.
  - apply adds_ret.
  - apply adds_bind; [apply Hbody|]. intros b. apply IH.
Qed.

Lemma adds_registerRoutes (P : Route → Prop) (tableMeta : TableMeta)
    (endpoint : string) :
  (∀ r, route_fits_kind r → triple_endpoint (route_triple r) = endpoint →
        path r = route_path r → P r) →
  adds_only P (registerRoutes tableMeta endpoint).
Proof.
  intros HP. unfold registerRoutes.
  assert (Hroute : ∀ m p h,
            route_fits_kind {| method := m; path := p; handler := h |} →
            triple_endpoint (route_triple {| method := m; path := p; handler := h |})
            = endpoint →
            p = route_path {| method := m; path := p; handler := h |} →
            adds_only P (register m p h))
    by (intros m p h ? ? ?; by apply adds_register, HP).
  apply adds_bind; [by apply Hroute|]. intros _.
  destruct (negb (isView tableMeta)) eqn:Hv; simpl; [|apply adds_ret].
  apply negb_true_iff in Hv.
  destruct (truthy_name _); [|apply adds_ret].
  repeat (apply adds_bind; [apply Hroute|intros _]);
    try apply Hroute;
    try reflexivity;
    try (unfold route_fits_kind; simpl; by auto);
    unfold route_path; simpl; by rewrite ?str_app_assoc.
Qed.

Ltac adds_steps HP :=
  repeat first
    [ apply adds_ret
    | apply adds_lift
    | apply adds_registerRoutes; exact HP
    | apply adds_register; apply HP; reflexivity
    | apply adds_bind; [|intros ?] ].

(** X23.  Every route that discovery adds is one of its kind: a view
    gets a list route only, the single-row and write routes belong to
    tables, and functions, procedures and the advanced capability
    are posted to.  It is under the endpoint of the configuration,
    and its path is the one of the object its handler serves.  All
    this holds also for the routes added before a metadata query
    fails. *)
Theorem discovered_routes_fit_their_kind (cat : Catalog)
    (endpointConfig : EndpointConfig) (app : list Route) (r : Route) :
  r ∈ (setupDynamicRoutes cat endpointConfig app).2 →
  r ∈ app
  ∨ (route_fits_kind r
     ∧ triple_endpoint (route_triple r) = endpoint_name endpointConfig
     ∧ path r = route_path r).
Proof.
  set (P := fun r => r ∈ app
     ∨ (route_fits_kind r
        ∧ triple_endpoint (route_triple r) = endpoint_name endpointConfig
        ∧ path r = route_path r)).
  assert (HP : ∀ r, route_fits_kind r →
                    triple_endpoint (route_triple r) = endpoint_name endpointConfig →
                    path r = route_path r → P r)
    by (intros; right; done).
  assert (Hadds : adds_only P (setupDynamicRoutes cat endpointConfig)).
  { unfold setupDynamicRoutes.
    repeat (apply adds_bind; [first [apply adds_lift | apply adds_fold_each]|intros ?]).
    - intros b x. unfold setup_table. adds_steps HP.
    - intros b x. unfold setup_view. adds_steps HP.
    - intros b x. unfold setup_procedure, registerProcRoutes. adds_steps HP.
    - intros b x. unfold setup_function, registerFunctionRoutes. adds_steps HP.
    - unfold setup_advanced, registerAdvancedRoute.
      destruct (cfg_advanced _); adds_steps HP. }
  intros Hr.
  assert (Happ : Forall P app) by (apply Forall_forall; intros x Hx; by left).
  pose proof (Hadds app Happ) as Hall.
  rewrite Forall_forall in Hall. by apply Hall.
Qed.

Lemma discovered_routes_fit_their_kind_witness :
  {| method := GET; path := "/api/v/LatestWidgetsView";
     handler := ListRows "api" Sample.widgets |} ∈ @nil Route
  ∨ (route_fits_kind {| method := GET; path := "/api/v/LatestWidgetsView";
                        handler := ListRows "api" Sample.widgets |}
     ∧ triple_endpoint
         (route_triple {| method := GET; path := "/api/v/LatestWidgetsView";
                          handler := ListRows "api" Sample.widgets |})
       = endpoint_name Sample.distinct_names_config
     ∧ path {| method := GET; path := "/api/v/LatestWidgetsView";
               handler := ListRows "api" Sample.widgets |}
       = route_path {| method := GET; path := "/api/v/LatestWidgetsView";
                       handler := ListRows "api" Sample.widgets |}).
Proof.
  apply (discovered_routes_fit_their_kind Sample.distinct_names
           Sample.distinct_names_config []).
  rewrite distinct_names_run. vm_compute. left.
Defined.

(** ** The document of the server *)

Lemma split_nonempty (sep : ascii) (s : string) : Js.split sep s ≠ [].
Proof.
  induction s as [|c s IH]; [done|]. simpl.
  destruct (Ascii.eqb c sep); [done|]. by destruct (Js.split sep s).
Qed.

Lemma join_cons (sep x : string) (r : list string) :
  r ≠ [] → Js.join sep (x :: r) = x +:+ sep +:+ Js.join sep r.
Proof. by destruct r. Qed.

Lemma join_split (sep : ascii) (s : string) :
  Js.join (String sep "") (Js.split sep s) = s.
Proof.
  induction s as [|c s IH]; [done|].
  pose proof (split_nonempty sep s) as Hne. simpl.
  destruct (Ascii.eqb c sep) eqn:Hc.
  - apply Ascii.eqb_eq in Hc as ->.
    rewrite join_cons by done. by rewrite IH.
  - destruct (Js.split sep s) as [|p ps]; [done|].
    destruct ps as [|q ps].
    + simpl in *. by rewrite IH.
    + rewrite join_cons by done. rewrite join_cons in IH by done.
      rewrite str_app_cons. by rewrite IH.
Qed.

Lemma split_first (a rest : string) :
  no_underscore a →
  Js.split "_" (a +:+ "_" +:+ rest) = a :: Js.split "_" rest.
Proof.
  unfold no_underscore. induction a as [|c a IH]; intros Ha.
  - by rewrite str_app_nil_l.
  - simpl in Ha. apply andb_true_iff in Ha as [Hc Ha].
    rewrite str_app_cons. simpl. apply negb_true_iff in Hc. rewrite Hc.
    by rewrite (IH Ha).
Qed.

(** X24.  The server splits the name of a fragment at its first
    underscore.  It finds the endpoint and the object of a key of the
    schema map when the endpoint has no underscore; for an endpoint
    [a_b] it finds the endpoint [a] and an object whose name starts
    with [b_]. *)
Theorem schema_name_is_split_at_first_underscore (a b name : string)
    (Ha : no_underscore a) :
  parse_schema_name (schema_key a name) = (a, name)
  ∧ parse_schema_name (schema_key (a +:+ "_" +:+ b) name)
    = (a, b +:+ "_" +:+ name).
Proof.
  assert (H : ∀ rest, parse_schema_name (a +:+ "_" +:+ rest) = (a, rest)).
  { intros rest. unfold parse_schema_name. rewrite (split_first a rest Ha).
    simpl. by rewrite (join_split "_"). }
  unfold schema_key. split; [apply H|].
  rewrite !str_app_assoc. apply H.
Qed.

Lemma schema_name_is_split_at_first_underscore_witness :
  parse_schema_name (schema_key "crm" "usp_GetSpecs") = ("crm", "usp_GetSpecs")
  ∧ parse_schema_name (schema_key ("crm" +:+ "_" +:+ "eu") "usp_GetSpecs")
    = ("crm", "eu" +:+ "_" +:+ "usp_GetSpecs").
Proof.
  apply (schema_name_is_split_at_first_underscore "crm" "eu" "usp_GetSpecs").
  reflexivity.
Defined.

Lemma entry_paths_at (endpoint name : string) (sch : SchemaFragment) :
  no_underscore endpoint →
  entry_paths (schema_key endpoint name) sch
  = let kind := document_kind sch in
    let base := "/" +:+ endpoint +:+ "/" +:+ kind +:+ "/" +:+ name in
    if String.eqb kind "p" then [(base, [(POST, "Procedures")])]
    else if String.eqb kind "f" then [(base, [(POST, "Functions")])]
    else if String.eqb kind "v" then [(base, [(GET, "Views")])]
    else
      let hasPk := document_hasPk sch in
      [(base, if hasPk then [(GET, "Tables"); (POST, "Tables")]
              else [(GET, "Tables")])]
      ++ (if hasPk
          then [(base +:+ "/{id}",
                 [(GET, "Tables"); (PUT, "Tables"); (DELETE, "Tables")])]
          else [])
      ++ (if String.eqb kind "a"
          then [("/" +:+ endpoint +:+ "/a", [(POST, "Advanced")])]
          else []).
Proof.
  intros He. unfold entry_paths, schema_key.
  assert (H : parse_schema_name (endpoint +:+ "_" +:+ name) = (endpoint, name)).
  { unfold parse_schema_name. rewrite (split_first endpoint name He).
    simpl. by rewrite (join_split "_"). }
  by rewrite H.
Qed.

(** X25.  For an endpoint without underscore, the operations the
    document shows for the fragment of a discovered object are the
    routes registered for it, with [{id}] for the key segment: for a
    table (whose first key column, if any, has a name) up to their
    order, for a view, a procedure and a function exactly.  For the
    advanced capability the document shows the registered route and,
    before it, a list operation at [/endpoint/a/advanced] that no
    route serves. *)
Theorem document_shows_registered_routes (endpoint : string)
    (Hendpoint : no_underscore endpoint) :
  (∀ m, isView m = false → pk m = [] ∨ truthy_name (pk0 m) = true →
        documented (entry_paths (schema_key endpoint (table m))
                      (table_fragment (columns m) "t" false
                         (bool_decide (pk m ≠ []))))
        ≡ₚ served (registerRoutes m endpoint []).2)
  ∧ (∀ m, isView m = true →
          documented (entry_paths (schema_key endpoint (table m))
                        (table_fragment (columns m) "v" true false))
          = served (registerRoutes m endpoint []).2)
  ∧ (∀ p, documented (entry_paths (schema_key endpoint (proc p))
                        (procedure_fragment (proc_schema p) (proc p) (proc_params p)))
          = served (registerProcRoutes p endpoint []).2)
  ∧ (∀ f, documented (entry_paths (schema_key endpoint (func f))
                        (function_fragment (func_type f) (func_params f) (returnType f)))
          = served (registerFunctionRoutes f endpoint []).2)
  ∧ documented (entry_paths (schema_key endpoint "advanced") AdvancedFragment)
    = ("/" +:+ endpoint +:+ "/a/advanced", GET)
      :: served (registerAdvancedRoute endpoint []).2.
Proof.
  repeat split.
  - intros m Hview Hpk. rewrite (entry_paths_at _ _ _ Hendpoint).
    unfold registerRoutes, table_kind. rewrite Hview. simpl.
    destruct Hpk as [Hpk|Hpk].
    + unfold pk0. rewrite Hpk. simpl. unfold served, openapi_path. simpl.
      reflexivity.
    + rewrite Hpk. rewrite bool_decide_true
        by (unfold pk0 in Hpk; by destruct (pk m)).
      unfold bind, register, served, openapi_path, table_kind. simpl.
      rewrite Hview. rewrite ?str_app_assoc.
      apply perm_skip. apply perm_swap.
  - intros m Hview. rewrite (entry_paths_at _ _ _ Hendpoint).
    unfold registerRoutes, table_kind. rewrite Hview. reflexivity.
  - intros p. rewrite (entry_paths_at _ _ _ Hendpoint). reflexivity.
  - intros f. rewrite (entry_paths_at _ _ _ Hendpoint). reflexivity.
  - rewrite (entry_paths_at _ _ _ Hendpoint). reflexivity.
Qed.

Lemma document_shows_registered_routes_witness :
  documented (entry_paths (schema_key "api" "advanced") AdvancedFragment)
  = ("/" +:+ "api" +:+ "/a/advanced", GET)
    :: served (registerAdvancedRoute "api" []).2.
Proof.
  refine (proj2 (proj2 (proj2 (proj2
            (document_shows_registered_routes "api" _))))).
  reflexivity.
Defined.

(** ** The listing of an endpoint *)




(** ** Schema emitter *)

Section Props.

Context {A V : Type}.
Variable key : A → string.
Variable val : A → V.


Lemma props_keys (xs : list A) (acc : gmap string V) (n : string) :
  is_Some (foldl (fun m x => <[key x := val x]> m) acc xs !! n) ↔ n ∈ map key xs ∨ is_Some (acc !! n).
Proof.
  revert acc. induction xs as [|x xs IH]; intros acc; simpl.
  - split; [by right|]. by intros [?%elem_of_nil|?].
  - rewrite IH, elem_of_cons.
    destruct (decide (key x = n)) as [<-|Hne].
    + rewrite lookup_insert_eq. split; [by left; left|by right].
    + rewrite lookup_insert_ne by done. split.
      * intros [?|?]; [left; by right|by right].
      * intros [[?|?]|?]; [congruence|by left|by right].
Qed.


End Props.



(** ** The paths of the document *)

(** X29.  The document of the server has a path exactly when the
    fragment of some entry of the schema map gives that path. *)
Theorem document_has_the_paths_of_its_fragments
    (schemas : list (string * SchemaFragment)) (p : string) :
  is_Some (buildPathsFromComponents schemas !! p)
  ↔ ∃ name sch, (name, sch) ∈ schemas ∧ p ∈ map fst (entry_paths name sch).
Proof.
  unfold buildPathsFromComponents.
  assert (H : ∀ acc : gmap string Operations,
            is_Some (foldl (fun paths entry =>
                              foldl (fun m item => <[item.1 := item.2]> m) paths
                                    (entry_paths entry.1 entry.2))
                           acc schemas !! p)
            ↔ (∃ name sch, (name, sch) ∈ schemas
                           ∧ p ∈ map fst (entry_paths name sch))
              ∨ is_Some (acc !! p)).
  { induction schemas as [|[name sch] schemas IH]; intros acc.
    - simpl. split; [by right|].
      intros [(? & ? & ?%elem_of_nil & _)|?]; done.
    - simpl. rewrite IH. rewrite (props_keys fst snd). split.
      + intros [(n & s & Hin & Hp)|[Hp|Hacc]].
        * left. exists n, s. split; [by right|done].
        * left. exists name, sch. split; [by left|done].
        * by right.
      + intros [(n & s & Hin & Hp)|Hacc].
        * apply elem_of_cons in Hin as [[= -> ->]|Hin].
          -- right. by left.
          -- left. by exists n, s.
        * right. by right. }
  rewrite H, lookup_empty. split; [|by left].
  intros [?|[? ?]]; done.
Qed.
